(** * aoj-verify: the verification engine of [main.go]

    A shallow embedding of [verify], [filesAreEqual] and the [stopwatch]
    package, and the properties of the engine stated over it.

    The engine talks to the operating system all the time (temporary
    directories, the Go toolchain, the solution binary, files, the clock).
    Those calls are the fields of a record [OS]; the engine is written in a
    small monad that threads the world of that record and writes down every
    call it makes together with what the call returned. *)

From Stdlib Require Import ZArith List Bool Ascii String Lia.
From Stdlib Require Import Strings.Byte.
From Stdlib Require Import Sorted Permutation.
From Stdlib Require Import DecimalString.
Import ListNotations.

Local Open Scope string_scope.
Local Open Scope list_scope.
Local Open Scope Z_scope.

Set Warnings "-register-all".

(* ================================================================== *)
(** ** Go values used by the engine *)

(** [int] and [time.Duration] are 64-bit signed integers. *)
Module Int64.
Definition min_int : Z := - 2 ^ 63.
Definition max_int : Z := 2 ^ 63 - 1.

(** Two's complement wrap-around of the arithmetic operators. *)
Definition wrap (z : Z) : Z := (z + 2 ^ 63) mod 2 ^ 64 - 2 ^ 63.

(** [x++] *)
Definition incr (x : Z) : Z := wrap (x + 1).

(** Saturation, as done by [time.Time.Sub]. *)
Definition saturate (z : Z) : Z :=
  if z <? min_int then min_int else if max_int <? z then max_int else z.

Definition in_range (z : Z) : Prop := min_int <= z <= max_int.
End Int64.

(** [strings.HasSuffix]:
    [len(s) >= len(suffix) && s[len(s)-len(suffix):] == suffix]. *)
Definition strings_HasSuffix (s suffix : string) : bool :=
  (String.length suffix <=? String.length s)%nat &&
  String.eqb
    (substring (String.length s - String.length suffix)
               (String.length suffix) s)
    suffix.

(** [strings.TrimSuffix]:
    [if HasSuffix(s, suffix) { return s[:len(s)-len(suffix)] }; return s]. *)
Definition strings_TrimSuffix (s suffix : string) : string :=
  if strings_HasSuffix s suffix
  then substring 0 (String.length s - String.length suffix) s
  else s.

(** [bytes.Equal] *)
Fixpoint bytes_Equal (a b : list byte) : bool :=
  match a, b with
  | [], [] => true
  | x :: a', y :: b' => Byte.eqb x y && bytes_Equal a' b'
  | _, _ => false
  end.

(** Go errors.  An error the operating system hands back is opaque
    ([ErrNew] with its message); [fmt.Errorf] with one [%w] wraps an error
    between two pieces of text; [errors.Join] keeps its non-nil arguments. *)
Inductive error : Type :=
| ErrNew (msg : string)
| ErrWrap (before : string) (e : error) (after : string)
| ErrJoin1 (e : error)
| ErrJoin2 (e1 e2 : error).

(** A Go [error] value: [None] is [nil]. *)
Definition goerr := option error.

(** The [Error()] method. *)
Fixpoint Error (e : error) : string :=
  match e with
  | ErrNew msg => msg
  | ErrWrap before e' after => (before ++ Error e' ++ after)%string
  | ErrJoin1 e' => Error e'
  | ErrJoin2 e1 e2 => (Error e1 ++ String "010" (Error e2))%string
  end.

(** [errors.Join(a, b)]: nil arguments are dropped, and the result is nil
    when nothing is left. *)
Definition errors_Join (a b : goerr) : goerr :=
  match a, b with
  | None, None => None
  | Some e, None => Some (ErrJoin1 e)
  | None, Some e => Some (ErrJoin1 e)
  | Some e1, Some e2 => Some (ErrJoin2 e1 e2)
  end.

(** The errors a joined error is made of, in the order they were joined. *)
Fixpoint joined (e : error) : list error :=
  match e with
  | ErrJoin1 e' => joined e'
  | ErrJoin2 e1 e2 => joined e1 ++ joined e2
  | _ => [e]
  end.

Definition joined_all (e : goerr) : list error :=
  match e with None => [] | Some e' => joined e' end.

(* ================================================================== *)
(** ** Verdicts and run results *)

Inductive runStatus : Type :=
| unknown
| accepted
| wrongAnswer
| runtimeError
| timeLimitExceeded.

Record runResult : Type := newRunResult {
  testcaseName : string;
  status : runStatus;
  execTime : Z
}.

(* ================================================================== *)
(** ** The summary fold (the last loop of [verify]) *)

Record Summary : Type := mkSummary {
  slowestTime : Z;
  slowestTestcaseName : string;
  acCount : Z;
  waCount : Z;
  tleCount : Z;
  reCount : Z
}.

(** The zero values the six variables are declared with. *)
Definition summary0 : Summary := mkSummary 0 "" 0 0 0 0.

(** One iteration of [for _, v := range runResults]. *)
Definition summaryStep (acc : Summary) (v : runResult) : Summary :=
  let acc1 :=
    if slowestTime acc <? execTime v
    then mkSummary (execTime v) (testcaseName v)
                   (acCount acc) (waCount acc) (tleCount acc) (reCount acc)
    else acc in
  match status v with
  | accepted =>
      mkSummary (slowestTime acc1) (slowestTestcaseName acc1)
                (Int64.incr (acCount acc1)) (waCount acc1) (tleCount acc1) (reCount acc1)
  | wrongAnswer =>
      mkSummary (slowestTime acc1) (slowestTestcaseName acc1)
                (acCount acc1) (Int64.incr (waCount acc1)) (tleCount acc1) (reCount acc1)
  | timeLimitExceeded =>
      mkSummary (slowestTime acc1) (slowestTestcaseName acc1)
                (acCount acc1) (waCount acc1) (Int64.incr (tleCount acc1)) (reCount acc1)
  | runtimeError =>
      mkSummary (slowestTime acc1) (slowestTestcaseName acc1)
                (acCount acc1) (waCount acc1) (tleCount acc1) (Int64.incr (reCount acc1))
  | unknown => acc1
  end.

Definition summarize (runResults : list runResult) : Summary :=
  fold_left summaryStep runResults summary0.

(** *** Views of the summary used to state its properties *)

Definition statusEqb (a b : runStatus) : bool :=
  match a, b with
  | unknown, unknown | accepted, accepted | wrongAnswer, wrongAnswer
  | runtimeError, runtimeError | timeLimitExceeded, timeLimitExceeded => true
  | _, _ => false
  end.

(** How many results have the verdict [st]. *)
Definition countOf (st : runStatus) (rs : list runResult) : nat :=
  List.length (filter (fun r => statusEqb (status r) st) rs).

Definition known (r : runResult) : bool := negb (statusEqb (status r) unknown).

(** The four counters of a summary. *)
Definition counts (s : Summary) : Z * Z * Z * Z :=
  (acCount s, waCount s, tleCount s, reCount s).

Definition countsTotal (s : Summary) : Z :=
  acCount s + waCount s + tleCount s + reCount s.

Definition slowestOf (s : Summary) : Z * string :=
  (slowestTime s, slowestTestcaseName s).

(** The part of [summaryStep] that keeps the slowest case. *)
Definition slowStep (cur : Z * string) (v : runResult) : Z * string :=
  if fst cur <? execTime v then (execTime v, testcaseName v) else cur.

(* ================================================================== *)
(** ** Discovery: [filepath.WalkDir] and [slices.Sort] *)

(** What [filepath.WalkDir] finds below its root.  Every entry carries the
    path the callback is given for it.  A directory can fail to be read
    ([readErr]); anything that is not a directory is a [NonDir]. *)
Inductive DirEntry : Type :=
| NonDir (path : string)
| Dir (path : string) (readErr : goerr) (entries : list DirEntry).

(** [os.Lstat] of the root either fails or gives the root entry. *)
Inductive WalkRoot : Type :=
| RootErr (e : error)
| Root (d : DirEntry).

Section WalkDir.
Variable St : Type.

(** The callback: path, [d.IsDir()] ([None] when [d] is nil), the error
    passed in, and the variables it captures. *)
Variable fn : string -> option bool -> goerr -> St -> goerr * St.

(** The loop [for _, d1 := range dirs] of [filepath.walkDir], over the
    walk of one entry. *)
Definition walkEntries (walk : DirEntry -> St -> goerr * St) :
    list DirEntry -> St -> goerr * St :=
  fix loop (ds : list DirEntry) (st : St) : goerr * St :=
    match ds with
    | [] => (None, st)
    | d1 :: ds' =>
        match walk d1 st with
        | (Some e, st') => (Some e, st')
        | (None, st') => loop ds' st'
        end
    end.

(** [filepath.walkDir].  The callback of [verify] returns nil or the error
    it was given, never [SkipDir], so that case is left out. *)
Fixpoint walkDir (d : DirEntry) (st : St) : goerr * St :=
  match d with
  | NonDir path => fn path (Some false) None st
  | Dir path readErr entries =>
      match fn path (Some true) None st with
      | (Some e, st1) => (Some e, st1)
      | (None, st1) =>
          match readErr with
          | Some e =>
              match fn path (Some true) (Some e) st1 with
              | (Some e', st2) => (Some e', st2)
              | (None, st2) => walkEntries walkDir entries st2
              end
          | None => walkEntries walkDir entries st1
          end
      end
  end.

(** [filepath.WalkDir] *)
Definition filepath_WalkDir (root : string) (r : WalkRoot) (st : St) : goerr * St :=
  match r with
  | RootErr e => fn root None (Some e) st
  | Root d => walkDir d st
  end.
End WalkDir.

Arguments walkEntries {St} walk ds st.
Arguments walkDir {St} fn d st.
Arguments filepath_WalkDir {St} fn root r st.

(** The function literal [verify] passes to [filepath.WalkDir]; the captured
    variable is [inFilepaths]. *)
Definition walkFn (path : string) (isDir : option bool) (err : goerr)
    (inFilepaths : list string) : goerr * list string :=
  match err with
  | Some e => (Some e, inFilepaths)
  | None =>
      match isDir with
      | Some isdir =>
          if negb isdir && strings_HasSuffix path ".in"
          then (None, inFilepaths ++ [path])
          else (None, inFilepaths)
      | None => (None, inFilepaths)
      end
  end.

(** [slices.Sort] on strings puts the slice in ascending order of [<], the
    byte-wise lexicographic order.  The embedding computes that order by
    insertion; [slices_Sort_unique] below shows that every method that
    returns a sorted rearrangement returns this list. *)
Fixpoint insert_sorted (x : string) (l : list string) : list string :=
  match l with
  | [] => [x]
  | y :: l' => if String.leb x y then x :: l else y :: insert_sorted x l'
  end.

Fixpoint slices_Sort (l : list string) : list string :=
  match l with
  | [] => []
  | x :: l' => insert_sorted x (slices_Sort l')
  end.

(** The order of [slices.Sort] on strings. *)
Definition str_le (a b : string) : Prop := String.leb a b = true.

(** The test of the callback on the path of an entry that is not a
    directory. *)
Definition isInput (path : string) : bool := strings_HasSuffix path ".in".

(** The paths of the entries below [d] that are not directories. *)
Fixpoint filesOf (d : DirEntry) : list string :=
  match d with
  | NonDir path => [path]
  | Dir _ _ entries => flat_map filesOf entries
  end.

(** No directory below [d] fails to be read. *)
Fixpoint readable (d : DirEntry) : bool :=
  match d with
  | NonDir _ => true
  | Dir _ readErr entries =>
      match readErr with Some _ => false | None => forallb readable entries end
  end.

(** The walk from a root meets no error. *)
Definition walkable (r : WalkRoot) : bool :=
  match r with RootErr _ => false | Root d => readable d end.

(** The input files below a root. *)
Definition inputsOf (r : WalkRoot) : list string :=
  match r with RootErr _ => [] | Root d => filter isInput (filesOf d) end.

(* ================================================================== *)
(** ** The operating system *)

(** An open [*os.File]. *)
Definition File := nat.

(** The fields of [exec.Cmd] the engine sets; [StderrBuf] says that
    [Stderr] points to a [bytes.Buffer]. *)
Record Cmd : Type := mkCmd {
  Name : string;
  Args : list string;
  Stdin : option File;
  Stdout : option File;
  StderrBuf : bool
}.

(** [exec.Command(name, arg...)] *)
Definition exec_Command (name : string) (arg : list string) : Cmd :=
  mkCmd name arg None None false.

(** The calls of the engine.  [World] is everything outside the Go process:
    the file system, the processes it starts and the clock.  [cmd_Run] gives
    the error of the [Run] method of [exec.Cmd] and the text the process wrote to its
    standard error; [os_Lstat] is what [filepath.WalkDir] finds below a
    root; [io_Copy] is [io.Copy] of a whole file into a buffer; [time_Now]
    is the monotonic clock reading in nanoseconds; [dirExists] tells
    whether a directory is there. *)
Record OS : Type := mkOS {
  World : Type;
  dirExists : string -> World -> bool;
  os_MkdirTemp : string -> string -> World -> (string + error) * World;
  os_RemoveAll : string -> World -> World;
  cmd_Run : Cmd -> World -> (goerr * string) * World;
  os_Lstat : string -> World -> WalkRoot;
  os_Open : string -> World -> (File + error) * World;
  os_Create : string -> World -> (File + error) * World;
  file_Close : File -> World -> World;
  io_Copy : File -> World -> (list byte + error) * World;
  rand_Text : World -> string * World;
  time_Now : World -> Z * World
}.

(** [os.MkdirTemp] makes the new directory with [os.Mkdir], which creates
    no parent: when [dir] is missing the call fails, and [dir] is still
    missing afterwards. *)
Definition MkdirTemp_makes_no_parent (os : OS) : Prop :=
  forall dir pattern w,
    dir <> "" -> dirExists os dir w = false ->
    exists e w', os_MkdirTemp os dir pattern w = (inr e, w') /\
                 dirExists os dir w' = false.

(** An attribute of a log record. *)
Inductive attr : Type :=
| AString (s : string)
| ADuration (d : Z)
| AInt (n : Z).

(** A call the engine made, with what it returned. *)
Inductive call : Type :=
| CMkdirTemp (dir pattern : string) (res : string + error)
| CRemoveAll (path : string)
| CRun (cmd : Cmd) (err : goerr)
| CWalkDir (root : string) (found : WalkRoot)
| COpen (path : string) (res : File + error)
| CCreate (path : string) (res : File + error)
| CClose (f : File)
| CCopy (f : File) (res : list byte + error)
| CRandText (s : string)
| CNow (t : Z)
| CLog (msg : string) (attrs : list (string * attr)).

(** [filepath.Clean] on a path with the separator [/].  The path is read
    element by element; [out] holds the elements kept so far, the last one
    first.  Empty elements and [.] are dropped; [..] takes back the element
    before it when that is a name, is dropped at the root, and is kept at
    the front of a path that is not rooted; every other element is kept. *)
Definition cleanStep (rooted : bool) (out : list string) (elem : string) : list string :=
  if String.eqb elem "" || String.eqb elem "." then out
  else if String.eqb elem ".." then
    let canBacktrack :=
      match out with
      | [] => false
      | top :: _ => negb (String.eqb top "..")
      end in
    if canBacktrack then tl out
    else if rooted then out
    else ".." :: out
  else elem :: out.

(** The scan of the path: [cur] is the element being read. *)
Fixpoint cleanScan (rooted : bool) (path cur : string) (out : list string) : list string :=
  match path with
  | EmptyString => cleanStep rooted out cur
  | String c rest =>
      if Ascii.eqb c "/" then cleanScan rooted rest "" (cleanStep rooted out cur)
      else cleanScan rooted rest (cur ++ String c "")%string out
  end.

(** The cleaned path: the elements kept, with one separator between them,
    after the root if there is one; [.] when nothing is left. *)
Definition filepath_Clean (path : string) : string :=
  match path with
  | EmptyString => "."
  | String c _ =>
      let rooted := Ascii.eqb c "/" in
      let body := String.concat "/" (rev (cleanScan rooted path "" [])) in
      if rooted then ("/" ++ body)%string
      else if String.eqb body "" then "." else body
  end.

(** [filepath.Join(elem...)]: the elements from the first one that is not
    empty on, with a separator between them, cleaned; the empty string when
    every element is empty. *)
Fixpoint filepath_Join_elems (elem : list string) : string :=
  match elem with
  | [] => ""
  | e :: rest =>
      if String.eqb e "" then filepath_Join_elems rest
      else filepath_Clean (String.concat "/" elem)
  end.

(** [filepath.Join(dir, name)] *)
Definition filepath_Join (dir name : string) : string :=
  filepath_Join_elems [dir; name].

(** What one iteration of the run loop ends with: an error joined to
    [multiErr], or a result appended to [runResults]. *)
Inductive caseOutcome : Type :=
| InfraErr (e : error)
| Recorded (r : runResult).

(** What [verify] returns, and the [runResults] it holds when it returns. *)
Record Outcome : Type := mkOutcome {
  returned : goerr;
  runResults : list runResult
}.

(** [exec.Command("go", "build", "-o", binaryFilepath, buildFilename)] with
    [Stderr] set to a buffer. *)
Definition goBuild (binaryFilepath buildFilename : string) : Cmd :=
  mkCmd "go" ["build"; "-o"; binaryFilepath; buildFilename] None None true.

(** [exec.Command(binaryFilepath)] with the input file as [Stdin] and the
    answer file as [Stdout]. *)
Definition caseRun (binaryFilepath : string) (inFile answerFile : File) : Cmd :=
  mkCmd binaryFilepath [] (Some inFile) (Some answerFile) false.

(** *** The calls of [filesAreEqual] and of one iteration

    Every way [filesAreEqual] can go: what it returns and the calls it
    makes. *)
Inductive CompareShape (path1 path2 : string) : bool * goerr -> list call -> Prop :=
| CmpOpen1Fails err :
    CompareShape path1 path2 (false, Some err) [COpen path1 (inr err)]
| CmpOpen2Fails f1 err :
    CompareShape path1 path2 (false, Some err)
      [COpen path1 (inl f1); COpen path2 (inr err); CClose f1]
| CmpCopy1Fails f1 f2 err :
    CompareShape path1 path2 (false, Some err)
      [COpen path1 (inl f1); COpen path2 (inl f2); CCopy f1 (inr err);
       CClose f2; CClose f1]
| CmpCopy2Fails f1 f2 b1 err :
    CompareShape path1 path2 (false, Some err)
      [COpen path1 (inl f1); COpen path2 (inl f2); CCopy f1 (inl b1);
       CCopy f2 (inr err); CClose f2; CClose f1]
| CmpDone f1 f2 b1 b2 :
    CompareShape path1 path2 (bytes_Equal b1 b2, None)
      [COpen path1 (inl f1); COpen path2 (inl f2); CCopy f1 (inl b1);
       CCopy f2 (inl b2); CClose f2; CClose f1].

(** The record a test case is logged with. *)
Definition caseRecord (msg base : string) (elapsed : Z) : call :=
  CLog msg [("testcase", AString base); ("time", ADuration elapsed)].

(** Every way one iteration of the run loop can go. *)
Inductive CaseShape (tmpDir binaryFilepath inFilepath : string)
    : caseOutcome -> list call -> Prop :=
| CaseOpenFails err :
    CaseShape tmpDir binaryFilepath inFilepath
      (InfraErr (ErrWrap "failed to read .in file: " err ""))
      [COpen inFilepath (inr err)]
| CaseCreateFails inFile text err :
    CaseShape tmpDir binaryFilepath inFilepath
      (InfraErr (ErrWrap "failed to create answer file: " err ""))
      [COpen inFilepath (inl inFile); CRandText text;
       CCreate (filepath_Join tmpDir ("answer" ++ text)%string) (inr err)]
| CaseRunFails inFile text answerFile t0 e t1 :
    let base := strings_TrimSuffix inFilepath ".in" in
    let elapsed := Int64.saturate (t1 - t0) in
    CaseShape tmpDir binaryFilepath inFilepath
      (Recorded (newRunResult base runtimeError elapsed))
      [COpen inFilepath (inl inFile); CRandText text;
       CCreate (filepath_Join tmpDir ("answer" ++ text)%string) (inl answerFile);
       CNow t0;
       CRun (caseRun binaryFilepath inFile answerFile) (Some e);
       CNow t1;
       caseRecord "RE" base elapsed]
| CaseCompareFails inFile text answerFile t0 t1 equal err cmpCalls :
    let base := strings_TrimSuffix inFilepath ".in" in
    let answerFilepath := filepath_Join tmpDir ("answer" ++ text)%string in
    CompareShape answerFilepath (base ++ ".out")%string (equal, Some err) cmpCalls ->
    CaseShape tmpDir binaryFilepath inFilepath
      (InfraErr (ErrWrap "failed to compare files: " err ""))
      (COpen inFilepath (inl inFile) :: CRandText text ::
       CCreate answerFilepath (inl answerFile) ::
       CNow t0 ::
       CRun (caseRun binaryFilepath inFile answerFile) None ::
       CNow t1 :: CClose inFile :: CClose answerFile :: cmpCalls)
| CaseJudged inFile text answerFile t0 t1 f1 f2 b1 b2 :
    let base := strings_TrimSuffix inFilepath ".in" in
    let answerFilepath := filepath_Join tmpDir ("answer" ++ text)%string in
    let elapsed := Int64.saturate (t1 - t0) in
    let equal := bytes_Equal b1 b2 in
    CaseShape tmpDir binaryFilepath inFilepath
      (Recorded (newRunResult base (if equal then accepted else wrongAnswer) elapsed))
      [COpen inFilepath (inl inFile); CRandText text;
       CCreate answerFilepath (inl answerFile);
       CNow t0;
       CRun (caseRun binaryFilepath inFile answerFile) None;
       CNow t1; CClose inFile; CClose answerFile;
       COpen answerFilepath (inl f1); COpen (base ++ ".out")%string (inl f2);
       CCopy f1 (inl b1); CCopy f2 (inl b2); CClose f2; CClose f1;
       caseRecord (if equal then "AC" else "WA") base elapsed].

(** A failure before the run loop. *)
Definition setupFailed (c : call) : bool :=
  match c with
  | CMkdirTemp _ _ (inr _) => true
  | CRun cmd (Some _) => String.eqb (Name cmd) "go"
  | CWalkDir _ found => negb (walkable found)
  | _ => false
  end.

(** The errors and the results a list of iterations ended with. *)
Fixpoint errorsOf (outs : list caseOutcome) : list error :=
  match outs with
  | [] => []
  | InfraErr e :: outs' => e :: errorsOf outs'
  | Recorded _ :: outs' => errorsOf outs'
  end.

Fixpoint recordedOf (outs : list caseOutcome) : list runResult :=
  match outs with
  | [] => []
  | InfraErr _ :: outs' => recordedOf outs'
  | Recorded r :: outs' => r :: recordedOf outs'
  end.

(** [multiErr] after the errors [errs] were joined to it one by one. *)
Definition joinEach (multiErr : goerr) (errs : list error) : goerr :=
  fold_left (fun m e => errors_Join m (Some e)) errs multiErr.

(** A file operation of a test case failed: the input file could not be
    opened, the answer file could not be created, a file to compare could
    not be opened or read. *)
Definition ioFailed (c : call) : bool :=
  match c with
  | COpen _ (inr _) | CCreate _ (inr _) | CCopy _ (inr _) => true
  | _ => false
  end.

(** The error a failed file operation returned. *)
Definition fileError (c : call) : goerr :=
  match c with
  | COpen _ (inr e) | CCreate _ (inr e) | CCopy _ (inr e) => Some e
  | _ => None
  end.

(** The command is the toolchain. *)
Definition isBuild (cmd : Cmd) : bool := String.eqb (Name cmd) "go".

(** An error that is not a verdict on the solution: no temporary
    directory, a failed build, a failed walk, a failed file operation of a
    test case. *)
Definition infraFailed (c : call) : bool :=
  match c with
  | CMkdirTemp _ _ (inr _) => true
  | CRun cmd (Some _) => isBuild cmd
  | CWalkDir _ found => negb (walkable found)
  | _ => ioFailed c
  end.

(** The call starts the solution on a test case. *)
Definition isCaseRun (c : call) : bool :=
  match c with
  | CRun cmd _ => negb (isBuild cmd)
  | _ => false
  end.

(** The call writes the summary record. *)
Definition isSummary (c : call) : bool :=
  match c with
  | CLog msg _ => String.eqb msg "summary"
  | _ => false
  end.

(** The verdicts the run loop gives. *)
Definition given (st : runStatus) : bool :=
  match st with
  | accepted | wrongAnswer | runtimeError => true
  | unknown | timeLimitExceeded => false
  end.

(** [filepath.Base]: the last element of the path, after trailing
    separators are removed; [.] for the empty path and a single separator
    for a path of separators only. *)
Fixpoint stripSeparators (path : string) : string :=
  match path with
  | EmptyString => EmptyString
  | String c rest =>
      let rest' := stripSeparators rest in
      if Ascii.eqb c "/" && String.eqb rest' "" then "" else String c rest'
  end.

Fixpoint lastElement (path cur : string) : string :=
  match path with
  | EmptyString => cur
  | String c rest =>
      if Ascii.eqb c "/" then lastElement rest ""
      else lastElement rest (cur ++ String c "")%string
  end.

Definition filepath_Base (path : string) : string :=
  if String.eqb path "" then "."
  else let p := stripSeparators path in
       if String.eqb p "" then "/" else lastElement p "".

(** The name of a test case in the words of the specification: the base
    name of the input file path without its [.in] suffix. *)
Definition spec_stem (inFilepath : string) : string :=
  strings_TrimSuffix (filepath_Base inFilepath) ".in".

Section Engine.
Variable os : OS.

(** Computations of the engine: they change the world and list the calls
    made, in order. *)
Definition M (A : Type) : Type := World os -> (A * list call) * World os.

Definition ret {A} (a : A) : M A := fun w => ((a, []), w).

Definition bind {A B} (m : M A) (k : A -> M B) : M B :=
  fun w =>
    let '((a, t1), w1) := m w in
    let '((b, t2), w2) := k a w1 in
    ((b, t1 ++ t2), w2).

Notation "x <- m ;; k" := (bind m (fun x => k))
  (at level 61, m at next level, right associativity).
Notation "m ;;; k" := (bind m (fun _ => k))
  (at level 61, right associativity).

(** A call that returns a value, and one that does not. *)
Definition call1 {A} (op : World os -> A * World os) (c : A -> call) : M A :=
  fun w => let '(a, w1) := op w in ((a, [c a]), w1).

Definition call0 (op : World os -> World os) (c : call) : M unit :=
  fun w => ((tt, [c]), op w).

(** [defer cleanup] around the rest of a function body. *)
Definition defer {A} (cleanup : M unit) (body : M A) : M A :=
  r <- body ;; cleanup ;;; ret r.

Definition MkdirTemp (dir pattern : string) : M (string + error) :=
  call1 (os_MkdirTemp os dir pattern) (CMkdirTemp dir pattern).
Definition RemoveAll (path : string) : M unit :=
  call0 (os_RemoveAll os path) (CRemoveAll path).
Definition Run (cmd : Cmd) : M (goerr * string) :=
  fun w => let '((err, stderr), w1) := cmd_Run os cmd w in
           (((err, stderr), [CRun cmd err]), w1).
Definition Lstat (root : string) : M WalkRoot :=
  fun w => ((os_Lstat os root w, [CWalkDir root (os_Lstat os root w)]), w).
Definition Open (path : string) : M (File + error) :=
  call1 (os_Open os path) (COpen path).
Definition Create (path : string) : M (File + error) :=
  call1 (os_Create os path) (CCreate path).
Definition Close (f : File) : M unit :=
  call0 (file_Close os f) (CClose f).
Definition Copy (f : File) : M (list byte + error) :=
  call1 (io_Copy os f) (CCopy f).
Definition Text : M string := call1 (rand_Text os) CRandText.
Definition Now : M Z := call1 (time_Now os) CNow.
(** [slog.Info] *)
Definition Info (msg : string) (attrs : list (string * attr)) : M unit :=
  fun w => ((tt, [CLog msg attrs]), w).

(** *** Package [stopwatch] *)

(** [startTime] is a [time.Time]: [None] is the zero value [time.Time{}],
    [Some t] a time taken with [time.Now] at clock reading [t]. *)
Record Stopwatch : Type := mkStopwatch { startTime : option Z }.

Definition Stopwatch_zero : Stopwatch := mkStopwatch None.

Definition Stopwatch_Start (sw : Stopwatch) : M Stopwatch :=
  t <- Now ;; ret (mkStopwatch (Some t)).

Definition Stopwatch_Reset (sw : Stopwatch) : M Stopwatch :=
  ret (mkStopwatch None).

(** [time.Since]: the difference of the clock readings, saturated; the
    zero time lies more than [math.MaxInt64] nanoseconds back. *)
Definition Stopwatch_Elapsed (sw : Stopwatch) : M Z :=
  now <- Now ;;
  ret (match startTime sw with
       | Some t => Int64.saturate (now - t)
       | None => Int64.max_int
       end).

(** *** [filesAreEqual] *)
Definition filesAreEqual (path1 path2 : string) : M (bool * goerr) :=
  r1 <- Open path1 ;;
  match r1 with
  | inr err => ret (false, Some err)
  | inl f1 =>
      defer (Close f1)
        (r2 <- Open path2 ;;
         match r2 with
         | inr err => ret (false, Some err)
         | inl f2 =>
             defer (Close f2)
               (c1 <- Copy f1 ;;
                match c1 with
                | inr err => ret (false, Some err)
                | inl b1 =>
                    c2 <- Copy f2 ;;
                    match c2 with
                    | inr err => ret (false, Some err)
                    | inl b2 => ret (bytes_Equal b1 b2, None)
                    end
                end)
         end)
  end.

(** *** [verify]: the body of the run loop *)
Definition caseLog (msg base : string) (elapsed : Z) : M unit :=
  Info msg [("testcase", AString base); ("time", ADuration elapsed)].

Definition runCase (tmpDir binaryFilepath inFilepath : string) : M caseOutcome :=
  let base := strings_TrimSuffix inFilepath ".in" in
  let outFilepath := (base ++ ".out")%string in
  r <- Open inFilepath ;;
  match r with
  | inr err => ret (InfraErr (ErrWrap "failed to read .in file: " err ""))
  | inl inFile =>
      text <- Text ;;
      let answerFilepath := filepath_Join tmpDir ("answer" ++ text)%string in
      r <- Create answerFilepath ;;
      match r with
      | inr err => ret (InfraErr (ErrWrap "failed to create answer file: " err ""))
      | inl answerFile =>
          let runCmd := caseRun binaryFilepath inFile answerFile in
          stopwatch <- Stopwatch_Start Stopwatch_zero ;;
          res <- Run runCmd ;;
          elapsed <- Stopwatch_Elapsed stopwatch ;;
          match fst res with
          | Some _ =>
              caseLog "RE" base elapsed ;;;
              ret (Recorded (newRunResult base runtimeError elapsed))
          | None =>
              Close inFile ;;;
              Close answerFile ;;;
              cmp <- filesAreEqual answerFilepath outFilepath ;;
              match snd cmp with
              | Some err => ret (InfraErr (ErrWrap "failed to compare files: " err ""))
              | None =>
                  if fst cmp
                  then caseLog "AC" base elapsed ;;;
                       ret (Recorded (newRunResult base accepted elapsed))
                  else caseLog "WA" base elapsed ;;;
                       ret (Recorded (newRunResult base wrongAnswer elapsed))
              end
          end
      end
  end.

(** *** [verify]: the run loop, with [multiErr] and [runResults] *)
Fixpoint runLoop (tmpDir binaryFilepath : string) (inFilepaths : list string)
    (multiErr : goerr) (results : list runResult) : M (goerr * list runResult) :=
  match inFilepaths with
  | [] => ret (multiErr, results)
  | inFilepath :: rest =>
      o <- runCase tmpDir binaryFilepath inFilepath ;;
      match o with
      | InfraErr e =>
          runLoop tmpDir binaryFilepath rest (errors_Join multiErr (Some e)) results
      | Recorded r =>
          runLoop tmpDir binaryFilepath rest multiErr (results ++ [r])
      end
  end.

(** What each iteration of the run loop ends with, one after the other. *)
Fixpoint eachCase (tmpDir binaryFilepath : string) (inFilepaths : list string)
    : M (list caseOutcome) :=
  match inFilepaths with
  | [] => ret []
  | inFilepath :: rest =>
      o <- runCase tmpDir binaryFilepath inFilepath ;;
      outs <- eachCase tmpDir binaryFilepath rest ;;
      ret (o :: outs)
  end.

(** The summary record written at the end of [verify]. *)
Definition summaryAttrs (s : Summary) : list (string * attr) :=
  [("slowest time", ADuration (slowestTime s));
   ("slowest case", AString (slowestTestcaseName s));
   ("AC count", AInt (acCount s));
   ("WA count", AInt (waCount s));
   ("TLE count", AInt (tleCount s));
   ("RE count", AInt (reCount s))].

(** *** [verify] after the temporary directory is made *)
Definition verifyIn (tmpDir cacheDir buildFilename : string) : M Outcome :=
  let binaryFilepath := filepath_Join tmpDir "main" in
  let buildCmd := goBuild binaryFilepath buildFilename in
  res <- Run buildCmd ;;
  match fst res with
  | Some err =>
      ret (mkOutcome
             (Some (ErrWrap "failed to build go file: " err (String "010" (snd res))))
             [])
  | None =>
      found <- Lstat cacheDir ;;
      let walked := filepath_WalkDir walkFn cacheDir found [] in
      match fst walked with
      | Some err => ret (mkOutcome (Some (ErrWrap "failed to walk dir: " err "")) [])
      | None =>
          let inFilepaths := slices_Sort (snd walked) in
          looped <- runLoop tmpDir binaryFilepath inFilepaths None [] ;;
          match fst looped with
          | Some multiErr =>
              ret (mkOutcome (Some (ErrWrap "failed to run case: " multiErr ""))
                             (snd looped))
          | None =>
              Info "summary" (summaryAttrs (summarize (snd looped))) ;;;
              ret (mkOutcome None (snd looped))
          end
      end
  end.

(** *** [verify] *)
Definition verifyRun (cacheDir buildFilename : string) : M Outcome :=
  r <- MkdirTemp ".aoj-verify" "tmp" ;;
  match r with
  | inr err =>
      ret (mkOutcome (Some (ErrWrap "failed to temporally directory: " err "")) [])
  | inl tmpDir =>
      defer (RemoveAll tmpDir) (verifyIn tmpDir cacheDir buildFilename)
  end.

(** The error [verify] returns, the calls it made, and the world after. *)
Definition verify (cacheDir buildFilename : string) (w : World os) : goerr :=
  returned (fst (fst (verifyRun cacheDir buildFilename w))).

Definition callsOf {A} (m : M A) (w : World os) : list call := snd (fst (m w)).
Definition valueOf {A} (m : M A) (w : World os) : A := fst (fst (m w)).
Definition worldAfter {A} (m : M A) (w : World os) : World os := snd (m w).

End Engine.

Arguments ret {os A} a.
Arguments bind {os A B} m k.
Arguments callsOf {os A} m w.
Arguments valueOf {os A} m w.
Arguments worldAfter {os A} m w.

(** The iterations of the run loop over [inFilepaths], one by one: each
    input file in turn is given to [runCase], in the world the iteration
    before it left.  For every input file, what its iteration ended with
    and the calls it made. *)
Fixpoint iterations (os : OS) (tmpDir binaryFilepath : string)
    (inFilepaths : list string) (w : World os) : list (caseOutcome * list call) :=
  match inFilepaths with
  | [] => []
  | inFilepath :: rest =>
      let m := runCase os tmpDir binaryFilepath inFilepath in
      (valueOf m w, callsOf m w)
      :: iterations os tmpDir binaryFilepath rest (worldAfter m w)
  end.

(** Every way [verify] can go: what it returns, the results it holds and
    the calls it makes.  [w] is the world the run loop starts in. *)
Inductive VerifyShape (os : OS) (cacheDir buildFilename : string)
    : Outcome -> list call -> Prop :=
| NoTmpDir err :
    VerifyShape os cacheDir buildFilename
      (mkOutcome (Some (ErrWrap "failed to temporally directory: " err "")) [])
      [CMkdirTemp ".aoj-verify" "tmp" (inr err)]
| BuildFailed tmpDir err stderr :
    VerifyShape os cacheDir buildFilename
      (mkOutcome
         (Some (ErrWrap "failed to build go file: " err (String "010" stderr))) [])
      [CMkdirTemp ".aoj-verify" "tmp" (inl tmpDir);
       CRun (goBuild (filepath_Join tmpDir "main") buildFilename) (Some err);
       CRemoveAll tmpDir]
| DiscoveryFailed tmpDir found err :
    walkable found = false ->
    VerifyShape os cacheDir buildFilename
      (mkOutcome (Some (ErrWrap "failed to walk dir: " err "")) [])
      [CMkdirTemp ".aoj-verify" "tmp" (inl tmpDir);
       CRun (goBuild (filepath_Join tmpDir "main") buildFilename) None;
       CWalkDir cacheDir found;
       CRemoveAll tmpDir]
| CasesFailed tmpDir found (w : World os) multiErr :
    let each := eachCase os tmpDir (filepath_Join tmpDir "main")
                         (slices_Sort (inputsOf found)) in
    walkable found = true ->
    errorsOf (valueOf each w) <> [] ->
    joined multiErr = errorsOf (valueOf each w) ->
    VerifyShape os cacheDir buildFilename
      (mkOutcome (Some (ErrWrap "failed to run case: " multiErr ""))
                 (recordedOf (valueOf each w)))
      (CMkdirTemp ".aoj-verify" "tmp" (inl tmpDir) ::
       CRun (goBuild (filepath_Join tmpDir "main") buildFilename) None ::
       CWalkDir cacheDir found ::
       callsOf each w ++ [CRemoveAll tmpDir])
| Summarized tmpDir found (w : World os) :
    let each := eachCase os tmpDir (filepath_Join tmpDir "main")
                         (slices_Sort (inputsOf found)) in
    walkable found = true ->
    errorsOf (valueOf each w) = [] ->
    VerifyShape os cacheDir buildFilename
      (mkOutcome None (recordedOf (valueOf each w)))
      (CMkdirTemp ".aoj-verify" "tmp" (inl tmpDir) ::
       CRun (goBuild (filepath_Join tmpDir "main") buildFilename) None ::
       CWalkDir cacheDir found ::
       callsOf each w ++
       [CLog "summary" (summaryAttrs (summarize (recordedOf (valueOf each w))));
        CRemoveAll tmpDir]).

(* ================================================================== *)
(** ** A small simulated machine

    A concrete [OS] to run the engine on: files with their contents, the
    directories that exist, a toolchain that succeeds or not, and a solution
    given as a function from its input to its output (or to a failure) and
    its running time. *)
Module Sim.

Record world : Type := mkWorld {
  dirs : list string;
  files : list (string * list byte);
  opened : list string;
  found : WalkRoot;
  toolchainOk : bool;
  diagnostics : string;
  program : list byte -> option (list byte) * Z;
  createOk : bool;
  clock : Z;
  texts : nat
}.

Definition hasDir (d : string) (w : world) : bool :=
  existsb (String.eqb d) (dirs w).

Fixpoint lookup (p : string) (fs : list (string * list byte)) : option (list byte) :=
  match fs with
  | [] => None
  | (q, c) :: fs' => if String.eqb p q then Some c else lookup p fs'
  end.

Definition store (p : string) (c : list byte) (fs : list (string * list byte)) :=
  (p, c) :: filter (fun qc => negb (String.eqb p (fst qc))) fs.

Definition setDirs ds w :=
  mkWorld ds (files w) (opened w) (found w) (toolchainOk w) (diagnostics w)
          (program w) (createOk w) (clock w) (texts w).
Definition setFiles fs w :=
  mkWorld (dirs w) fs (opened w) (found w) (toolchainOk w) (diagnostics w)
          (program w) (createOk w) (clock w) (texts w).
Definition setOpened o w :=
  mkWorld (dirs w) (files w) o (found w) (toolchainOk w) (diagnostics w)
          (program w) (createOk w) (clock w) (texts w).
Definition setClock c w :=
  mkWorld (dirs w) (files w) (opened w) (found w) (toolchainOk w) (diagnostics w)
          (program w) (createOk w) c (texts w).
Definition setTexts n w :=
  mkWorld (dirs w) (files w) (opened w) (found w) (toolchainOk w) (diagnostics w)
          (program w) (createOk w) (clock w) n.

Definition noEnt (op path : string) : error :=
  ErrNew (op ++ " " ++ path ++ ": no such file or directory")%string.

Definition mkdirTemp (dir pattern : string) (w : world) : (string + error) * world :=
  if hasDir dir w
  then let d := filepath_Join dir (pattern ++ "0")%string in
       (inl d, setDirs (dirs w ++ [d]) w)
  else (inr (noEnt "mkdir" (filepath_Join dir (pattern ++ "0")%string)), w).

Definition removeAll (path : string) (w : world) : world :=
  setDirs (filter (fun d => negb (String.eqb path d)) (dirs w)) w.

Definition open (path : string) (w : world) : (File + error) * world :=
  match lookup path (files w) with
  | Some _ => (inl (List.length (opened w)), setOpened (opened w ++ [path]) w)
  | None => (inr (noEnt "open" path), w)
  end.

Definition create (path : string) (w : world) : (File + error) * world :=
  if createOk w
  then (inl (List.length (opened w)),
        setOpened (opened w ++ [path]) (setFiles (store path [] (files w)) w))
  else (inr (ErrNew ("open " ++ path ++ ": permission denied")%string), w).

Definition contents (f : File) (w : world) : option (list byte) :=
  match nth_error (opened w) f with
  | Some p => lookup p (files w)
  | None => None
  end.

Definition copy (f : File) (w : world) : (list byte + error) * world :=
  match contents f w with
  | Some c => (inl c, w)
  | None => (inr (ErrNew "read: bad file descriptor"), w)
  end.

Definition exitStatus1 : error := ErrNew "exit status 1".

Definition run (cmd : Cmd) (w : world) : (goerr * string) * world :=
  if String.eqb (Name cmd) "go"
  then if toolchainOk w then ((None, ""), w)
       else ((Some exitStatus1, diagnostics w), w)
  else
    let input := match Stdin cmd with
                 | Some f => match contents f w with Some c => c | None => [] end
                 | None => []
                 end in
    let '(out, took) := program w input in
    let w1 := setClock (clock w + took) w in
    match out with
    | None => ((Some exitStatus1, ""), w1)
    | Some c =>
        match Stdout cmd with
        | Some f =>
            match nth_error (opened w) f with
            | Some p => ((None, ""), setFiles (store p c (files w1)) w1)
            | None => ((None, ""), w1)
            end
        | None => ((None, ""), w1)
        end
    end.

Fixpoint letters (n : nat) : string :=
  match n with O => "" | S n' => String "A" (letters n') end.

Definition text (w : world) : string * world :=
  (letters (S (texts w)), setTexts (S (texts w)) w).

Definition now (w : world) : Z * world := (clock w, w).

Definition os : OS :=
  mkOS world hasDir mkdirTemp removeAll run (fun _ w => found w)
       open create (fun _ w => w) copy text now.

(** The solution used below: it copies its input to its output and takes
    a millisecond per byte, and it fails on an empty input. *)
Definition echo (input : list byte) : option (list byte) * Z :=
  match input with
  | [] => (None, 500)
  | _ => (Some input, 1000000 * Z.of_nat (List.length input))
  end.

Definition bytes (s : string) : list byte := list_byte_of_string s.

(** Three cases: the first is answered right, the second wrong, the third
    makes the solution fail. *)
Definition threeCases : world :=
  mkWorld [".aoj-verify"; "cache"]
          [("cache/case1.in", bytes "12"); ("cache/case1.out", bytes "12");
           ("cache/case2.in", bytes "345"); ("cache/case2.out", bytes "346");
           ("cache/case3.in", bytes ""); ("cache/case3.out", bytes "")]
          []
          (Root (Dir "cache" None
                     [NonDir "cache/case3.out"; NonDir "cache/case3.in";
                      NonDir "cache/case1.in"; NonDir "cache/case1.out";
                      NonDir "cache/case2.out"; NonDir "cache/case2.in"]))
          true "" echo true 0 0.

(** The same machine with a solution that does not compile. *)
Definition brokenBuild : world :=
  mkWorld (dirs threeCases) (files threeCases) [] (found threeCases)
          false "./main.go:3:1: syntax error" echo true 0 0.

(** The same machine without the [.aoj-verify] directory. *)
Definition noParent : world :=
  mkWorld ["cache"] (files threeCases) [] (found threeCases)
          true "" echo true 0 0.

(** The same machine with the expected output of the second case missing. *)
Definition missingOut : world :=
  mkWorld (dirs threeCases)
          [("cache/case1.in", bytes "12"); ("cache/case1.out", bytes "12");
           ("cache/case2.in", bytes "345");
           ("cache/case3.in", bytes ""); ("cache/case3.out", bytes "")]
          [] (found threeCases) true "" echo true 0 0.

(** A machine on which the expected outputs of the second and of the third
    case are missing. *)
Definition twoMissingOut : world :=
  mkWorld (dirs threeCases)
          [("cache/case1.in", bytes "12"); ("cache/case1.out", bytes "12");
           ("cache/case2.in", bytes "345");
           ("cache/case3.in", bytes "7")]
          []
          (Root (Dir "cache" None
                     [NonDir "cache/case3.in"; NonDir "cache/case1.in";
                      NonDir "cache/case1.out"; NonDir "cache/case2.in"]))
          true "" echo true 0 0.

(** An empty cache directory. *)
Definition emptyCache : world :=
  mkWorld [".aoj-verify"; "cache"] [] [] (Root (Dir "cache" None []))
          true "" echo true 0 0.

End Sim.

(* ================================================================== *)
(** ** Further views of the calls *)

(** The files a list of calls opened or created, and the files it closed,
    in the order of the calls. *)
Fixpoint opened (calls : list call) : list File :=
  match calls with
  | [] => []
  | COpen _ (inl f) :: rest => f :: opened rest
  | CCreate _ (inl f) :: rest => f :: opened rest
  | _ :: rest => opened rest
  end.

Fixpoint closed (calls : list call) : list File :=
  match calls with
  | [] => []
  | CClose f :: rest => f :: closed rest
  | _ :: rest => closed rest
  end.

(** The call removes a directory tree. *)
Definition isRemoveAll (c : call) : bool :=
  match c with CRemoveAll _ => true | _ => false end.

(** The call is the record of a test case. *)
Definition isCaseRecord (c : call) : bool :=
  match c with
  | CLog msg _ => String.eqb msg "AC" || String.eqb msg "WA" || String.eqb msg "RE"
  | _ => false
  end.

(** The message a verdict of the run loop is logged under. *)
Definition messageOf (st : runStatus) : string :=
  match st with
  | accepted => "AC"
  | wrongAnswer => "WA"
  | _ => "RE"
  end.

(** The record a result is logged with. *)
Definition recordOf (r : runResult) : call :=
  caseRecord (messageOf (status r)) (testcaseName r) (execTime r).

(** The error of the first directory, in the order of the walk, that
    cannot be read. *)
Fixpoint firstReadErr (d : DirEntry) : goerr :=
  match d with
  | NonDir _ => None
  | Dir _ (Some e) _ => Some e
  | Dir _ None entries =>
      (fix first (ds : list DirEntry) : goerr :=
         match ds with
         | [] => None
         | d1 :: ds' =>
             match firstReadErr d1 with
             | Some e => Some e
             | None => first ds'
             end
         end) entries
  end.

(** The error the walk from a root stops at. *)
Definition firstWalkErr (r : WalkRoot) : goerr :=
  match r with
  | RootErr e => Some e
  | Root d => firstReadErr d
  end.

(** The greatest of zero and the durations of a list of results. *)
Definition longest (rs : list runResult) : Z :=
  fold_right (fun r m => Z.max (execTime r) m) 0 rs.

(* ================================================================== *)
(** ** The annotation of a solution *)

(** [strings.HasPrefix]:
    [len(s) >= len(prefix) && s[:len(prefix)] == prefix]. *)
Definition strings_HasPrefix (s prefix : string) : bool :=
  (String.length prefix <=? String.length s)%nat &&
  String.eqb (substring 0 (String.length prefix) s) prefix.

(** [s[n:]] for [n <= len(s)]. *)
Definition sliceFrom (n : nat) (s : string) : string :=
  substring n (String.length s - n) s.

(** [strings.Lines]: the lines of [s], each with its terminating newline;
    the last one has none when [s] does not end in a newline, and an empty
    string has no line. *)
Fixpoint strings_Lines (s : string) : list string :=
  match s with
  | EmptyString => []
  | String c rest =>
      if Ascii.eqb c "010" then String c "" :: strings_Lines rest
      else match strings_Lines rest with
           | [] => [String c ""]
           | line :: lines => String c line :: lines
           end
  end.

Record Annotation : Type := mkAnnotation { ProblemURL : string }.

(** The prefix [isAnnotationComment] looks for, and the literal part of the
    regular expression of [readAnnotationComment]. *)
Definition annotationPrefix : string := "// verification-helper: ".
Definition problemLiteral : string := "// verification-helper: PROBLEM ".

Definition isAnnotationComment (line : string) : bool :=
  strings_HasPrefix line annotationPrefix.

(** What [.*] matches at the start of [s]: everything up to the first
    newline, which [.] does not match. *)
Fixpoint untilNewline (s : string) : string :=
  match s with
  | EmptyString => EmptyString
  | String c rest => if Ascii.eqb c "010" then EmptyString else String c (untilNewline rest)
  end.

(** [FindStringSubmatch] of the regular expression of
    [readAnnotationComment], the literal [problemLiteral] followed by one
    group of any characters: the leftmost place where the literal stands,
    then the whole match and the group; [None] is the nil slice. *)
Fixpoint annotationRegexp_FindStringSubmatch (s : string) : option (list string) :=
  if strings_HasPrefix s problemLiteral
  then let group := untilNewline (sliceFrom (String.length problemLiteral) s) in
       Some [(problemLiteral ++ group)%string; group]
  else match s with
       | EmptyString => None
       | String _ rest => annotationRegexp_FindStringSubmatch rest
       end.

(** The text of the two errors of [readAnnotationComment]; the expression
    stands between double quotes. *)
Definition notMatchMessage (comment : string) : string :=
  ("annotation comment is not match " ++ String "034" "// verification-helper: PROBLEM (.*)"
   ++ String "034" " comment: " ++ comment)%string.

Definition readAnnotationComment (comment : string) : Annotation + error :=
  match annotationRegexp_FindStringSubmatch comment with
  | None => inr (ErrNew (notMatchMessage comment))
  | Some matches =>
      if negb (List.length matches =? 2)%nat
      then inr (ErrNew (notMatchMessage comment))
      else inl (mkAnnotation (nth 1 matches ""))
  end.

(** The loop of [readAnnotationInFile] over the lines of the file. *)
Fixpoint firstAnnotation (filename : string) (lines : list string) : Annotation + error :=
  match lines with
  | [] => inr (ErrNew ("annotation comment is not found. filename: " ++ filename)%string)
  | line :: rest =>
      if negb (isAnnotationComment line) then firstAnnotation filename rest
      else match readAnnotationComment line with
           | inr err => inr (ErrWrap "failed to read annotation comment: " err "")
           | inl a => inl a
           end
  end.

(** [readAnnotationInFile], from what [os.ReadFile] returned. *)
Definition readAnnotationInFile (filename : string) (read : string + error)
    : Annotation + error :=
  match read with
  | inr err => inr (ErrWrap "failed to read file: " err "")
  | inl bodyStr => firstAnnotation filename (strings_Lines bodyStr)
  end.

(* ================================================================== *)
(** ** The problem of a URL *)

(** [url.Values], by what a key is mapped to (nil when it is missing), and
    its [Get]: the first value of the key, or the empty string. *)
Definition Values : Type := string -> list string.

Definition Values_Get (v : Values) (key : string) : string :=
  match v key with
  | [] => ""
  | first :: _ => first
  end.

(** The parts of a parsed URL [extractProblemID] reads: [u.Host], [u.Path]
    and [u.Query()]. *)
Record URL : Type := mkURL {
  Host : string;
  Path : string;
  Query : Values
}.

(** [strings.Split(s, "/")]: the pieces of [s] between the slashes, one
    more than there are slashes. *)
Fixpoint splitSlash (s : string) : list string :=
  match s with
  | EmptyString => [EmptyString]
  | String c rest =>
      match splitSlash rest with
      | [] => []
      | piece :: pieces =>
          if Ascii.eqb c "/" then EmptyString :: piece :: pieces
          else String c piece :: pieces
      end
  end.

(** [extractProblemID], over [url.Parse].  [None] is the run-time panic of
    an index out of range in [segments[len(segments)-1]]. *)
Definition extractProblemID (url_Parse : string -> URL + error) (problemURL : string)
    : option (string + error) :=
  match url_Parse problemURL with
  | inr err => Some (inr (ErrWrap "failed to parse problemURL: " err ""))
  | inl u =>
      if String.eqb (Host u) "judge.u-aizu.ac.jp"
      then Some (inl (Values_Get (Query u) "id"))
      else if String.eqb (Host u) "onlinejudge.u-aizu.ac.jp"
      then let segments := splitSlash (Path u) in
           match nth_error segments (List.length segments - 1) with
           | Some id => Some (inl id)
           | None => None
           end
      else Some (inr (ErrNew ("unsupported url. url: " ++ problemURL)%string))
  end.

(** The string has no slash, no newline. *)
Fixpoint hasByte (c : ascii) (s : string) : bool :=
  match s with
  | EmptyString => false
  | String x rest => Ascii.eqb x c || hasByte c rest
  end.

(* ================================================================== *)
(** ** The download of the test cases and [main] *)

(** The body of an HTTP response. *)
Definition Body := nat.

(** The struct [testcase]. *)
Record testcase : Type := mkTestcase {
  testcase_ProblemID : string;
  testcase_Serial : Z;
  testcase_In : string;
  testcase_Out : string
}.

(** The struct [header]. *)
Record header : Type := mkHeader {
  header_Serial : Z;
  header_Name : string;
  header_InputSize : Z;
  header_OutputSize : Z;
  header_Score : Z
}.

(** The struct [testcasesHeaderResponse]; [Headers] is a slice of pointers,
    [None] is a nil pointer. *)
Record testcasesHeaderResponse : Type := mkHeaderResponse {
  response_ProblemID : string;
  Headers : list (option header)
}.

(** The calls of [main] besides those of the engine, over the world of an
    [OS].  [io_CopyString] is [io.Copy] of a string into a file;
    [json_Unmarshal_header] fills a pointer that is already set, which a
    JSON null resets to nil ([None]); [md5_hex] is the MD5 sum of a string
    in hexadecimal. *)
Record Net (os : OS) : Type := mkNet {
  os_ReadFile : string -> World os -> (string + error) * World os;
  url_Parse : string -> URL + error;
  http_Get : string -> World os -> (Body + error) * World os;
  io_ReadAll : Body -> World os -> (list byte + error) * World os;
  body_Close : Body -> World os -> World os;
  json_Unmarshal_testcase : list byte -> testcase + error;
  json_Unmarshal_header : list byte -> option testcasesHeaderResponse + error;
  os_Stat : string -> World os -> goerr * World os;
  os_MkdirAll : string -> World os -> goerr * World os;
  io_CopyString : File -> string -> World os -> goerr * World os;
  time_Sleep : Z -> World os -> World os;
  md5_hex : string -> string
}.

Arguments os_ReadFile {os} n path w.
Arguments url_Parse {os} n rawURL.
Arguments http_Get {os} n url w.
Arguments io_ReadAll {os} n b w.
Arguments body_Close {os} n b w.
Arguments json_Unmarshal_testcase {os} n data.
Arguments json_Unmarshal_header {os} n data.
Arguments os_Stat {os} n path w.
Arguments os_MkdirAll {os} n path w.
Arguments io_CopyString {os} n f data w.
Arguments time_Sleep {os} n d w.
Arguments md5_hex {os} n s.

(** A call of [main], with what it returned; [NEngine] is a call of the
    engine. *)
Inductive ncall : Type :=
| NEngine (c : call)
| NReadFile (path : string) (res : string + error)
| NGet (url : string) (res : Body + error)
| NReadAll (b : Body) (res : list byte + error)
| NBodyClose (b : Body)
| NStat (path : string) (err : goerr)
| NMkdirAll (path : string) (err : goerr)
| NCopyString (f : File) (data : string) (err : goerr)
| NSleep (d : Z).

(** How the download loop ends: with [multiErr], or in the run-time panic
    of a nil pointer. *)
Inductive loopEnd : Type :=
| LoopDone (multiErr : goerr)
| LoopPanic.

(** How [main] ends: it returns, [log.Fatal] ends the process with an
    error, or a run-time panic does. *)
Inductive exit : Type :=
| Returned
| Fatal (e : error)
| Panicked.

(** [%d] *)
Definition itoa (n : Z) : string := NilZero.string_of_int (Z.to_int n).

(** [3 * time.Second] *)
Definition threeSeconds : Z := 3 * 1000000000.

Section Download.
Variable os : OS.
Variable net : Net os.

(** Computations of [main]: like [M], over the calls of [main]. *)
Definition Main (A : Type) : Type := World os -> (A * list ncall) * World os.

Definition retN {A} (a : A) : Main A := fun w => ((a, []), w).

Definition bindN {A B} (m : Main A) (k : A -> Main B) : Main B :=
  fun w =>
    let '((a, t1), w1) := m w in
    let '((b, t2), w2) := k a w1 in
    ((b, t1 ++ t2), w2).

Notation "x <- m ;; k" := (bindN m (fun x => k))
  (at level 61, m at next level, right associativity).
Notation "m ;;; k" := (bindN m (fun _ => k))
  (at level 61, right associativity).

(** A computation of the engine inside [main]. *)
Definition lift {A} (m : M os A) : Main A :=
  fun w => let '((a, t), w1) := m w in ((a, map NEngine t), w1).

Definition callN {A} (op : World os -> A * World os) (c : A -> ncall) : Main A :=
  fun w => let '(a, w1) := op w in ((a, [c a]), w1).

Definition callN0 (op : World os -> World os) (c : ncall) : Main unit :=
  fun w => ((tt, [c]), op w).

Definition deferN {A} (cleanup : Main unit) (body : Main A) : Main A :=
  r <- body ;; cleanup ;;; retN r.

Definition ReadFile (path : string) : Main (string + error) :=
  callN (os_ReadFile net path) (NReadFile path).
Definition Get (url : string) : Main (Body + error) :=
  callN (http_Get net url) (NGet url).
Definition ReadAll (b : Body) : Main (list byte + error) :=
  callN (io_ReadAll net b) (NReadAll b).
Definition BodyClose (b : Body) : Main unit :=
  callN0 (body_Close net b) (NBodyClose b).
Definition Stat (path : string) : Main goerr :=
  callN (os_Stat net path) (NStat path).
Definition MkdirAll (path : string) : Main goerr :=
  callN (os_MkdirAll net path) (NMkdirAll path).
Definition CopyString (f : File) (data : string) : Main goerr :=
  callN (io_CopyString net f data) (NCopyString f data).
Definition Sleep (d : Z) : Main unit :=
  callN0 (time_Sleep net d) (NSleep d).

(** [filepath.Join(".aoj-verify", "cache", md5URLStr, "test")] *)
Definition constructCacheDirPath (problemURL : string) : string :=
  filepath_Join_elems [".aoj-verify"; "cache"; md5_hex net problemURL; "test"].

Definition existsFileOrDir (path : string) : Main bool :=
  err <- Stat path ;;
  retN (match err with None => true | Some _ => false end).

Definition isTestcaseCached (dir testcaseName : string) : Main bool :=
  existsFileOrDir (filepath_Join dir (testcaseName ++ ".in")%string).

Definition fetchTestcaseAndSaveToFile (apiURL dir filename : string) : Main goerr :=
  r <- Get apiURL ;;
  match r with
  | inr err => retN (Some (ErrWrap "failed to fetch testcases: " err ""))
  | inl resp =>
      deferN (BodyClose resp)
        (b <- ReadAll resp ;;
         match b with
         | inr err => retN (Some (ErrWrap "failed to read response body: " err ""))
         | inl body =>
             match json_Unmarshal_testcase net body with
             | inr err => retN (Some (ErrWrap "failed to unmarshal body: " err ""))
             | inl tc =>
                 there <- existsFileOrDir dir ;;
                 made <- (if negb there then MkdirAll dir else retN None) ;;
                 match made with
                 | Some err => retN (Some (ErrWrap "failed to mkdir: " err ""))
                 | None =>
                     let inPath := filepath_Join dir (filename ++ ".in")%string in
                     r <- lift (Create os inPath) ;;
                     match r with
                     | inr err => retN (Some (ErrWrap "failed to create .in case: " err ""))
                     | inl inFile =>
                         deferN (lift (Close os inFile))
                           (CopyString inFile (testcase_In tc) ;;;
                            let outPath := filepath_Join dir (filename ++ ".out")%string in
                            r <- lift (Create os outPath) ;;
                            match r with
                            | inr err =>
                                retN (Some (ErrWrap "failed to create .out case: " err ""))
                            | inl outFile =>
                                deferN (lift (Close os outFile))
                                  (CopyString outFile (testcase_Out tc) ;;;
                                   lift (Info os "download and saved"
                                           [("in", AString inPath);
                                            ("out", AString outPath)]) ;;;
                                   retN None)
                            end)
                     end
                 end
             end
         end)
  end.

Definition fetchProblemTestcasesHeader (problemID : string)
    : Main (option testcasesHeaderResponse + error) :=
  let apiURL :=
    ("https://judgedat.u-aizu.ac.jp/testcases/" ++ problemID ++ "/header")%string in
  r <- Get apiURL ;;
  match r with
  | inr err => retN (inr err)
  | inl resp =>
      deferN (BodyClose resp)
        (b <- ReadAll resp ;;
         match b with
         | inr err => retN (inr err)
         | inl body => retN (json_Unmarshal_header net body)
         end)
  end.

(** The URL of a test case:
    [https://judgedat.u-aizu.ac.jp/testcases/%s/%d]. *)
Definition testcaseURL (problemID : string) (serial : Z) : string :=
  ("https://judgedat.u-aizu.ac.jp/testcases/" ++ problemID ++ "/" ++ itoa serial)%string.

(** One iteration of the download loop of [main], for a header that is not
    nil: the error to join, if any. *)
Definition downloadOne (problemID cacheDir : string) (h : header) : Main goerr :=
  let apiURL := testcaseURL problemID (header_Serial h) in
  cached <- isTestcaseCached cacheDir (header_Name h) ;;
  if cached then retN None
  else err <- fetchTestcaseAndSaveToFile apiURL cacheDir (header_Name h) ;;
       Sleep threeSeconds ;;;
       retN err.

(** The download loop of [main]. *)
Fixpoint downloadEach (problemID cacheDir : string) (headers : list (option header))
    (multiErr : goerr) : Main loopEnd :=
  match headers with
  | [] => retN (LoopDone multiErr)
  | None :: _ => retN LoopPanic
  | Some h :: rest =>
      err <- downloadOne problemID cacheDir h ;;
      match err with
      | Some e => downloadEach problemID cacheDir rest (errors_Join multiErr (Some e))
      | None => downloadEach problemID cacheDir rest multiErr
      end
  end.

(** [main], over [os.Args]. *)
Definition main (args : list string) : Main exit :=
  match nth_error args 1 with
  | None => retN Panicked
  | Some filename =>
      read <- ReadFile filename ;;
      match readAnnotationInFile filename read with
      | inr err => retN (Fatal err)
      | inl annotation =>
          match extractProblemID (url_Parse net) (ProblemURL annotation) with
          | None => retN Panicked
          | Some (inr err) => retN (Fatal err)
          | Some (inl problemID) =>
              fetched <- fetchProblemTestcasesHeader problemID ;;
              match fetched with
              | inr err => retN (Fatal err)
              | inl None => retN Panicked
              | inl (Some response) =>
                  let cacheDir := constructCacheDirPath (ProblemURL annotation) in
                  ended <- downloadEach problemID cacheDir (Headers response) None ;;
                  match ended with
                  | LoopPanic => retN Panicked
                  | LoopDone (Some multiErr) => retN (Fatal multiErr)
                  | LoopDone None =>
                      out <- lift (verifyRun os cacheDir filename) ;;
                      match returned out with
                      | Some err => retN (Fatal err)
                      | None => retN Returned
                      end
                  end
              end
          end
      end
  end.

Definition callsN {A} (m : Main A) (w : World os) : list ncall := snd (fst (m w)).
Definition valueN {A} (m : Main A) (w : World os) : A := fst (fst (m w)).
Definition afterN {A} (m : Main A) (w : World os) : World os := snd (m w).

End Download.

Arguments retN {os A} a.
Arguments bindN {os A B} m k.
Arguments lift {os A} m.
Arguments callsN {os A} m w.
Arguments valueN {os A} m w.
Arguments afterN {os A} m w.

(** *** Views of the calls of [main] *)

(** The calls of the engine among the calls of [main]. *)
Fixpoint engineCalls (calls : list ncall) : list call :=
  match calls with
  | [] => []
  | NEngine c :: rest => c :: engineCalls rest
  | _ :: rest => engineCalls rest
  end.

(** The response bodies a list of calls got, and those it closed. *)
Fixpoint bodiesGot (calls : list ncall) : list Body :=
  match calls with
  | [] => []
  | NGet _ (inl b) :: rest => b :: bodiesGot rest
  | _ :: rest => bodiesGot rest
  end.

Fixpoint bodiesClosed (calls : list ncall) : list Body :=
  match calls with
  | [] => []
  | NBodyClose b :: rest => b :: bodiesClosed rest
  | _ :: rest => bodiesClosed rest
  end.

Definition isGet (c : ncall) : bool :=
  match c with NGet _ _ => true | _ => false end.

Definition isSleep (c : ncall) : bool :=
  match c with NSleep _ => true | _ => false end.

(** Every request is followed by a sleep of three seconds before the next
    request and before the end of the calls, and every sleep follows a
    request that no sleep has followed yet; [pending] says that a request
    waits for its sleep. *)
Fixpoint sleptAfterEach (pending : bool) (calls : list ncall) : bool :=
  match calls with
  | [] => negb pending
  | NGet _ _ :: rest => negb pending && sleptAfterEach true rest
  | NSleep d :: rest => pending && (d =? threeSeconds) && sleptAfterEach false rest
  | _ :: rest => sleptAfterEach pending rest
  end.

(** A call of a download failed with an error that
    [fetchTestcaseAndSaveToFile] or [fetchProblemTestcasesHeader] returns:
    a request, the reading of a response, the making of the cache directory,
    the creation of a file. *)
Definition fetchFailed (c : ncall) : bool :=
  match c with
  | NGet _ (inr _) => true
  | NReadAll _ (inr _) => true
  | NMkdirAll _ (Some _) => true
  | NEngine (CCreate _ (inr _)) => true
  | _ => false
  end.

(** A string could not be written to a file. *)
Definition writeFailed (c : ncall) : bool :=
  match c with
  | NCopyString _ _ (Some _) => true
  | _ => false
  end.

(** The call makes the temporary directory: the first call of [verify]. *)
Definition startsVerify (c : ncall) : bool :=
  match c with
  | NEngine (CMkdirTemp _ _ _) => true
  | _ => false
  end.

(** The calls that see to it that the cache directory is there: it is, or
    it is made. *)
Inductive DirReady (dir : string) : list ncall -> Prop :=
| DirThere : DirReady dir [NStat dir None]
| DirMade statErr : DirReady dir [NStat dir (Some statErr); NMkdirAll dir None].

(** Every way [fetchTestcaseAndSaveToFile] can go. *)
Inductive FetchShape {os : OS} (net : Net os) (apiURL dir filename : string)
    : goerr -> list ncall -> Prop :=
| FetchGetFails err :
    FetchShape net apiURL dir filename
      (Some (ErrWrap "failed to fetch testcases: " err ""))
      [NGet apiURL (inr err)]
| FetchReadFails resp err :
    FetchShape net apiURL dir filename
      (Some (ErrWrap "failed to read response body: " err ""))
      [NGet apiURL (inl resp); NReadAll resp (inr err); NBodyClose resp]
| FetchUnmarshalFails resp body err :
    json_Unmarshal_testcase net body = inr err ->
    FetchShape net apiURL dir filename
      (Some (ErrWrap "failed to unmarshal body: " err ""))
      [NGet apiURL (inl resp); NReadAll resp (inl body); NBodyClose resp]
| FetchMkdirFails resp body tc statErr err :
    json_Unmarshal_testcase net body = inl tc ->
    FetchShape net apiURL dir filename
      (Some (ErrWrap "failed to mkdir: " err ""))
      [NGet apiURL (inl resp); NReadAll resp (inl body);
       NStat dir (Some statErr); NMkdirAll dir (Some err); NBodyClose resp]
| FetchCreateInFails resp body tc ready err :
    json_Unmarshal_testcase net body = inl tc ->
    DirReady dir ready ->
    FetchShape net apiURL dir filename
      (Some (ErrWrap "failed to create .in case: " err ""))
      (NGet apiURL (inl resp) :: NReadAll resp (inl body) :: ready ++
       [NEngine (CCreate (filepath_Join dir (filename ++ ".in")%string) (inr err));
        NBodyClose resp])
| FetchCreateOutFails resp body tc ready inFile written err :
    json_Unmarshal_testcase net body = inl tc ->
    DirReady dir ready ->
    FetchShape net apiURL dir filename
      (Some (ErrWrap "failed to create .out case: " err ""))
      (NGet apiURL (inl resp) :: NReadAll resp (inl body) :: ready ++
       [NEngine (CCreate (filepath_Join dir (filename ++ ".in")%string) (inl inFile));
        NCopyString inFile (testcase_In tc) written;
        NEngine (CCreate (filepath_Join dir (filename ++ ".out")%string) (inr err));
        NEngine (CClose inFile);
        NBodyClose resp])
| FetchSaved resp body tc ready inFile written1 outFile written2 :
    json_Unmarshal_testcase net body = inl tc ->
    DirReady dir ready ->
    FetchShape net apiURL dir filename None
      (NGet apiURL (inl resp) :: NReadAll resp (inl body) :: ready ++
       [NEngine (CCreate (filepath_Join dir (filename ++ ".in")%string) (inl inFile));
        NCopyString inFile (testcase_In tc) written1;
        NEngine (CCreate (filepath_Join dir (filename ++ ".out")%string) (inl outFile));
        NCopyString outFile (testcase_Out tc) written2;
        NEngine (CLog "download and saved"
                   [("in", AString (filepath_Join dir (filename ++ ".in")%string));
                    ("out", AString (filepath_Join dir (filename ++ ".out")%string))]);
        NEngine (CClose outFile);
        NEngine (CClose inFile);
        NBodyClose resp]).

(** Every way one iteration of the download loop can go. *)
Inductive DownloadShape {os : OS} (net : Net os) (problemID cacheDir : string) (h : header)
    : goerr -> list ncall -> Prop :=
| DownloadCached :
    DownloadShape net problemID cacheDir h None
      [NStat (filepath_Join cacheDir (header_Name h ++ ".in")%string) None]
| DownloadFetched statErr err fetchCalls :
    FetchShape net (testcaseURL problemID (header_Serial h)) cacheDir (header_Name h)
               err fetchCalls ->
    DownloadShape net problemID cacheDir h err
      (NStat (filepath_Join cacheDir (header_Name h ++ ".in")%string) (Some statErr)
       :: fetchCalls ++ [NSleep threeSeconds]).

(* ================================================================== *)
(** ** A small simulated network

    A [Net] over the simulated machine: a server given as a function from
    the URL to the body of the response, a disk that takes writes or not,
    and a toy wire format in which the body of a test case is its input,
    a bar and its output. *)
Module SimNet.

Fixpoint beforeBar (s : string) : string :=
  match s with
  | EmptyString => EmptyString
  | String c rest => if Ascii.eqb c "|" then EmptyString else String c (beforeBar rest)
  end.

Fixpoint afterBar (s : string) : string :=
  match s with
  | EmptyString => EmptyString
  | String c rest => if Ascii.eqb c "|" then rest else afterBar rest
  end.

Definition unmarshalTestcase (data : list byte) : testcase + error :=
  let s := string_of_list_byte data in
  if hasByte "|" s then inl (mkTestcase "" 0 (beforeBar s) (afterBar s))
  else inr (ErrNew "unexpected end of JSON input").

Definition get (server : string -> option string) (url : string) (w : Sim.world)
    : (Body + error) * Sim.world :=
  match server url with
  | Some body =>
      (inl (List.length (Sim.opened w)),
       Sim.setOpened (Sim.opened w ++ [url])
                     (Sim.setFiles (Sim.store url (list_byte_of_string body) (Sim.files w)) w))
  | None => (inr (ErrNew "dial tcp: connection refused"), w)
  end.

Definition readAll (b : Body) (w : Sim.world) : (list byte + error) * Sim.world :=
  Sim.copy b w.

Definition stat (path : string) (w : Sim.world) : goerr * Sim.world :=
  match Sim.lookup path (Sim.files w) with
  | Some _ => (None, w)
  | None => if Sim.hasDir path w then (None, w) else (Some (Sim.noEnt "stat" path), w)
  end.

Definition mkdirAll (path : string) (w : Sim.world) : goerr * Sim.world :=
  (None, Sim.setDirs (Sim.dirs w ++ [path]) w).

Definition copyString (diskOk : bool) (f : File) (data : string) (w : Sim.world)
    : goerr * Sim.world :=
  if diskOk
  then match nth_error (Sim.opened w) f with
       | Some p => (None, Sim.setFiles (Sim.store p (list_byte_of_string data) (Sim.files w)) w)
       | None => (Some (ErrNew "write: bad file descriptor"), w)
       end
  else (Some (ErrNew "write: no space left on device"), w).

Definition readFile (path : string) (w : Sim.world) : (string + error) * Sim.world :=
  match Sim.lookup path (Sim.files w) with
  | Some c => (inl (string_of_list_byte c), w)
  | None => (inr (Sim.noEnt "open" path), w)
  end.

Definition net (server : string -> option string) (diskOk : bool)
    (parse : string -> URL + error) (headers : option testcasesHeaderResponse)
    : Net Sim.os :=
  mkNet Sim.os readFile parse (get server) readAll (fun _ w => w)
        unmarshalTestcase (fun _ => inl headers)
        stat mkdirAll (copyString diskOk)
        (fun d w => Sim.setClock (Sim.clock w + d) w)
        (fun _ => "0cc175b9").

(** A server with the first test case of a problem only. *)
Definition oneCase (url : string) : option string :=
  if String.eqb url "https://judgedat.u-aizu.ac.jp/testcases/P/1" then Some "12|12"
  else if String.eqb url "https://judgedat.u-aizu.ac.jp/testcases/P/header" then Some "{}"
  else None.

(** A machine with an empty cache. *)
Definition fresh : Sim.world :=
  Sim.mkWorld [".aoj-verify"] [] [] (Root (Dir "cache" None [])) true "" Sim.echo true 0 0.

(** The cache directory of the problem on this network. *)
Definition cache : string := ".aoj-verify/cache/0cc175b9/test".

(** A machine with a solution that names its problem, and nothing cached;
    the walk finds what the download will have saved. *)
Definition solution : Sim.world :=
  Sim.mkWorld [".aoj-verify"]
    [("main.go",
      Sim.bytes ("package main" ++ String "010"
                 ("// verification-helper: PROBLEM https://onlinejudge.u-aizu.ac.jp/p/P"
                  ++ String "010" "")))]
    []
    (Root (Dir cache None [NonDir (cache ++ "/1.in"); NonDir (cache ++ "/1.out")]))
    true "" Sim.echo true 0 0.

(** The network of that machine: the problem [P] with one test case. *)
Definition full : Net Sim.os :=
  net oneCase true
      (fun _ => inl (mkURL "onlinejudge.u-aizu.ac.jp" "/p/P" (fun _ => [])))
      (Some (mkHeaderResponse "P" [Some (mkHeader 1 "1" 2 2 0)])).

End SimNet.

(** The call of [main] writes the summary record of the engine. *)
Definition writesSummary (c : ncall) : bool :=
  match c with
  | NEngine c' => isSummary c'
  | _ => false
  end.

(** Every way [main] can go.  The worlds are those the header is fetched
    in, the download loop starts in and [verify] starts in. *)
Inductive MainShape {os : OS} (net : Net os) (args : list string)
    : exit -> list ncall -> Prop :=
| MainNoArgument :
    nth_error args 1 = None ->
    MainShape net args Panicked []
| MainNoProblem filename read e :
    nth_error args 1 = Some filename ->
    e <> Returned ->
    MainShape net args e [NReadFile filename read]
| MainNoHeader filename read problemID (w : World os) e :
    nth_error args 1 = Some filename ->
    e <> Returned ->
    MainShape net args e
      (NReadFile filename read
       :: callsN (fetchProblemTestcasesHeader os net problemID) w)
| MainDownloadFails filename read problemID cacheDir headers (w w' : World os) e :
    nth_error args 1 = Some filename ->
    e <> Returned ->
    MainShape net args e
      (NReadFile filename read
       :: callsN (fetchProblemTestcasesHeader os net problemID) w
       ++ callsN (downloadEach os net problemID cacheDir headers None) w')
| MainVerified filename read problemID cacheDir headers response (w w' w'' : World os) :
    nth_error args 1 = Some filename ->
    valueN (fetchProblemTestcasesHeader os net problemID) w = inl response ->
    valueN (downloadEach os net problemID cacheDir headers None) w' = LoopDone None ->
    MainShape net args
      (match returned (valueOf (verifyRun os cacheDir filename) w'') with
       | Some err => Fatal err
       | None => Returned
       end)
      (NReadFile filename read
       :: callsN (fetchProblemTestcasesHeader os net problemID) w
       ++ callsN (downloadEach os net problemID cacheDir headers None) w'
       ++ map NEngine (callsOf (verifyRun os cacheDir filename) w'')).

(* ================================================================== *)
(** * Properties *)

(* ================================================================== *)
(** ** Strings: suffixes *)

Section Suffix.

Lemma length_app (p s : string) :
  String.length (p ++ s)%string = (String.length p + String.length s)%nat.
Proof. induction p as [|c p IH]; simpl; [reflexivity | now rewrite IH]. Qed.

Lemma substring_all (s : string) : substring 0 (String.length s) s = s.
Proof. induction s as [|c s IH]; simpl; [reflexivity | now rewrite IH]. Qed.

Lemma substring_app_head (p s : string) :
  substring 0 (String.length p) (p ++ s)%string = p.
Proof.
  induction p as [|c p IH]; simpl.
  - now destruct s.
  - now rewrite IH.
Qed.

Lemma substring_app_tail (p s : string) :
  substring (String.length p) (String.length s) (p ++ s)%string = s.
Proof. induction p as [|c p IH]; simpl; [apply substring_all | exact IH]. Qed.

Lemma substring_split (s : string) (n : nat) :
  (n <= String.length s)%nat ->
  s = (substring 0 n s ++ substring n (String.length s - n) s)%string.
Proof.
  revert n. induction s as [|c s IH]; intros n Hn; simpl in *.
  - destruct n; [reflexivity | lia].
  - destruct n as [|n]; simpl.
    + now rewrite substring_all.
    + f_equal. apply IH. lia.
Qed.

Lemma HasSuffix_app (p suffix : string) :
  strings_HasSuffix (p ++ suffix) suffix = true.
Proof.
  unfold strings_HasSuffix. rewrite length_app.
  replace (String.length p + String.length suffix - String.length suffix)%nat
    with (String.length p) by lia.
  rewrite substring_app_tail, String.eqb_refl, andb_true_r.
  apply Nat.leb_le. lia.
Qed.

Lemma TrimSuffix_app (p suffix : string) :
  strings_TrimSuffix (p ++ suffix) suffix = p.
Proof.
  unfold strings_TrimSuffix. rewrite HasSuffix_app, length_app.
  replace (String.length p + String.length suffix - String.length suffix)%nat
    with (String.length p) by lia.
  apply substring_app_head.
Qed.

Lemma HasSuffix_split (s suffix : string) :
  strings_HasSuffix s suffix = true ->
  s = (strings_TrimSuffix s suffix ++ suffix)%string.
Proof.
  intros H. unfold strings_TrimSuffix. rewrite H.
  unfold strings_HasSuffix in H. apply andb_true_iff in H as [Hlen Heq].
  apply Nat.leb_le in Hlen. apply String.eqb_eq in Heq.
  rewrite (substring_split s (String.length s - String.length suffix)) at 1 by lia.
  f_equal.
  replace (String.length s - (String.length s - String.length suffix))%nat
    with (String.length suffix) by lia.
  exact Heq.
Qed.

Lemma app_inj_tail (p q s : string) : (p ++ s = q ++ s)%string -> p = q.
Proof.
  intros H.
  rewrite <- (TrimSuffix_app p s), <- (TrimSuffix_app q s). now rewrite H.
Qed.

End Suffix.

(* ================================================================== *)
(** ** Paths: what [filepath.Join] does to the last element *)

Section Paths.

Lemma append_assoc (a b c : string) : ((a ++ b) ++ c = a ++ b ++ c)%string.
Proof. induction a as [|x a IH]; simpl; [reflexivity | now rewrite IH]. Qed.

Lemma append_nil_r (a : string) : (a ++ "")%string = a.
Proof. induction a as [|x a IH]; simpl; [reflexivity | now rewrite IH]. Qed.

Lemma app_inj_head (p a b : string) : (p ++ a = p ++ b)%string -> a = b.
Proof.
  induction p as [|c p IH]; simpl; intros H; [exact H|].
  injection H as H. now apply IH.
Qed.

Lemma append_not_empty (p t : string) :
  (1 <= String.length t)%nat -> String.eqb (p ++ t) "" = false.
Proof.
  intros Hlen. apply String.eqb_neq. intros H.
  apply (f_equal String.length) in H. rewrite length_app in H. simpl in H. lia.
Qed.

(** An element of three bytes or more is a name: it is kept. *)
Lemma cleanStep_name (rooted : bool) (out : list string) (elem : string) :
  (3 <= String.length elem)%nat -> cleanStep rooted out elem = elem :: out.
Proof.
  destruct elem as [|a [|b [|c e]]]; simpl; try lia. intros _.
  unfold cleanStep. cbn [String.eqb].
  destruct (Ascii.eqb a "."); destruct (Ascii.eqb b "."); reflexivity.
Qed.

(** A path without a separator is one element. *)
Lemma cleanScan_element (rooted : bool) (t : string) :
  hasByte "/" t = false ->
  forall cur out, cleanScan rooted t cur out = cleanStep rooted out (cur ++ t).
Proof.
  induction t as [|a t IH]; intros Ht cur out; simpl in *.
  - now rewrite append_nil_r.
  - apply orb_false_iff in Ht as [Ha Ht]. rewrite Ha, (IH Ht), append_assoc.
    reflexivity.
Qed.

(** What follows the last separator of a path ends up in its last
    element. *)
Lemma cleanScan_suffix (rooted : bool) (s : string) :
  forall cur out, exists cur' out',
    forall t, hasByte "/" t = false ->
      cleanScan rooted (s ++ t) cur out = cleanStep rooted out' (cur' ++ t).
Proof.
  induction s as [|c s IH]; intros cur out.
  - exists cur, out. intros t Ht. now apply cleanScan_element.
  - cbn [append cleanScan]. destruct (Ascii.eqb c "/"); apply IH.
Qed.

Lemma concat_snoc (sep : string) (l : list string) (e : string) :
  String.concat sep (l ++ [e])
  = match l with
    | [] => e
    | _ => (String.concat sep l ++ sep ++ e)%string
    end.
Proof.
  induction l as [|x l IH]; [reflexivity|].
  destruct l as [|y l]; [reflexivity|].
  change (String.concat sep ((x :: y :: l) ++ [e]))
    with (x ++ sep ++ String.concat sep ((y :: l) ++ [e]))%string.
  rewrite IH.
  change (String.concat sep (x :: y :: l))
    with (x ++ sep ++ String.concat sep (y :: l))%string.
  now rewrite !append_assoc.
Qed.

(** Cleaning keeps a suffix of three bytes or more without a separator:
    what stands before it in the cleaned path does not depend on it. *)
Lemma Clean_suffix (s : string) :
  exists before, forall t,
    hasByte "/" t = false -> (3 <= String.length t)%nat ->
    filepath_Clean (s ++ t) = (before ++ t)%string.
Proof.
  destruct s as [|c s].
  - exists "". intros t Ht Hlen. cbn [append].
    destruct t as [|a t]; [simpl in Hlen; lia|].
    unfold filepath_Clean.
    assert (Ha : Ascii.eqb a "/" = false)
      by (simpl in Ht; now apply orb_false_iff in Ht).
    rewrite Ha, (cleanScan_element false _ Ht), cleanStep_name by exact Hlen.
    cbn [append rev app String.concat]. reflexivity.
  - destruct (cleanScan_suffix (Ascii.eqb c "/") (String c s) "" [])
      as (cur' & out' & Hscan).
    exists ((if Ascii.eqb c "/" then "/" else "")
            ++ match rev out' with
               | [] => ""
               | _ => String.concat "/" (rev out') ++ "/"
               end
            ++ cur')%string.
    intros t Ht Hlen.
    change (filepath_Clean (String c s ++ t))
      with (let rooted := Ascii.eqb c "/" in
            let body := String.concat "/" (rev (cleanScan rooted (String c s ++ t) "" [])) in
            if rooted then ("/" ++ body)%string
            else if String.eqb body "" then "." else body).
    cbv zeta. rewrite (Hscan t Ht), cleanStep_name by (rewrite length_app; lia).
    cbn [rev]. rewrite concat_snoc.
    assert (Hbody : (match rev out' with
                     | [] => cur' ++ t
                     | _ => String.concat "/" (rev out') ++ "/" ++ cur' ++ t
                     end
                     = (match rev out' with
                        | [] => ""
                        | _ => String.concat "/" (rev out') ++ "/"
                        end ++ cur') ++ t)%string).
    { destruct (rev out'); cbn [append]; [reflexivity|].
      now rewrite !append_assoc. }
    rewrite Hbody. destruct (Ascii.eqb c "/").
    + now rewrite !append_assoc.
    + rewrite append_not_empty by lia. cbn [append]. reflexivity.
Qed.

(** The same of [filepath.Join] on a directory and a file name. *)
Lemma Join_suffix (dir filename : string) :
  exists before, forall t,
    hasByte "/" t = false -> (3 <= String.length t)%nat ->
    filepath_Join dir (filename ++ t) = (before ++ t)%string.
Proof.
  unfold filepath_Join. cbn [filepath_Join_elems].
  destruct (String.eqb_spec dir "") as [->|Hdir].
  - destruct (Clean_suffix filename) as (before & Hb). exists before.
    intros t Ht Hlen. rewrite append_not_empty by lia.
    cbn [String.concat]. now apply Hb.
  - destruct (Clean_suffix (dir ++ "/" ++ filename)) as (before & Hb). exists before.
    intros t Ht Hlen. cbn [String.concat]. rewrite <- (Hb t Ht Hlen).
    now rewrite !append_assoc.
Qed.

(** The paths of the two files of a test case differ. *)
Lemma in_not_out (dir filename : string) :
  filepath_Join dir (filename ++ ".in")%string
  <> filepath_Join dir (filename ++ ".out")%string.
Proof.
  destruct (Join_suffix dir filename) as (before & Hb).
  rewrite (Hb ".in"), (Hb ".out") by (try reflexivity; simpl; lia).
  intros H. apply app_inj_head in H. discriminate.
Qed.

(** [filepath.Join] cleans what it joins. *)
Example filepath_Join_cleans :
  filepath_Join "cache" "a/../case1.in" = "cache/case1.in" /\
  filepath_Join ".aoj-verify/tmp1" "main" = ".aoj-verify/tmp1/main" /\
  filepath_Join "" "main" = "main" /\
  filepath_Join "a//b/./c/" "../x" = "a/b/x" /\
  filepath_Join "/.." "x" = "/x" /\
  filepath_Join ".." "../x" = "../../x" /\
  filepath_Clean "a/.." = "." /\
  filepath_Clean "/" = "/" /\
  filepath_Join_elems [".aoj-verify"; "cache"; "0cc175b9"; "test"]
  = ".aoj-verify/cache/0cc175b9/test".
Proof. repeat split. Qed.

End Paths.

(* ================================================================== *)
(** ** The summary: counts *)

Section Counts.

Lemma incr_small (x : Z) : 0 <= x < Int64.max_int -> Int64.incr x = x + 1.
Proof.
  unfold Int64.incr, Int64.wrap, Int64.max_int. intros H.
  rewrite Z.mod_small; lia.
Qed.

Lemma iter_incr (n : nat) :
  Z.of_nat n <= Int64.max_int -> Nat.iter n Int64.incr 0 = Z.of_nat n.
Proof.
  induction n as [|n IH]; intros H; [reflexivity|].
  rewrite Nat.iter_succ, IH by lia. rewrite incr_small; lia.
Qed.

Lemma iter_incr_shift (n : nat) (x : Z) :
  Nat.iter n Int64.incr (Int64.incr x) = Int64.incr (Nat.iter n Int64.incr x).
Proof. induction n as [|n IH]; simpl; [reflexivity | now rewrite IH]. Qed.

(** Each counter is incremented once per result with its verdict, whatever
    the accumulator was. *)
Lemma fold_counts (rs : list runResult) (acc : Summary) :
  let s := fold_left summaryStep rs acc in
  acCount s = Nat.iter (countOf accepted rs) Int64.incr (acCount acc) /\
  waCount s = Nat.iter (countOf wrongAnswer rs) Int64.incr (waCount acc) /\
  tleCount s = Nat.iter (countOf timeLimitExceeded rs) Int64.incr (tleCount acc) /\
  reCount s = Nat.iter (countOf runtimeError rs) Int64.incr (reCount acc).
Proof.
  revert acc. induction rs as [|v rs IH]; intros acc; simpl.
  - repeat split.
  - specialize (IH (summaryStep acc v)). simpl in IH.
    destruct IH as (Hac & Hwa & Htle & Hre).
    rewrite Hac, Hwa, Htle, Hre. clear Hac Hwa Htle Hre.
    unfold countOf, summaryStep. simpl.
    destruct (slowestTime acc <? execTime v), (status v); simpl;
      rewrite ?iter_incr_shift; repeat split.
Qed.

Lemma countOf_le (st : runStatus) (rs : list runResult) :
  (countOf st rs <= List.length rs)%nat.
Proof. unfold countOf. apply filter_length_le. Qed.

Lemma countOf_sum (rs : list runResult) :
  (countOf accepted rs + countOf wrongAnswer rs +
   countOf timeLimitExceeded rs + countOf runtimeError rs)%nat
  = List.length (filter known rs).
Proof.
  unfold countOf, known. induction rs as [|v rs IH]; simpl; [reflexivity|].
  destruct (status v); simpl; lia.
Qed.

Lemma countOf_drop (st : runStatus) (l1 l2 : list runResult) (v : runResult) :
  status v = unknown -> st <> unknown ->
  countOf st (l1 ++ v :: l2) = countOf st (l1 ++ l2).
Proof.
  intros Hv Hst. unfold countOf. rewrite !filter_app. simpl. rewrite Hv.
  destruct st; simpl; congruence.
Qed.

Lemma filter_known_all (rs : list runResult) :
  Forall (fun r => status r <> unknown) rs -> filter known rs = rs.
Proof.
  induction 1 as [|v rs Hv _ IH]; simpl; [reflexivity|].
  unfold known at 1. destruct (status v); simpl; try congruence.
Qed.

End Counts.

(* ================================================================== *)
(** ** The summary: the slowest case *)

Section Slowest.

Lemma slowestOf_step (acc : Summary) (v : runResult) :
  slowestOf (summaryStep acc v) = slowStep (slowestOf acc) v.
Proof.
  unfold summaryStep, slowStep, slowestOf. simpl.
  destruct (slowestTime acc <? execTime v), (status v); reflexivity.
Qed.

Lemma slowestOf_fold (rs : list runResult) (acc : Summary) :
  slowestOf (fold_left summaryStep rs acc) = fold_left slowStep rs (slowestOf acc).
Proof.
  revert acc. induction rs as [|v rs IH]; intros acc; simpl; [reflexivity|].
  now rewrite IH, slowestOf_step.
Qed.

(** From a current maximum [t]: either nothing in the list is above [t]
    and the current case stays, or the first result with the greatest
    duration is taken. *)
Lemma slowStep_fold (rs : list runResult) (t : Z) (n : string) :
  (Forall (fun x => execTime x <= t) rs /\ fold_left slowStep rs (t, n) = (t, n))
  \/
  (exists l1 r l2,
      rs = l1 ++ r :: l2 /\ t < execTime r /\
      Forall (fun x => execTime x < execTime r) l1 /\
      Forall (fun x => execTime x <= execTime r) l2 /\
      fold_left slowStep rs (t, n) = (execTime r, testcaseName r)).
Proof.
  revert t n. induction rs as [|v rs IH]; intros t n; simpl.
  - left. split; [constructor | reflexivity].
  - change (slowStep (t, n) v)
      with (if t <? execTime v then (execTime v, testcaseName v) else (t, n)).
    destruct (Z.ltb_spec t (execTime v)) as [Hlt|Hge].
    + right. destruct (IH (execTime v) (testcaseName v))
        as [[Hall Heq] | (l1 & r & l2 & Hrs & Hr & H1 & H2 & Heq)].
      * exists [], v, rs. repeat split; auto.
      * exists (v :: l1), r, l2. subst rs. repeat split; auto; lia.
    + destruct (IH t n) as [[Hall Heq] | (l1 & r & l2 & Hrs & Hr & H1 & H2 & Heq)].
      * left. split; [constructor; assumption | assumption].
      * right. exists (v :: l1), r, l2. subst rs. repeat split; auto.
        constructor; [lia | assumption].
Qed.

End Slowest.

(* ================================================================== *)
(** ** Discovery *)

Section Sorting.

Lemma leb_trans (a b c : string) :
  String.leb a b = true -> String.leb b c = true -> String.leb a c = true.
Proof.
  unfold String.leb. revert b c.
  induction a as [|x a IH]; intros [|y b] [|z c]; simpl; try congruence.
  specialize (IH b c). unfold Ascii.compare.
  destruct (N.compare_spec (N_of_ascii x) (N_of_ascii y)),
           (N.compare_spec (N_of_ascii y) (N_of_ascii z)),
           (N.compare_spec (N_of_ascii x) (N_of_ascii z));
    try congruence; try lia; auto.
Qed.

Lemma str_le_trans : forall a b c, str_le a b -> str_le b c -> str_le a c.
Proof. exact leb_trans. Qed.

Lemma str_le_total (a b : string) : str_le a b \/ str_le b a.
Proof. apply String.leb_total. Qed.

Lemma str_le_antisym (a b : string) : str_le a b -> str_le b a -> a = b.
Proof. apply String.leb_antisym. Qed.

Lemma insert_sorted_perm (x : string) (l : list string) :
  Permutation (x :: l) (insert_sorted x l).
Proof.
  induction l as [|y l IH]; simpl; [reflexivity|].
  destruct (String.leb x y); [reflexivity|].
  rewrite perm_swap. now constructor.
Qed.

Lemma slices_Sort_perm (l : list string) : Permutation l (slices_Sort l).
Proof.
  induction l as [|x l IH]; simpl; [constructor|].
  rewrite <- insert_sorted_perm. now constructor.
Qed.

Lemma insert_sorted_sorted (x : string) (l : list string) :
  StronglySorted str_le l -> StronglySorted str_le (insert_sorted x l).
Proof.
  induction 1 as [|y l Hs IH Hy]; simpl.
  - constructor; constructor.
  - destruct (String.leb x y) eqn:Hxy.
    + constructor; [now constructor|].
      constructor; [exact Hxy|].
      eapply Forall_impl; [|exact Hy]. intros z Hz. now apply (str_le_trans x y z).
    + constructor; [exact IH|].
      assert (Hyx : str_le y x).
      { destruct (str_le_total x y) as [H|H]; [unfold str_le in H; congruence | exact H]. }
      eapply Permutation_Forall; [apply insert_sorted_perm|].
      now constructor.
Qed.

Lemma slices_Sort_sorted (l : list string) : StronglySorted str_le (slices_Sort l).
Proof.
  induction l as [|x l IH]; simpl; [constructor | now apply insert_sorted_sorted].
Qed.

(** Two sorted lists with the same elements are the same list. *)
Lemma sorted_perm_eq (l1 l2 : list string) :
  StronglySorted str_le l1 -> StronglySorted str_le l2 ->
  Permutation l1 l2 -> l1 = l2.
Proof.
  intros H1. revert l2. induction H1 as [|x l1 Hs1 IH Hx]; intros l2 H2 Hp.
  - now apply Permutation_nil in Hp.
  - destruct H2 as [|y l2 Hs2 Hy].
    + symmetry in Hp. now apply Permutation_nil in Hp.
    + assert (x = y) as ->.
      { apply str_le_antisym.
        - assert (Hin : In y (x :: l1))
            by (eapply Permutation_in; [symmetry; exact Hp | now left]).
          destruct Hin as [->|Hin].
          * destruct (String.leb_total y y); assumption.
          * rewrite Forall_forall in Hx. now apply Hx.
        - assert (Hin : In x (y :: l2))
            by (eapply Permutation_in; [exact Hp | now left]).
          destruct Hin as [->|Hin].
          * destruct (String.leb_total x x); assumption.
          * rewrite Forall_forall in Hy. now apply Hy. }
      f_equal. apply IH; [assumption|]. now apply Permutation_cons_inv in Hp.
Qed.

(** Every method that rearranges a slice into ascending order returns what
    [slices_Sort] returns. *)
Lemma slices_Sort_unique (l l' : list string) :
  Permutation l l' -> StronglySorted str_le l' -> l' = slices_Sort l.
Proof.
  intros Hp Hs. apply sorted_perm_eq; [assumption | apply slices_Sort_sorted |].
  rewrite <- Hp. apply slices_Sort_perm.
Qed.

Lemma slices_Sort_order_free (l1 l2 : list string) :
  Permutation l1 l2 -> slices_Sort l1 = slices_Sort l2.
Proof.
  intros Hp. apply slices_Sort_unique; [|apply slices_Sort_sorted].
  rewrite <- Hp. apply slices_Sort_perm.
Qed.

End Sorting.

Section Walking.

Lemma DirEntry_nested_ind (P : DirEntry -> Prop) :
  (forall path, P (NonDir path)) ->
  (forall path readErr entries, Forall P entries -> P (Dir path readErr entries)) ->
  forall d, P d.
Proof.
  intros Hf Hd. fix rec 1. intros [path | path readErr entries].
  - apply Hf.
  - apply Hd. induction entries as [|d ds IH]; constructor; [apply rec | exact IH].
Qed.

Lemma walkFn_dir (path : string) (acc : list string) :
  walkFn path (Some true) None acc = (None, acc).
Proof. reflexivity. Qed.

Lemma walkFn_file (path : string) (acc : list string) :
  walkFn path (Some false) None acc = (None, acc ++ filter isInput [path]).
Proof.
  unfold walkFn, isInput. simpl.
  destruct (strings_HasSuffix path ".in"); [reflexivity | now rewrite app_nil_r].
Qed.

(** Below a readable entry the callback collects the input files, in the
    order of the walk, and the walk returns nil. *)
Lemma walkDir_readable (d : DirEntry) :
  forall acc, readable d = true ->
              walkDir walkFn d acc = (None, acc ++ filter isInput (filesOf d)).
Proof.
  induction d as [path | path readErr entries IH] using DirEntry_nested_ind;
    intros acc Hr.
  - apply walkFn_file.
  - simpl in Hr. destruct readErr as [e|]; [discriminate|].
    cbn [walkDir filesOf]. rewrite walkFn_dir.
    revert acc. induction IH as [|d ds Hd _ IHds]; intros acc; simpl.
    + now rewrite app_nil_r.
    + simpl in Hr. apply andb_true_iff in Hr as [Hd1 Hds].
      rewrite (Hd acc Hd1), (IHds Hds), filter_app, app_assoc. reflexivity.
Qed.

(** Below an entry with a directory that cannot be read the walk returns an
    error. *)
Lemma walkDir_unreadable (d : DirEntry) :
  forall acc, readable d = false ->
              exists e acc', walkDir walkFn d acc = (Some e, acc').
Proof.
  induction d as [path | path readErr entries IH] using DirEntry_nested_ind;
    intros acc Hr.
  - discriminate.
  - simpl in Hr. cbn [walkDir]. rewrite walkFn_dir.
    destruct readErr as [e|]; [simpl; eauto|].
    revert acc. induction IH as [|d ds Hd _ IHds]; intros acc; simpl in *.
    + discriminate.
    + destruct (readable d) eqn:Hd1.
      * rewrite (walkDir_readable d acc Hd1). apply IHds. exact Hr.
      * destruct (Hd acc eq_refl) as (e & acc' & ->). eauto.
Qed.

Lemma WalkDir_walkable (root : string) (r : WalkRoot) :
  walkable r = true ->
  filepath_WalkDir walkFn root r [] = (None, inputsOf r).
Proof.
  destruct r as [e|d]; simpl; [discriminate|]. intros H.
  now rewrite (walkDir_readable d [] H).
Qed.

Lemma WalkDir_not_walkable (root : string) (r : WalkRoot) :
  walkable r = false ->
  exists e acc, filepath_WalkDir walkFn root r [] = (Some e, acc).
Proof.
  destruct r as [e|d]; simpl; intros H; [eauto|].
  now apply walkDir_unreadable.
Qed.

End Walking.

(* ================================================================== *)
(** ** The engine: what a computation returns, calls and leaves *)

Section Running.
Variable os : OS.

Lemma valueOf_bind {A B} (m : M os A) (k : A -> M os B) (w : World os) :
  valueOf (bind m k) w = valueOf (k (valueOf m w)) (worldAfter m w).
Proof.
  unfold valueOf, worldAfter, bind. destruct (m w) as [[a t1] w1]. simpl.
  now destruct (k a w1) as [[b t2] w2].
Qed.

Lemma callsOf_bind {A B} (m : M os A) (k : A -> M os B) (w : World os) :
  callsOf (bind m k) w = callsOf m w ++ callsOf (k (valueOf m w)) (worldAfter m w).
Proof.
  unfold callsOf, valueOf, worldAfter, bind. destruct (m w) as [[a t1] w1]. simpl.
  now destruct (k a w1) as [[b t2] w2].
Qed.

Lemma worldAfter_bind {A B} (m : M os A) (k : A -> M os B) (w : World os) :
  worldAfter (bind m k) w = worldAfter (k (valueOf m w)) (worldAfter m w).
Proof.
  unfold valueOf, worldAfter, bind. destruct (m w) as [[a t1] w1]. simpl.
  now destruct (k a w1) as [[b t2] w2].
Qed.

Lemma valueOf_ret {A} (a : A) (w : World os) : valueOf (@ret os A a) w = a.
Proof. reflexivity. Qed.

Lemma callsOf_ret {A} (a : A) (w : World os) : callsOf (@ret os A a) w = [].
Proof. reflexivity. Qed.

Lemma worldAfter_ret {A} (a : A) (w : World os) : worldAfter (@ret os A a) w = w.
Proof. reflexivity. Qed.

Lemma callsOf_call1 {A} (op : World os -> A * World os) (c : A -> call) (w : World os) :
  callsOf (call1 os op c) w = [c (valueOf (call1 os op c) w)].
Proof. unfold callsOf, valueOf, call1. now destruct (op w). Qed.

Lemma callsOf_call0 (op : World os -> World os) (c : call) (w : World os) :
  callsOf (call0 os op c) w = [c].
Proof. reflexivity. Qed.

Lemma callsOf_Run (cmd : Cmd) (w : World os) :
  callsOf (Run os cmd) w = [CRun cmd (fst (valueOf (Run os cmd) w))].
Proof.
  unfold callsOf, valueOf, Run. now destruct (cmd_Run os cmd w) as [[err stderr] w1].
Qed.

Lemma callsOf_Info (msg : string) (attrs : list (string * attr)) (w : World os) :
  callsOf (Info os msg attrs) w = [CLog msg attrs].
Proof. reflexivity. Qed.

Lemma callsOf_Lstat (root : string) (w : World os) :
  callsOf (Lstat os root) w = [CWalkDir root (valueOf (Lstat os root) w)].
Proof. reflexivity. Qed.

End Running.

Create Rewrite HintDb run.

#[local] Hint Rewrite
  @valueOf_bind @callsOf_bind @worldAfter_bind
  @valueOf_ret @callsOf_ret @worldAfter_ret
  @callsOf_call0 @callsOf_Run @callsOf_Info @callsOf_Lstat : run.

(** Unfold the calls of the engine down to [call1] and [call0], then push
    [valueOf], [callsOf] and [worldAfter] through the binds. *)
Ltac run_simpl :=
  unfold defer, caseLog, Stopwatch_Start, Stopwatch_Elapsed, MkdirTemp, RemoveAll,
    Open, Create, Close, Copy, Text, Now;
  repeat (autorewrite with run; rewrite ?callsOf_call1); cbn [app fst snd startTime].

Section CaseShapes.
Variable os : OS.

Lemma filesAreEqual_shape (path1 path2 : string) (w : World os) :
  CompareShape path1 path2
    (valueOf (filesAreEqual os path1 path2) w)
    (callsOf (filesAreEqual os path1 path2) w).
Proof.
  unfold filesAreEqual. run_simpl.
  destruct (valueOf (call1 os (os_Open os path1) (COpen path1)) w) as [f1|err];
    run_simpl; [|constructor].
  match goal with |- context [valueOf (call1 os (os_Open os path2) ?c) ?w1] =>
    destruct (valueOf (call1 os (os_Open os path2) c) w1) as [f2|err] end;
    run_simpl; [|constructor].
  match goal with |- context [valueOf (call1 os (io_Copy os f1) ?c) ?w1] =>
    destruct (valueOf (call1 os (io_Copy os f1) c) w1) as [b1|err] end;
    run_simpl; [|constructor].
  match goal with |- context [valueOf (call1 os (io_Copy os f2) ?c) ?w1] =>
    destruct (valueOf (call1 os (io_Copy os f2) c) w1) as [b2|err] end;
    run_simpl; constructor.
Qed.

Lemma runCase_shape (tmpDir binaryFilepath inFilepath : string) (w : World os) :
  CaseShape tmpDir binaryFilepath inFilepath
    (valueOf (runCase os tmpDir binaryFilepath inFilepath) w)
    (callsOf (runCase os tmpDir binaryFilepath inFilepath) w).
Proof.
  unfold runCase. run_simpl.
  destruct (valueOf (call1 os (os_Open os inFilepath) (COpen inFilepath)) w)
    as [inFile|err]; run_simpl; [|constructor].
  match goal with |- context [valueOf (call1 os (rand_Text os) CRandText) ?w1] =>
    generalize (valueOf (call1 os (rand_Text os) CRandText) w1);
    generalize (worldAfter (call1 os (rand_Text os) CRandText) w1) end.
  intros w2 text.
  match goal with |- context [valueOf (call1 os (os_Create os ?a) ?c) w2] =>
    destruct (valueOf (call1 os (os_Create os a) c) w2) as [answerFile|err];
    generalize (worldAfter (call1 os (os_Create os a) c) w2) end;
    intros w3; run_simpl; [|constructor].
  generalize (valueOf (call1 os (time_Now os) CNow) w3).
  generalize (worldAfter (call1 os (time_Now os) CNow) w3). intros w4 t0.
  match goal with |- context [valueOf (Run os ?cmd) w4] =>
    destruct (valueOf (Run os cmd) w4) as [runErr stderr];
    generalize (worldAfter (Run os cmd) w4) end.
  intros w5. cbn [fst snd].
  generalize (valueOf (call1 os (time_Now os) CNow) w5).
  generalize (worldAfter (call1 os (time_Now os) CNow) w5). intros w6 t1.
  destruct runErr as [e|]; run_simpl.
  - apply CaseRunFails.
  - match goal with |- context [valueOf (filesAreEqual os ?a ?b) ?w7] =>
      pose proof (filesAreEqual_shape a b w7) as Hcmp;
      destruct (valueOf (filesAreEqual os a b) w7) as [equal cmpErr];
      revert Hcmp; generalize (callsOf (filesAreEqual os a b) w7) end.
    intros cmpCalls Hcmp. cbn [fst snd].
    destruct cmpErr as [err|]; run_simpl.
    + rewrite app_nil_r. eapply CaseCompareFails. exact Hcmp.
    + inversion Hcmp; subst.
      match goal with |- context [bytes_Equal ?x ?y] =>
        destruct (bytes_Equal x y) eqn:Heq end; run_simpl.
      * pose proof (CaseJudged tmpDir binaryFilepath inFilepath
                      inFile text answerFile t0 t1 f1 f2 b1 b2) as H.
        cbv zeta in H. rewrite Heq in H. exact H.
      * pose proof (CaseJudged tmpDir binaryFilepath inFilepath
                      inFile text answerFile t0 t1 f1 f2 b1 b2) as H.
        cbv zeta in H. rewrite Heq in H. exact H.
Qed.

End CaseShapes.

(* ================================================================== *)
(** ** One iteration of the run loop *)

Section CaseFacts.
Variables tmpDir binaryFilepath inFilepath : string.

Lemma compare_error_ioFailed (path1 path2 : string) (equal : bool) (err : error)
    (calls : list call) :
  CompareShape path1 path2 (equal, Some err) calls -> existsb ioFailed calls = true.
Proof. inversion 1; reflexivity. Qed.

(** An iteration ends with an error exactly when one of its file operations
    failed. *)
Lemma case_ioFailed (o : caseOutcome) (calls : list call) :
  CaseShape tmpDir binaryFilepath inFilepath o calls ->
  existsb ioFailed calls = match o with InfraErr _ => true | Recorded _ => false end.
Proof.
  inversion 1; subst; try reflexivity.
  cbn. eapply compare_error_ioFailed; eassumption.
Qed.

Lemma compare_infraFailed (path1 path2 : string) (res : bool * goerr)
    (calls : list call) :
  CompareShape path1 path2 res calls ->
  existsb infraFailed calls = existsb ioFailed calls.
Proof. inversion 1; reflexivity. Qed.

Lemma case_infraFailed (o : caseOutcome) (calls : list call) :
  String.eqb binaryFilepath "go" = false ->
  CaseShape tmpDir binaryFilepath inFilepath o calls ->
  existsb infraFailed calls = existsb ioFailed calls.
Proof.
  intros Hbin. inversion 1; subst; cbn; unfold isBuild; cbn;
    rewrite ?Hbin; try reflexivity.
  eapply compare_infraFailed; eassumption.
Qed.

Lemma compare_no_summary (path1 path2 : string) (res : bool * goerr)
    (calls : list call) :
  CompareShape path1 path2 res calls -> existsb isSummary calls = false.
Proof. inversion 1; reflexivity. Qed.

Lemma case_no_summary (o : caseOutcome) (calls : list call) :
  CaseShape tmpDir binaryFilepath inFilepath o calls ->
  existsb isSummary calls = false.
Proof.
  inversion 1; subst; try reflexivity.
  - cbn. eapply compare_no_summary; eassumption.
  - repeat match goal with x := _ |- _ => subst x end.
    destruct (bytes_Equal b1 b2); reflexivity.
Qed.

Lemma case_recorded (r : runResult) (calls : list call) :
  CaseShape tmpDir binaryFilepath inFilepath (Recorded r) calls ->
  testcaseName r = strings_TrimSuffix inFilepath ".in" /\ given (status r) = true.
Proof.
  inversion 1; subst; cbn; split; try reflexivity.
  repeat match goal with x := _ |- _ => subst x end.
  destruct (bytes_Equal b1 b2); reflexivity.
Qed.

Lemma case_error_joined (e : error) (calls : list call) :
  CaseShape tmpDir binaryFilepath inFilepath (InfraErr e) calls -> joined e = [e].
Proof. inversion 1; reflexivity. Qed.

End CaseFacts.

(* ================================================================== *)
(** ** The run loop *)

Section JoinEach.

Lemma joinEach_some (e : error) (errs : list error) :
  exists e', joinEach (Some e) errs = Some e'.
Proof.
  revert e. induction errs as [|x errs IH]; intros e; simpl; [eauto|].
  apply IH.
Qed.

(** [multiErr] is nil after the loop exactly when no error was joined. *)
Lemma joinEach_none (errs : list error) : joinEach None errs = None <-> errs = [].
Proof.
  destruct errs as [|x errs]; simpl; [tauto|].
  destruct (joinEach_some (ErrJoin1 x) errs) as [e' He'].
  unfold joinEach in He'. simpl in He'. unfold joinEach. simpl. rewrite He'.
  split; discriminate.
Qed.

(** Joining loses no error and keeps the order. *)
Lemma joinEach_joined (m : goerr) (errs : list error) :
  Forall (fun e => joined e = [e]) errs ->
  joined_all (joinEach m errs) = joined_all m ++ errs.
Proof.
  intros H. revert m. induction H as [|x errs Hx _ IH]; intros m; simpl.
  - now rewrite app_nil_r.
  - unfold joinEach in *. simpl. rewrite IH.
    destruct m as [e|]; simpl; rewrite Hx; [now rewrite <- app_assoc | reflexivity].
Qed.

End JoinEach.

Section Loop.
Variable os : OS.
Variables tmpDir binaryFilepath : string.

Let loop := runLoop os tmpDir binaryFilepath.
Let each := eachCase os tmpDir binaryFilepath.

(** The loop with its two variables and the list of what the iterations
    end with tell the same story. *)
Lemma runLoop_eachCase (inFilepaths : list string) :
  forall multiErr results w,
    valueOf (loop inFilepaths multiErr results) w
    = (joinEach multiErr (errorsOf (valueOf (each inFilepaths) w)),
       results ++ recordedOf (valueOf (each inFilepaths) w))
    /\ callsOf (loop inFilepaths multiErr results) w = callsOf (each inFilepaths) w
    /\ worldAfter (loop inFilepaths multiErr results) w
       = worldAfter (each inFilepaths) w.
Proof.
  subst loop each.
  induction inFilepaths as [|p ps IH]; intros multiErr results w; cbn [runLoop eachCase].
  - run_simpl. now rewrite app_nil_r.
  - run_simpl. rewrite app_nil_r.
    destruct (valueOf (runCase os tmpDir binaryFilepath p) w) as [e|r].
    + destruct (IH (errors_Join multiErr (Some e)) results
                   (worldAfter (runCase os tmpDir binaryFilepath p) w))
        as (Hv & Hc & Hw).
      rewrite Hv, Hc, Hw. auto.
    + destruct (IH multiErr (results ++ [r])
                   (worldAfter (runCase os tmpDir binaryFilepath p) w))
        as (Hv & Hc & Hw).
      rewrite Hv, Hc, Hw. cbn [errorsOf recordedOf]. rewrite <- app_assoc. auto.
Qed.

Lemma eachCase_length (inFilepaths : list string) (w : World os) :
  List.length (valueOf (each inFilepaths) w) = List.length inFilepaths.
Proof.
  subst each. revert w. induction inFilepaths as [|p ps IH]; intros w; cbn [eachCase].
  - reflexivity.
  - run_simpl. simpl. now rewrite IH.
Qed.

(** The iterations over [ps1 ++ ps2] are those over [ps1] and then those
    over [ps2], from the world the first ones leave. *)
Lemma eachCase_app (ps1 ps2 : list string) :
  forall w,
    valueOf (each (ps1 ++ ps2)) w
    = valueOf (each ps1) w ++ valueOf (each ps2) (worldAfter (each ps1) w)
    /\ callsOf (each (ps1 ++ ps2)) w
       = callsOf (each ps1) w ++ callsOf (each ps2) (worldAfter (each ps1) w)
    /\ worldAfter (each (ps1 ++ ps2)) w
       = worldAfter (each ps2) (worldAfter (each ps1) w).
Proof.
  subst each. induction ps1 as [|p ps1 IH]; intros w.
  - cbn [app eachCase]. run_simpl. auto.
  - cbn [app eachCase]. run_simpl.
    destruct (IH (worldAfter (runCase os tmpDir binaryFilepath p) w)) as (Hv & Hc & Hw).
    rewrite Hv, Hc, Hw, !app_nil_r, <- !app_assoc. auto.
Qed.

(** A property of the calls of every iteration holds of the calls of the
    loop. *)
Lemma eachCase_calls (P : call -> bool) (inFilepaths : list string) :
  (forall p w, existsb P (callsOf (runCase os tmpDir binaryFilepath p) w) = false) ->
  forall w, existsb P (callsOf (each inFilepaths) w) = false.
Proof.
  subst each. intros HP.
  induction inFilepaths as [|p ps IH]; intros w; cbn [eachCase]; run_simpl.
  - reflexivity.
  - now rewrite app_nil_r, existsb_app, HP, IH.
Qed.

(** A file operation failed in the loop exactly when an iteration ended
    with an error. *)
Lemma eachCase_ioFailed (inFilepaths : list string) :
  forall w,
    existsb ioFailed (callsOf (each inFilepaths) w) = true
    <-> errorsOf (valueOf (each inFilepaths) w) <> [].
Proof.
  subst each.
  induction inFilepaths as [|p ps IH]; intros w; cbn [eachCase]; run_simpl.
  - simpl. split; [discriminate | congruence].
  - rewrite app_nil_r, existsb_app.
    rewrite (case_ioFailed _ _ _ _ _ (runCase_shape os tmpDir binaryFilepath p w)).
    destruct (valueOf (runCase os tmpDir binaryFilepath p) w) as [e|r];
      cbn [errorsOf orb].
    + split; [discriminate | reflexivity].
    + apply IH.
Qed.

Lemma eachCase_infraFailed (inFilepaths : list string) :
  String.eqb binaryFilepath "go" = false ->
  forall w,
    existsb infraFailed (callsOf (each inFilepaths) w)
    = existsb ioFailed (callsOf (each inFilepaths) w).
Proof.
  subst each. intros Hbin.
  induction inFilepaths as [|p ps IH]; intros w; cbn [eachCase]; run_simpl.
  - reflexivity.
  - rewrite app_nil_r, !existsb_app, IH.
    now rewrite (case_infraFailed _ _ _ _ _ Hbin (runCase_shape os tmpDir binaryFilepath p w)).
Qed.

Lemma eachCase_errors_joined (inFilepaths : list string) :
  forall w, Forall (fun e => joined e = [e]) (errorsOf (valueOf (each inFilepaths) w)).
Proof.
  subst each.
  induction inFilepaths as [|p ps IH]; intros w; cbn [eachCase]; run_simpl.
  - constructor.
  - pose proof (runCase_shape os tmpDir binaryFilepath p w) as Hs.
    destruct (valueOf (runCase os tmpDir binaryFilepath p) w) as [e|r];
      cbn [errorsOf]; [constructor|]; try apply IH.
    eapply case_error_joined; eassumption.
Qed.

(** Every recorded result carries the path of an input file without its
    suffix, and a verdict the loop gives. *)
Lemma eachCase_recorded (inFilepaths : list string) :
  forall w r,
    In r (recordedOf (valueOf (each inFilepaths) w)) ->
    (exists p, In p inFilepaths /\ testcaseName r = strings_TrimSuffix p ".in")
    /\ given (status r) = true.
Proof.
  subst each.
  induction inFilepaths as [|p ps IH]; intros w r; cbn [eachCase]; run_simpl.
  - intros [].
  - pose proof (runCase_shape os tmpDir binaryFilepath p w) as Hs.
    destruct (valueOf (runCase os tmpDir binaryFilepath p) w) as [e|r0];
      cbn [recordedOf].
    + intros Hin. destruct (IH _ _ Hin) as [(q & Hq & Hn) Hg].
      split; [exists q; split; [now right | exact Hn] | exact Hg].
    + intros [<-|Hin].
      * destruct (case_recorded _ _ _ _ _ Hs) as [Hn Hg].
        split; [exists p; split; [now left | exact Hn] | exact Hg].
      * destruct (IH _ _ Hin) as [(q & Hq & Hn) Hg].
        split; [exists q; split; [now right | exact Hn] | exact Hg].
Qed.

End Loop.

(* ================================================================== *)
(** ** [verify] as a whole *)

Section Verify.
Variable os : OS.
Variables cacheDir buildFilename : string.

Lemma valueOf_call1 {A} (op : World os -> A * World os) (c : A -> call) (w : World os) :
  valueOf (call1 os op c) w = fst (op w).
Proof. unfold valueOf, call1. now destruct (op w). Qed.

Lemma worldAfter_call1 {A} (op : World os -> A * World os) (c : A -> call) (w : World os) :
  worldAfter (call1 os op c) w = snd (op w).
Proof. unfold worldAfter, call1. now destruct (op w). Qed.

Lemma worldAfter_call0 (op : World os -> World os) (c : call) (w : World os) :
  worldAfter (call0 os op c) w = op w.
Proof. reflexivity. Qed.

Lemma valueOf_Run (cmd : Cmd) (w : World os) :
  valueOf (Run os cmd) w = fst (cmd_Run os cmd w).
Proof. unfold valueOf, Run. now destruct (cmd_Run os cmd w) as [[err stderr] w1]. Qed.

Lemma worldAfter_Run (cmd : Cmd) (w : World os) :
  worldAfter (Run os cmd) w = snd (cmd_Run os cmd w).
Proof. unfold worldAfter, Run. now destruct (cmd_Run os cmd w) as [[err stderr] w1]. Qed.

Lemma valueOf_Lstat (root : string) (w : World os) :
  valueOf (Lstat os root) w = os_Lstat os root w.
Proof. reflexivity. Qed.

Lemma worldAfter_Lstat (root : string) (w : World os) :
  worldAfter (Lstat os root) w = w.
Proof. reflexivity. Qed.

(** The part of [verify] from the run loop on, over the input files below
    a root the walk can read. *)
Lemma verify_loop_shape (tmpDir : string) (found : WalkRoot) (w : World os) :
  let binaryFilepath := filepath_Join tmpDir "main" in
  let inFilepaths := slices_Sort (inputsOf found) in
  let rest :=
    bind (runLoop os tmpDir binaryFilepath inFilepaths None [])
         (fun looped =>
            match fst looped with
            | Some multiErr =>
                ret (mkOutcome (Some (ErrWrap "failed to run case: " multiErr ""))
                               (snd looped))
            | None =>
                bind (Info os "summary" (summaryAttrs (summarize (snd looped))))
                     (fun _ => ret (mkOutcome None (snd looped)))
            end) in
  walkable found = true ->
  VerifyShape os cacheDir buildFilename
    (valueOf rest w)
    (CMkdirTemp ".aoj-verify" "tmp" (inl tmpDir) ::
     CRun (goBuild binaryFilepath buildFilename) None ::
     CWalkDir cacheDir found ::
     callsOf rest w ++ [CRemoveAll tmpDir]).
Proof.
  intros binaryFilepath inFilepaths rest Hwalk. subst rest. run_simpl.
  destruct (runLoop_eachCase os tmpDir binaryFilepath inFilepaths None [] w)
    as (Hv & Hc & _).
  rewrite Hv, Hc. cbn [fst snd app].
  pose proof (eachCase_errors_joined os tmpDir binaryFilepath inFilepaths w) as Hj.
  destruct (joinEach None (errorsOf (valueOf (eachCase os tmpDir binaryFilepath inFilepaths) w)))
    as [multiErr|] eqn:Hm.
  - run_simpl. rewrite <- ?app_assoc, ?app_nil_r. cbn [app].
    apply (CasesFailed os cacheDir buildFilename tmpDir found w multiErr Hwalk).
    + intros Hnil. apply joinEach_none in Hnil. fold inFilepaths binaryFilepath in Hnil.
      congruence.
    + pose proof (joinEach_joined None _ Hj) as H. rewrite Hm in H. exact H.
  - run_simpl. rewrite <- ?app_assoc, ?app_nil_r. cbn [app].
    apply (Summarized os cacheDir buildFilename tmpDir found w Hwalk).
    now apply joinEach_none.
Qed.

Lemma verifyRun_shape (w : World os) :
  VerifyShape os cacheDir buildFilename
    (valueOf (verifyRun os cacheDir buildFilename) w)
    (callsOf (verifyRun os cacheDir buildFilename) w).
Proof.
  unfold verifyRun. run_simpl.
  destruct (valueOf (call1 os (os_MkdirTemp os ".aoj-verify" "tmp")
                           (CMkdirTemp ".aoj-verify" "tmp")) w) as [tmpDir|err];
    run_simpl; [|constructor].
  generalize (worldAfter (call1 os (os_MkdirTemp os ".aoj-verify" "tmp")
                                (CMkdirTemp ".aoj-verify" "tmp")) w).
  intros w1. unfold verifyIn. run_simpl.
  destruct (valueOf (Run os (goBuild (filepath_Join tmpDir "main") buildFilename)) w1)
    as [[err|] stderr];
    generalize (worldAfter (Run os (goBuild (filepath_Join tmpDir "main") buildFilename)) w1);
    intros w2; cbn [fst snd]; run_simpl; [constructor|].
  rewrite valueOf_Lstat, worldAfter_Lstat.
  destruct (walkable (os_Lstat os cacheDir w2)) eqn:Hwalk.
  - rewrite (WalkDir_walkable cacheDir _ Hwalk). cbn [fst snd].
    apply (verify_loop_shape tmpDir (os_Lstat os cacheDir w2) w2 Hwalk).
  - destruct (WalkDir_not_walkable cacheDir _ Hwalk) as (e & acc & ->).
    cbn [fst snd]. run_simpl. now constructor.
Qed.

End Verify.

(* ================================================================== *)
(** ** The iterations of the run loop, one by one *)

Section Iterations.
Variable os : OS.

Lemma iterations_eachCase (tmpDir binaryFilepath : string) (inFilepaths : list string) :
  forall w,
    map fst (iterations os tmpDir binaryFilepath inFilepaths w)
    = valueOf (eachCase os tmpDir binaryFilepath inFilepaths) w
    /\ List.concat (map snd (iterations os tmpDir binaryFilepath inFilepaths w))
       = callsOf (eachCase os tmpDir binaryFilepath inFilepaths) w.
Proof.
  induction inFilepaths as [|p ps IH]; intros w;
    cbn [iterations eachCase map List.concat fst snd].
  - split; reflexivity.
  - run_simpl.
    destruct (IH (worldAfter (runCase os tmpDir binaryFilepath p) w)) as (Hv & Hc).
    rewrite Hv, Hc, app_nil_r. split; reflexivity.
Qed.

Lemma iterations_shape (tmpDir binaryFilepath : string) (inFilepaths : list string) :
  forall w,
    Forall2 (fun inFilepath it =>
               CaseShape tmpDir binaryFilepath inFilepath (fst it) (snd it))
            inFilepaths (iterations os tmpDir binaryFilepath inFilepaths w).
Proof.
  induction inFilepaths as [|p ps IH]; intros w; cbn [iterations]; constructor.
  - apply runCase_shape.
  - apply IH.
Qed.

Lemma compare_runs_nothing (path1 path2 : string) (res : bool * goerr)
    (calls : list call) (cmd : Cmd) (err : goerr) :
  CompareShape path1 path2 res calls -> ~ In (CRun cmd err) calls.
Proof.
  intros Hs Hin. inversion Hs; subst; cbn [In] in Hin;
    repeat (destruct Hin as [Hin|Hin]; [discriminate Hin|]); exact Hin.
Qed.

(** An iteration starts by opening its input file, and the only command
    it runs is the binary, on the file it opened. *)
Lemma case_starts (tmpDir binaryFilepath inFilepath : string) (o : caseOutcome)
    (calls : list call) :
  CaseShape tmpDir binaryFilepath inFilepath o calls ->
  exists res rest,
    calls = COpen inFilepath res :: rest /\
    forall cmd err,
      In (CRun cmd err) rest ->
      exists inFile answerFile,
        res = inl inFile /\ cmd = caseRun binaryFilepath inFile answerFile.
Proof.
  inversion 1; subst; eexists; eexists; (split; [reflexivity|]);
    intros cmd err' Hin; cbn [In] in Hin;
    repeat (destruct Hin as [Hin|Hin];
            [first [discriminate Hin
                   | injection Hin as <- _; eexists; eexists; split; reflexivity]|]);
    try contradiction.
  exfalso. eapply compare_runs_nothing; eassumption.
Qed.

Lemma compare_error_source (path1 path2 : string) (equal : bool) (err : error)
    (calls : list call) :
  CompareShape path1 path2 (equal, Some err) calls ->
  exists c, filter ioFailed calls = [c] /\ fileError c = Some err.
Proof. inversion 1; subst; eexists; split; reflexivity. Qed.

(** The error of an iteration is one of the three of the loop, and wraps
    the error of the one file operation of the iteration that failed. *)
Lemma case_error_message (tmpDir binaryFilepath inFilepath : string) (e : error)
    (calls : list call) :
  CaseShape tmpDir binaryFilepath inFilepath (InfraErr e) calls ->
  exists msg err c,
    e = ErrWrap msg err "" /\
    In msg ["failed to read .in file: "; "failed to create answer file: ";
            "failed to compare files: "] /\
    filter ioFailed calls = [c] /\ fileError c = Some err.
Proof.
  inversion 1; subst.
  - eexists; eexists; eexists. split; [reflexivity|]. split; [cbn; auto|].
    split; reflexivity.
  - eexists; eexists; eexists. split; [reflexivity|]. split; [cbn; auto|].
    split; reflexivity.
  - match goal with Hc : CompareShape _ _ _ _ |- _ =>
      destruct (compare_error_source _ _ _ _ _ Hc) as (c & Hf & He) end.
    eexists; eexists; exists c. split; [reflexivity|]. split; [cbn; auto|].
    split; [exact Hf | exact He].
Qed.

(** [verify] when nothing fails before the run loop: what it returns and
    the calls it makes, by the iterations of the loop. *)
Lemma verifyRun_iterations (cacheDir buildFilename : string)
    (w : World os) (tmpDir : string) (w1 : World os) (stderr : string)
    (w2 : World os) :
  os_MkdirTemp os ".aoj-verify" "tmp" w = (inl tmpDir, w1) ->
  cmd_Run os (goBuild (filepath_Join tmpDir "main") buildFilename) w1
  = ((None, stderr), w2) ->
  walkable (os_Lstat os cacheDir w2) = true ->
  let found := os_Lstat os cacheDir w2 in
  let its := iterations os tmpDir (filepath_Join tmpDir "main")
                        (slices_Sort (inputsOf found)) w2 in
  let multiErr := joinEach None (errorsOf (map fst its)) in
  let results := recordedOf (map fst its) in
  valueOf (verifyRun os cacheDir buildFilename) w
  = mkOutcome
      (match multiErr with
       | Some e => Some (ErrWrap "failed to run case: " e "")
       | None => None
       end)
      results
  /\ callsOf (verifyRun os cacheDir buildFilename) w
     = [CMkdirTemp ".aoj-verify" "tmp" (inl tmpDir);
        CRun (goBuild (filepath_Join tmpDir "main") buildFilename) None;
        CWalkDir cacheDir found]
       ++ List.concat (map snd its)
       ++ match multiErr with
          | Some _ => []
          | None => [CLog "summary" (summaryAttrs (summarize results))]
          end
       ++ [CRemoveAll tmpDir].
Proof.
  intros Hmk Hbuild Hwalk found its multiErr results.
  destruct (iterations_eachCase tmpDir (filepath_Join tmpDir "main")
              (slices_Sort (inputsOf found)) w2) as (Hiv & Hic).
  fold its in Hiv, Hic. subst multiErr results. rewrite Hiv, Hic.
  unfold verifyRun. run_simpl.
  rewrite !valueOf_call1, !worldAfter_call1, Hmk. cbn [fst snd].
  unfold verifyIn. run_simpl.
  rewrite !valueOf_Run, !worldAfter_Run, Hbuild. cbn [fst snd]. run_simpl.
  rewrite !valueOf_Lstat, !worldAfter_Lstat, (WalkDir_walkable cacheDir _ Hwalk).
  cbn [fst snd]. run_simpl. fold found.
  destruct (runLoop_eachCase os tmpDir (filepath_Join tmpDir "main")
              (slices_Sort (inputsOf found)) None [] w2) as (Hv & Hc & _).
  rewrite Hv, Hc. cbn [fst snd app].
  destruct (joinEach None _) as [e|]; run_simpl; rewrite <- ?app_assoc;
    split; reflexivity.
Qed.

End Iterations.

(* ================================================================== *)
(** * The engine against its specification *)

(* ================================================================== *)
(** ** The verdict of a test case *)

Lemma bytes_Equal_spec (a b : list byte) : bytes_Equal a b = true <-> a = b.
Proof.
  revert b. induction a as [|x a IH]; intros [|y b]; simpl;
    try (split; [discriminate | congruence]); [tauto|].
  rewrite andb_true_iff, IH. split.
  - intros [Hxy ->]. now rewrite (Byte.byte_dec_bl x y Hxy).
  - intros H. injection H as -> ->. split; [now apply Byte.byte_dec_lb | reflexivity].
Qed.

Section CaseRuns.
Variable os : OS.

(** [filesAreEqual] when both files are opened and read. *)
Lemma filesAreEqual_read (path1 path2 : string) (w : World os) (f1 f2 : File)
    (b1 b2 : list byte) :
  let open1 := os_Open os path1 w in
  let open2 := os_Open os path2 (snd open1) in
  let read1 := io_Copy os f1 (snd open2) in
  let read2 := io_Copy os f2 (snd read1) in
  fst open1 = inl f1 -> fst open2 = inl f2 ->
  fst read1 = inl b1 -> fst read2 = inl b2 ->
  valueOf (filesAreEqual os path1 path2) w = (bytes_Equal b1 b2, None)
  /\ callsOf (filesAreEqual os path1 path2) w
     = [COpen path1 (inl f1); COpen path2 (inl f2);
        CCopy f1 (inl b1); CCopy f2 (inl b2); CClose f2; CClose f1].
Proof.
  intros open1 open2 read1 read2 H1 H2 H3 H4.
  unfold filesAreEqual. run_simpl.
  rewrite !valueOf_call1, ?worldAfter_call1. fold open1. rewrite H1. run_simpl.
  rewrite !valueOf_call1, ?worldAfter_call1. fold open2. rewrite H2. run_simpl.
  rewrite !valueOf_call1, ?worldAfter_call1. fold read1. rewrite H3. run_simpl.
  rewrite !valueOf_call1, ?worldAfter_call1. fold read2. rewrite H4. run_simpl.
  split; reflexivity.
Qed.

(** One iteration whose input file is opened and whose answer file is
    created, up to the comparison. *)
Lemma runCase_started (tmpDir binaryFilepath inFilepath : string) (w : World os)
    (inFile answerFile : File) :
  let base := strings_TrimSuffix inFilepath ".in" in
  let opens := os_Open os inFilepath w in
  let names := rand_Text os (snd opens) in
  let answerFilepath := filepath_Join tmpDir ("answer" ++ fst names)%string in
  let creates := os_Create os answerFilepath (snd names) in
  let starts := time_Now os (snd creates) in
  let runs := cmd_Run os (caseRun binaryFilepath inFile answerFile) (snd starts) in
  let stops := time_Now os (snd runs) in
  let elapsed := Int64.saturate (fst stops - fst starts) in
  let closes := file_Close os answerFile (file_Close os inFile (snd stops)) in
  let cmp := filesAreEqual os answerFilepath (base ++ ".out")%string in
  let this := runCase os tmpDir binaryFilepath inFilepath in
  let begun :=
    [COpen inFilepath (inl inFile); CRandText (fst names);
     CCreate answerFilepath (inl answerFile); CNow (fst starts);
     CRun (caseRun binaryFilepath inFile answerFile) (fst (fst runs));
     CNow (fst stops)] in
  fst opens = inl inFile ->
  fst creates = inl answerFile ->
  valueOf this w
  = match fst (fst runs) with
    | Some _ => Recorded (newRunResult base runtimeError elapsed)
    | None =>
        match snd (valueOf cmp closes) with
        | Some err => InfraErr (ErrWrap "failed to compare files: " err "")
        | None =>
            Recorded (newRunResult base
                        (if fst (valueOf cmp closes) then accepted else wrongAnswer)
                        elapsed)
        end
    end
  /\ callsOf this w
     = begun ++
       match fst (fst runs) with
       | Some _ => [caseRecord "RE" base elapsed]
       | None =>
           CClose inFile :: CClose answerFile :: callsOf cmp closes ++
           match snd (valueOf cmp closes) with
           | Some _ => []
           | None =>
               [caseRecord (if fst (valueOf cmp closes) then "AC" else "WA")
                           base elapsed]
           end
       end.
Proof.
  intros base opens names answerFilepath creates starts runs stops elapsed closes
    cmp this begun Hopen Hcreate.
  subst this begun. unfold runCase. run_simpl.
  rewrite !valueOf_call1, ?worldAfter_call1. fold opens. rewrite Hopen. run_simpl.
  rewrite !valueOf_call1, ?worldAfter_call1. fold names. fold answerFilepath.
  fold creates. rewrite Hcreate. run_simpl.
  rewrite !valueOf_call1, ?worldAfter_call1, !valueOf_Run, ?worldAfter_Run.
  fold starts. fold runs. fold stops. fold elapsed.
  destruct (fst (fst runs)) as [e|]; run_simpl; [split; reflexivity|].
  rewrite ?worldAfter_call0. fold closes. fold base. fold cmp.
  destruct (valueOf cmp closes) as [equal [err|]]; cbn [fst snd]; run_simpl.
  - rewrite app_nil_r. split; reflexivity.
  - destruct equal; run_simpl; split; reflexivity.
Qed.

End CaseRuns.

(** C1.  The verdict of a test case is fixed by what the run of the
    solution returns and by whether the two files hold the same bytes.
    Take an iteration whose input file is opened and whose answer file is
    created.  When the run of the binary returns an error, the iteration
    records [runtimeError] and compares nothing.  When the run returns nil
    and the answer file and the [.out] file are opened and read, the
    iteration records [accepted] when the bytes read are equal and
    [wrongAnswer] when they differ.  In both cases the result carries the
    time between the two clock readings around the run.  A result with the
    verdict [runtimeError] is recorded only after a run that returned an
    error. *)
Theorem verdict_by_exit_and_equality (os : OS) (tmpDir binaryFilepath inFilepath : string)
    (w : World os) (inFile answerFile : File) :
  let base := strings_TrimSuffix inFilepath ".in" in
  let opens := os_Open os inFilepath w in
  let names := rand_Text os (snd opens) in
  let answerFilepath := filepath_Join tmpDir ("answer" ++ fst names)%string in
  let creates := os_Create os answerFilepath (snd names) in
  let starts := time_Now os (snd creates) in
  let runs := cmd_Run os (caseRun binaryFilepath inFile answerFile) (snd starts) in
  let stops := time_Now os (snd runs) in
  let elapsed := Int64.saturate (fst stops - fst starts) in
  let closes := file_Close os answerFile (file_Close os inFile (snd stops)) in
  let open1 := os_Open os answerFilepath closes in
  let open2 := os_Open os (base ++ ".out")%string (snd open1) in
  let this := runCase os tmpDir binaryFilepath inFilepath in
  let begun :=
    [COpen inFilepath (inl inFile); CRandText (fst names);
     CCreate answerFilepath (inl answerFile); CNow (fst starts);
     CRun (caseRun binaryFilepath inFile answerFile) (fst (fst runs));
     CNow (fst stops)] in
  fst opens = inl inFile ->
  fst creates = inl answerFile ->
  (forall e, fst (fst runs) = Some e ->
     valueOf this w = Recorded (newRunResult base runtimeError elapsed)
     /\ callsOf this w = begun ++ [caseRecord "RE" base elapsed])
  /\ (fst (fst runs) = None ->
      forall (f1 f2 : File) (b1 b2 : list byte),
        fst open1 = inl f1 -> fst open2 = inl f2 ->
        fst (io_Copy os f1 (snd open2)) = inl b1 ->
        fst (io_Copy os f2 (snd (io_Copy os f1 (snd open2)))) = inl b2 ->
        (b1 = b2 ->
         valueOf this w = Recorded (newRunResult base accepted elapsed))
        /\ (b1 <> b2 ->
            valueOf this w = Recorded (newRunResult base wrongAnswer elapsed))
        /\ callsOf this w
           = begun ++
             [CClose inFile; CClose answerFile;
              COpen answerFilepath (inl f1); COpen (base ++ ".out")%string (inl f2);
              CCopy f1 (inl b1); CCopy f2 (inl b2); CClose f2; CClose f1;
              caseRecord (if bytes_Equal b1 b2 then "AC" else "WA") base elapsed])
  /\ (forall r, valueOf this w = Recorded r ->
        (status r = runtimeError <-> fst (fst runs) <> None)).
Proof.
  intros base opens names answerFilepath creates starts runs stops elapsed closes
    open1 open2 this begun Hopen Hcreate.
  destruct (runCase_started os tmpDir binaryFilepath inFilepath w inFile answerFile
              Hopen Hcreate) as (Hv & Hc).
  fold base opens names answerFilepath creates starts runs stops elapsed closes
    in Hv, Hc.
  fold this in Hv, Hc. fold begun in Hc.
  split; [|split].
  - intros e He. rewrite He in Hv, Hc. split; assumption.
  - intros Hnil f1 f2 b1 b2 H1 H2 H3 H4. rewrite Hnil in Hv, Hc.
    destruct (filesAreEqual_read os answerFilepath (base ++ ".out")%string closes
                f1 f2 b1 b2 H1 H2 H3 H4) as (Hcv & Hcc).
    rewrite Hcv in Hv, Hc. rewrite Hcc in Hc. cbn [fst snd] in Hv, Hc.
    split; [|split].
    + intros Hb. apply bytes_Equal_spec in Hb. now rewrite Hb in Hv.
    + intros Hb. destruct (bytes_Equal b1 b2) eqn:Hq; [|exact Hv].
      apply bytes_Equal_spec in Hq. contradiction.
    + exact Hc.
  - intros r Hr. rewrite Hr in Hv.
    destruct (fst (fst runs)) as [e|].
    + injection Hv as ->. cbn [status]. split; [discriminate | reflexivity].
    + split; [|intros H; now contradiction H].
      destruct (snd (valueOf (filesAreEqual os answerFilepath (base ++ ".out")) closes));
        [discriminate|].
      injection Hv as ->. cbn [status].
      destruct (fst (valueOf (filesAreEqual os answerFilepath (base ++ ".out")) closes));
        discriminate.
Qed.

(** On the simulated machine the first case is answered right, the second
    wrong, and the third makes the solution fail. *)
Lemma verdict_by_exit_and_equality_witness :
  let this := runCase Sim.os "tmp" "tmp/main" in
  valueOf (this "cache/case1.in") Sim.threeCases
  = Recorded (newRunResult "cache/case1" accepted 2000000) /\
  valueOf (this "cache/case2.in") Sim.threeCases
  = Recorded (newRunResult "cache/case2" wrongAnswer 3000000) /\
  valueOf (this "cache/case3.in") Sim.threeCases
  = Recorded (newRunResult "cache/case3" runtimeError 500) /\
  callsOf (this "cache/case3.in") Sim.threeCases
  = [COpen "cache/case3.in" (inl 0%nat); CRandText "A";
     CCreate "tmp/answerA" (inl 1%nat); CNow 0;
     CRun (caseRun "tmp/main" 0%nat 1%nat) (Some Sim.exitStatus1); CNow 500;
     caseRecord "RE" "cache/case3" 500].
Proof.
  intros this.
  assert (Hopen : forall p, In p ["cache/case1.in"; "cache/case2.in"; "cache/case3.in"] ->
                    fst (os_Open Sim.os p Sim.threeCases) = inl 0%nat).
  { intros p [<-|[<-|[<-|[]]]]; reflexivity. }
  assert (Hcreate : forall p, In p ["cache/case1.in"; "cache/case2.in"; "cache/case3.in"] ->
                      fst (os_Create Sim.os
                             (filepath_Join "tmp"
                                ("answer" ++ fst (rand_Text Sim.os
                                                    (snd (os_Open Sim.os p Sim.threeCases)))))
                             (snd (rand_Text Sim.os (snd (os_Open Sim.os p Sim.threeCases)))))
                      = inl 1%nat).
  { intros p [<-|[<-|[<-|[]]]]; reflexivity. }
  destruct (verdict_by_exit_and_equality Sim.os "tmp" "tmp/main" "cache/case1.in"
              Sim.threeCases 0%nat 1%nat
              (Hopen _ (or_introl eq_refl)) (Hcreate _ (or_introl eq_refl)))
    as (_ & Hjudged1 & _).
  destruct (verdict_by_exit_and_equality Sim.os "tmp" "tmp/main" "cache/case2.in"
              Sim.threeCases 0%nat 1%nat
              (Hopen _ (or_intror (or_introl eq_refl)))
              (Hcreate _ (or_intror (or_introl eq_refl))))
    as (_ & Hjudged2 & _).
  destruct (verdict_by_exit_and_equality Sim.os "tmp" "tmp/main" "cache/case3.in"
              Sim.threeCases 0%nat 1%nat
              (Hopen _ (or_intror (or_intror (or_introl eq_refl))))
              (Hcreate _ (or_intror (or_intror (or_introl eq_refl)))))
    as (Hfailed3 & _).
  split; [|split].
  - destruct (Hjudged1 eq_refl 2%nat 3%nat (Sim.bytes "12") (Sim.bytes "12")
                eq_refl eq_refl eq_refl eq_refl) as (Hac & _).
    exact (Hac eq_refl).
  - destruct (Hjudged2 eq_refl 2%nat 3%nat (Sim.bytes "345") (Sim.bytes "346")
                eq_refl eq_refl eq_refl eq_refl) as (_ & Hwa & _).
    apply Hwa. discriminate.
  - exact (Hfailed3 Sim.exitStatus1 eq_refl).
Defined.

(* ================================================================== *)
(** ** The counts of the summary *)

(** C5.  For a list of results that is as long as a Go slice can be, each
    counter of the summary is the number of results with its verdict, so the
    four counters add up to the number of results whose verdict is not
    [unknown]: to the length of the list when it holds only the four counted
    verdicts.  A result with the verdict [unknown] is counted nowhere:
    taking it out of the list changes none of the four counters. *)
Theorem summary_counts_partition (rs : list runResult) :
  Z.of_nat (List.length rs) <= Int64.max_int ->
  counts (summarize rs)
  = (Z.of_nat (countOf accepted rs), Z.of_nat (countOf wrongAnswer rs),
     Z.of_nat (countOf timeLimitExceeded rs), Z.of_nat (countOf runtimeError rs))
  /\ countsTotal (summarize rs) = Z.of_nat (List.length (filter known rs))
  /\ (Forall (fun r => status r = accepted \/ status r = wrongAnswer \/
                       status r = timeLimitExceeded \/ status r = runtimeError) rs ->
      countsTotal (summarize rs) = Z.of_nat (List.length rs))
  /\ (forall l1 v l2,
         rs = l1 ++ v :: l2 -> status v = unknown ->
         counts (summarize rs) = counts (summarize (l1 ++ l2))).
Proof.
  intros Hlen.
  destruct (fold_counts rs summary0) as (Hac & Hwa & Htle & Hre).
  fold (summarize rs) in Hac, Hwa, Htle, Hre. simpl in Hac, Hwa, Htle, Hre.
  assert (Hsmall : forall st, Z.of_nat (countOf st rs) <= Int64.max_int).
  { intros st. pose proof (countOf_le st rs). lia. }
  rewrite iter_incr in Hac, Hwa, Htle, Hre by apply Hsmall.
  assert (Htotal : countsTotal (summarize rs) = Z.of_nat (List.length (filter known rs))).
  { unfold countsTotal. rewrite Hac, Hwa, Htle, Hre, <- countOf_sum. lia. }
  split; [unfold counts; now rewrite Hac, Hwa, Htle, Hre|].
  split; [exact Htotal|]. split.
  - intros Hall. rewrite Htotal, filter_known_all; [reflexivity|].
    eapply Forall_impl; [|exact Hall]. simpl. intros r [H|[H|[H|H]]]; rewrite H; discriminate.
  - intros l1 v l2 -> Hv.
    destruct (fold_counts (l1 ++ v :: l2) summary0) as (Hac1 & Hwa1 & Htle1 & Hre1).
    destruct (fold_counts (l1 ++ l2) summary0) as (Hac2 & Hwa2 & Htle2 & Hre2).
    unfold counts, summarize.
    rewrite Hac1, Hwa1, Htle1, Hre1, Hac2, Hwa2, Htle2, Hre2.
    rewrite !(countOf_drop _ l1 l2 v Hv) by discriminate. reflexivity.
Qed.

(** Three results with three verdicts and one with none. *)
Lemma summary_counts_partition_witness :
  let rs := [newRunResult "a" accepted 5; newRunResult "b" unknown 9;
             newRunResult "c" wrongAnswer 7; newRunResult "d" runtimeError 1] in
  Z.of_nat (List.length rs) <= Int64.max_int /\
  counts (summarize rs) = (1, 1, 0, 1) /\
  countsTotal (summarize rs) = 3.
Proof.
  intros rs.
  assert (H : Z.of_nat (List.length rs) <= Int64.max_int) by (vm_compute; discriminate).
  split; [exact H|].
  destruct (summary_counts_partition rs H) as (Hc & Ht & _).
  split; [exact Hc | exact Ht].
Defined.

(* ================================================================== *)
(** ** The slowest case *)

(** C6, as the specification has it, fails on a list of one result that
    took no time: the durations are distinct and the result has the greatest
    one, yet the summary names no case, because the fold starts from the
    duration zero and replaces only on a strictly greater one. *)
Lemma slowest_zero_duration_counterexample :
  let r := newRunResult "case1" accepted 0 in
  let rs := [r] in
  rs <> [] /\ NoDup (map execTime rs) /\ In r rs /\
  (forall x, In x rs -> execTime x <= execTime r) /\
  slowestTestcaseName (summarize rs) = "" /\
  slowestTestcaseName (summarize rs) <> testcaseName r.
Proof.
  intros r rs. repeat split.
  - discriminate.
  - constructor; [intros [] | constructor].
  - now left.
  - intros x [<-|[]]. simpl. lia.
  - discriminate.
Qed.

(** C6, amended.  When some result took more than no time, the summary
    reports the first result, in the order of the list, whose duration is
    the greatest: every result before it is strictly faster and no result
    after it is slower.  With distinct durations that is the one result
    with the greatest duration. *)
Theorem slowest_first_maximum (rs : list runResult) :
  (exists x, In x rs /\ 0 < execTime x) ->
  exists l1 r l2,
    rs = l1 ++ r :: l2 /\
    Forall (fun x => execTime x < execTime r) l1 /\
    Forall (fun x => execTime x <= execTime r) l2 /\
    slowestTime (summarize rs) = execTime r /\
    slowestTestcaseName (summarize rs) = testcaseName r.
Proof.
  intros (x & Hin & Hpos).
  pose proof (slowestOf_fold rs summary0) as Hfold.
  fold (summarize rs) in Hfold. change (slowestOf summary0) with (0, "") in Hfold.
  destruct (slowStep_fold rs 0 "") as [[Hall _] | (l1 & r & l2 & Hrs & _ & H1 & H2 & Heq)].
  - rewrite Forall_forall in Hall. specialize (Hall x Hin). lia.
  - exists l1, r, l2. rewrite Heq in Hfold. unfold slowestOf in Hfold.
    injection Hfold as Ht Hn. auto.
Qed.

(** Two results share the greatest duration; the first of them is
    reported. *)
Lemma slowest_first_maximum_witness :
  let rs := [newRunResult "a" accepted 3; newRunResult "b" wrongAnswer 8;
             newRunResult "c" accepted 8; newRunResult "d" runtimeError 2] in
  (exists x, In x rs /\ 0 < execTime x) /\
  slowestOf (summarize rs) = (8, "b") /\
  exists l1 r l2,
    rs = l1 ++ r :: l2 /\
    Forall (fun x => execTime x < execTime r) l1 /\
    Forall (fun x => execTime x <= execTime r) l2 /\
    slowestTime (summarize rs) = execTime r /\
    slowestTestcaseName (summarize rs) = testcaseName r.
Proof.
  intros rs.
  assert (H : exists x, In x rs /\ 0 < execTime x).
  { exists (newRunResult "a" accepted 3). split; [now left | reflexivity]. }
  split; [exact H|]. split; [reflexivity|].
  exact (slowest_first_maximum rs H).
Defined.

(* ================================================================== *)
(** ** Failures of [verify] *)

Section Failures.
Variable os : OS.

Lemma main_is_not_go (tmpDir : string) :
  String.eqb (filepath_Join tmpDir "main") "go" = false.
Proof.
  destruct (Join_suffix tmpDir "") as (before & Hb).
  change (filepath_Join tmpDir "main") with (filepath_Join tmpDir ("" ++ "main")).
  rewrite (Hb "main") by (try reflexivity; simpl; lia).
  apply String.eqb_neq. intros H. apply (f_equal String.length) in H.
  rewrite length_app in H. simpl in H. lia.
Qed.

Lemma infraFailed_split (c : call) : infraFailed c = setupFailed c || ioFailed c.
Proof.
  destruct c as [dir pat [d|e] | path | cmd [e|] | root found | path [f|e]
                 | path [f|e] | f | f [b|e] | s | t | msg attrs];
    cbn; unfold isBuild; rewrite ?orb_false_r; reflexivity.
Qed.

Lemma compare_failures (path1 path2 : string) (res : bool * goerr) (calls : list call) :
  CompareShape path1 path2 res calls ->
  List.length (filter ioFailed calls)
  = match snd res with Some _ => 1%nat | None => 0%nat end.
Proof. inversion 1; reflexivity. Qed.

(** An iteration that ends with an error has exactly one failed file
    operation. *)
Lemma case_failures (tmpDir binaryFilepath inFilepath : string) (o : caseOutcome)
    (calls : list call) :
  CaseShape tmpDir binaryFilepath inFilepath o calls ->
  List.length (filter ioFailed calls)
  = match o with InfraErr _ => 1%nat | Recorded _ => 0%nat end.
Proof.
  inversion 1; subst; try reflexivity.
  cbn. match goal with H : CompareShape _ _ _ _ |- _ =>
         now rewrite (compare_failures _ _ _ _ H) end.
Qed.

Lemma eachCase_failures (tmpDir binaryFilepath : string) (inFilepaths : list string) :
  forall w,
    List.length (filter ioFailed (callsOf (eachCase os tmpDir binaryFilepath inFilepaths) w))
    = List.length (errorsOf (valueOf (eachCase os tmpDir binaryFilepath inFilepaths) w)).
Proof.
  induction inFilepaths as [|p ps IH]; intros w; cbn [eachCase]; run_simpl.
  - reflexivity.
  - rewrite app_nil_r, filter_app, List.length_app, IH.
    rewrite (case_failures _ _ _ _ _ (runCase_shape os tmpDir binaryFilepath p w)).
    destruct (valueOf (runCase os tmpDir binaryFilepath p) w); reflexivity.
Qed.

Lemma eachCase_no_summary (tmpDir binaryFilepath : string) (inFilepaths : list string)
    (w : World os) :
  existsb isSummary (callsOf (eachCase os tmpDir binaryFilepath inFilepaths) w) = false.
Proof.
  apply eachCase_calls. intros p w'.
  eapply case_no_summary. apply runCase_shape.
Qed.

Lemma compare_no_setup_failure (path1 path2 : string) (res : bool * goerr)
    (calls : list call) :
  CompareShape path1 path2 res calls -> existsb setupFailed calls = false.
Proof. inversion 1; reflexivity. Qed.

Lemma case_no_setup_failure (tmpDir binaryFilepath inFilepath : string)
    (o : caseOutcome) (calls : list call) :
  String.eqb binaryFilepath "go" = false ->
  CaseShape tmpDir binaryFilepath inFilepath o calls ->
  existsb setupFailed calls = false.
Proof.
  intros Hbin. inversion 1; subst; cbn [existsb setupFailed caseRun Name orb];
    rewrite ?Hbin; try reflexivity.
  eapply compare_no_setup_failure; eassumption.
Qed.

Lemma eachCase_no_setup_failure (tmpDir : string) (inFilepaths : list string)
    (w : World os) :
  existsb setupFailed
    (callsOf (eachCase os tmpDir (filepath_Join tmpDir "main") inFilepaths) w) = false.
Proof.
  apply eachCase_calls. intros p w'.
  eapply case_no_setup_failure; [apply main_is_not_go | apply runCase_shape].
Qed.

Lemma tle_zero (rs : list runResult) :
  Forall (fun r => given (status r) = true) rs -> tleCount (summarize rs) = 0.
Proof.
  intros H.
  assert (Hz : countOf timeLimitExceeded rs = 0%nat).
  { unfold countOf. induction H as [|r rs Hr _ IH]; simpl; [reflexivity|].
    destruct (status r); simpl in *; try discriminate; exact IH. }
  destruct (fold_counts rs summary0) as (_ & _ & Htle & _).
  fold (summarize rs) in Htle. now rewrite Htle, Hz.
Qed.

End Failures.

(* ================================================================== *)
(** ** No verdict on time *)

(** C8.  Every result [verify] holds when it returns has the verdict
    [accepted], [wrongAnswer] or [runtimeError], never [timeLimitExceeded],
    and every summary record it writes has the TLE count zero. *)
Theorem no_time_limit_exceeded (os : OS) (cacheDir buildFilename : string)
    (w : World os) :
  Forall (fun r => status r = accepted \/ status r = wrongAnswer \/
                   status r = runtimeError)
         (runResults (valueOf (verifyRun os cacheDir buildFilename) w))
  /\ forall attrs,
       In (CLog "summary" attrs) (callsOf (verifyRun os cacheDir buildFilename) w) ->
       In ("TLE count", AInt 0) attrs.
Proof.
  assert (Hgiven : forall tmpDir bin ps (w' : World os),
             Forall (fun r => given (status r) = true)
                    (recordedOf (valueOf (eachCase os tmpDir bin ps) w'))).
  { intros. apply Forall_forall. intros r Hin.
    now destruct (eachCase_recorded os _ _ _ _ _ Hin). }
  assert (Hthree : forall rs, Forall (fun r => given (status r) = true) rs ->
             Forall (fun r => status r = accepted \/ status r = wrongAnswer \/
                              status r = runtimeError) rs).
  { intros rs H. eapply Forall_impl; [|exact H]. simpl. intros r Hr.
    destruct (status r); simpl in Hr; try discriminate; auto. }
  assert (Hlog : forall tmpDir bin ps (w' : World os) attrs,
             ~ In (CLog "summary" attrs) (callsOf (eachCase os tmpDir bin ps) w')).
  { intros tmpDir bin ps w' attrs Hin.
    pose proof (eachCase_no_summary os tmpDir bin ps w') as Hno.
    assert (Hyes : existsb isSummary (callsOf (eachCase os tmpDir bin ps) w') = true)
      by (apply existsb_exists; eexists; split; [exact Hin | reflexivity]).
    congruence. }
  pose proof (verifyRun_shape os cacheDir buildFilename w) as Hs.
  inversion Hs as [err Ho Hc | tmpDir err stderr Ho Hc | tmpDir found err Hw Ho Hc
                   | tmpDir found w' multiErr each Hw He Hj Ho Hc
                   | tmpDir found w' each Hw He Ho Hc];
    cbn [runResults].
  - split; [constructor|]. intros attrs [H|[]]; discriminate.
  - split; [constructor|]. intros attrs [H|[H|[H|[]]]]; discriminate.
  - split; [constructor|]. intros attrs [H|[H|[H|[H|[]]]]]; discriminate.
  - subst each. split; [apply Hthree, Hgiven|].
    intros attrs [H|[H|[H|H]]]; try discriminate.
    apply in_app_or in H as [H|[H|[]]]; [|discriminate]. now apply Hlog in H.
  - subst each. split; [apply Hthree, Hgiven|].
    intros attrs [H|[H|[H|H]]]; try discriminate.
    apply in_app_or in H as [H|[H|[H|[]]]]; [now apply Hlog in H| |discriminate].
    injection H as <-. unfold summaryAttrs.
    rewrite (tle_zero _ (Hgiven _ _ _ _)). simpl. tauto.
Qed.

(** C2.  [verify] returns an error exactly when an infrastructure error
    occurred among its calls: no temporary directory, a failed build, a
    failed walk, or a failed file operation of a test case (input not opened,
    answer file not created, a file to compare not opened or not read).  It
    writes the summary record exactly when it returns nil, whatever the
    verdicts are.

    When nothing fails before the run loop, every input file gets its
    iteration, in order, each in the world the one before left, also after
    an iteration that failed: the calls of [verify] after the walk are the
    calls of all of them.  An iteration ends with an error exactly when one
    of its file operations failed; it is then the only one that failed in
    the iteration, and the error of the iteration wraps the error it
    returned under one of the three messages of the loop.  When no
    iteration ended with an error, [verify] writes the summary and returns
    nil, whatever the verdicts.  Otherwise it writes no summary, and the
    error it returns wraps [multiErr], which holds the errors of all the
    failed iterations, in the order of the loop.  In both cases it holds
    the results of the iterations that recorded one. *)
Theorem failure_iff_infrastructure_error (os : OS) (cacheDir buildFilename : string)
    (w : World os) :
  let run := verifyRun os cacheDir buildFilename in
  let calls := callsOf run w in
  (verify os cacheDir buildFilename w <> None <-> existsb infraFailed calls = true)
  /\ (verify os cacheDir buildFilename w = None <-> existsb isSummary calls = true)
  /\ (forall (tmpDir : string) (w1 : World os) (stderr : string) (w2 : World os),
        os_MkdirTemp os ".aoj-verify" "tmp" w = (inl tmpDir, w1) ->
        cmd_Run os (goBuild (filepath_Join tmpDir "main") buildFilename) w1
        = ((None, stderr), w2) ->
        walkable (os_Lstat os cacheDir w2) = true ->
        let binaryFilepath := filepath_Join tmpDir "main" in
        let inFilepaths := slices_Sort (inputsOf (os_Lstat os cacheDir w2)) in
        let its := iterations os tmpDir binaryFilepath inFilepaths w2 in
        let errs := errorsOf (map fst its) in
        let results := recordedOf (map fst its) in
        let before :=
          [CMkdirTemp ".aoj-verify" "tmp" (inl tmpDir);
           CRun (goBuild binaryFilepath buildFilename) None;
           CWalkDir cacheDir (os_Lstat os cacheDir w2)] in
        Forall2 (fun inFilepath it =>
                   (exists res rest,
                       snd it = COpen inFilepath res :: rest /\
                       forall cmd err,
                         In (CRun cmd err) rest ->
                         exists inFile answerFile,
                           res = inl inFile /\
                           cmd = caseRun binaryFilepath inFile answerFile) /\
                   match fst it with
                   | InfraErr e =>
                       exists msg err c,
                         e = ErrWrap msg err "" /\
                         In msg ["failed to read .in file: ";
                                 "failed to create answer file: ";
                                 "failed to compare files: "] /\
                         filter ioFailed (snd it) = [c] /\ fileError c = Some err
                   | Recorded _ => filter ioFailed (snd it) = []
                   end)
                inFilepaths its
        /\ runResults (valueOf run w) = results
        /\ (errs = [] ->
            verify os cacheDir buildFilename w = None /\
            calls = before ++ List.concat (map snd its)
                    ++ [CLog "summary" (summaryAttrs (summarize results));
                        CRemoveAll tmpDir])
        /\ (errs <> [] ->
            exists multiErr,
              verify os cacheDir buildFilename w
              = Some (ErrWrap "failed to run case: " multiErr "") /\
              joined multiErr = errs /\
              calls = before ++ List.concat (map snd its) ++ [CRemoveAll tmpDir]))
  /\ (existsb setupFailed calls = false ->
      forall e, verify os cacheDir buildFilename w = Some e ->
      exists multiErr,
        e = ErrWrap "failed to run case: " multiErr "" /\
        List.length (joined multiErr) = List.length (filter ioFailed calls)).
Proof.
  intros run calls.
  assert (Hloop : forall (tmpDir : string) (w1 : World os) (stderr : string) (w2 : World os),
        os_MkdirTemp os ".aoj-verify" "tmp" w = (inl tmpDir, w1) ->
        cmd_Run os (goBuild (filepath_Join tmpDir "main") buildFilename) w1
        = ((None, stderr), w2) ->
        walkable (os_Lstat os cacheDir w2) = true ->
        let binaryFilepath := filepath_Join tmpDir "main" in
        let inFilepaths := slices_Sort (inputsOf (os_Lstat os cacheDir w2)) in
        let its := iterations os tmpDir binaryFilepath inFilepaths w2 in
        let errs := errorsOf (map fst its) in
        let results := recordedOf (map fst its) in
        let before :=
          [CMkdirTemp ".aoj-verify" "tmp" (inl tmpDir);
           CRun (goBuild binaryFilepath buildFilename) None;
           CWalkDir cacheDir (os_Lstat os cacheDir w2)] in
        Forall2 (fun inFilepath it =>
                   (exists res rest,
                       snd it = COpen inFilepath res :: rest /\
                       forall cmd err,
                         In (CRun cmd err) rest ->
                         exists inFile answerFile,
                           res = inl inFile /\
                           cmd = caseRun binaryFilepath inFile answerFile) /\
                   match fst it with
                   | InfraErr e =>
                       exists msg err c,
                         e = ErrWrap msg err "" /\
                         In msg ["failed to read .in file: ";
                                 "failed to create answer file: ";
                                 "failed to compare files: "] /\
                         filter ioFailed (snd it) = [c] /\ fileError c = Some err
                   | Recorded _ => filter ioFailed (snd it) = []
                   end)
                inFilepaths its
        /\ runResults (valueOf run w) = results
        /\ (errs = [] ->
            verify os cacheDir buildFilename w = None /\
            calls = before ++ List.concat (map snd its)
                    ++ [CLog "summary" (summaryAttrs (summarize results));
                        CRemoveAll tmpDir])
        /\ (errs <> [] ->
            exists multiErr,
              verify os cacheDir buildFilename w
              = Some (ErrWrap "failed to run case: " multiErr "") /\
              joined multiErr = errs /\
              calls = before ++ List.concat (map snd its) ++ [CRemoveAll tmpDir])).
  { intros tmpDir w1 stderr w2 Hmk Hbuild Hwalk binaryFilepath inFilepaths its errs
      results before.
    destruct (verifyRun_iterations os cacheDir buildFilename w tmpDir w1 stderr w2
                Hmk Hbuild Hwalk) as (Hv & Hc).
    fold binaryFilepath inFilepaths in Hv, Hc. fold its in Hv, Hc.
    fold errs results in Hv, Hc. fold run in Hv, Hc. fold calls in Hc.
    assert (Hjoined : Forall (fun e => joined e = [e]) errs).
    { subst errs its.
      destruct (iterations_eachCase os tmpDir binaryFilepath inFilepaths w2) as (-> & _).
      apply eachCase_errors_joined. }
    split; [|split; [|split]].
    - pose proof (iterations_shape os tmpDir binaryFilepath inFilepaths w2) as Hshape.
      fold its in Hshape. eapply Forall2_impl; [|exact Hshape].
      intros p [o block] Hs. cbn [fst snd] in *. split.
      + eapply case_starts; exact Hs.
      + destruct o as [e|r].
        * eapply case_error_message; exact Hs.
        * pose proof (case_failures _ _ _ _ _ Hs) as Hlen. cbn in Hlen.
          now apply length_zero_iff_nil.
    - now rewrite Hv.
    - intros Hnil. unfold verify.
      change (fst (fst (verifyRun os cacheDir buildFilename w))) with (valueOf run w).
      rewrite Hv, Hc, Hnil. cbn [joinEach fold_left returned]. split; reflexivity.
    - intros Herrs.
      destruct (joinEach None errs) as [multiErr|] eqn:Hm;
        [|apply joinEach_none in Hm; contradiction].
      exists multiErr. unfold verify.
      change (fst (fst (verifyRun os cacheDir buildFilename w))) with (valueOf run w).
      rewrite Hv, Hc.
      cbn [returned app]. split; [reflexivity|]. split; [|reflexivity].
      pose proof (joinEach_joined None errs Hjoined) as Hj. now rewrite Hm in Hj. }
  split; [|split; [|split; [exact Hloop|]]].
  all: clear Hloop; subst run calls; unfold verify;
    fold (valueOf (verifyRun os cacheDir buildFilename) w);
    pose proof (verifyRun_shape os cacheDir buildFilename w) as Hs;
    inversion Hs as [err Ho Hc | tmpDir err stderr Ho Hc | tmpDir found err Hw Ho Hc
                     | tmpDir found w' multiErr each Hw He Hj Ho Hc
                     | tmpDir found w' each Hw He Ho Hc];
    cbn [returned].
  - split; [reflexivity | discriminate].
  - split; [reflexivity | discriminate].
  - split; [intros _; cbn; now rewrite Hw | discriminate].
  - assert (Hio : existsb ioFailed (callsOf each w') = true)
      by (apply eachCase_ioFailed; exact He).
    split; [intros _ | discriminate].
    cbn [existsb infraFailed isBuild goBuild Name ioFailed orb].
    rewrite Hw, existsb_app. cbn [negb orb].
    subst each. rewrite (eachCase_infraFailed os tmpDir _ _ (main_is_not_go tmpDir)).
    now rewrite Hio.
  - assert (Hio : existsb ioFailed (callsOf each w') = false).
    { destruct (existsb ioFailed (callsOf each w')) eqn:Hex; [|reflexivity].
      apply eachCase_ioFailed in Hex. contradiction. }
    split; [congruence|].
    cbn [existsb infraFailed isBuild goBuild Name ioFailed orb].
    rewrite Hw, existsb_app. cbn [negb orb].
    subst each. rewrite (eachCase_infraFailed os tmpDir _ _ (main_is_not_go tmpDir)).
    rewrite Hio. cbn. discriminate.
  - split; discriminate.
  - split; discriminate.
  - split; discriminate.
  - split; [discriminate|].
    cbn [existsb isSummary orb]. rewrite existsb_app.
    subst each. rewrite eachCase_no_summary. discriminate.
  - split; [intros _ | reflexivity].
    cbn [existsb isSummary orb]. rewrite existsb_app. cbn.
    now rewrite orb_true_r.
  - discriminate.
  - discriminate.
  - cbn. rewrite Hw. discriminate.
  - intros _ e [= <-]. exists multiErr. split; [reflexivity|].
    cbn [filter ioFailed]. rewrite filter_app, List.length_app. cbn [filter ioFailed].
    subst each. rewrite eachCase_failures, Hj. cbn. lia.
  - intros _ e. discriminate.
Qed.

(** On the simulated machine the expected outputs of the second and of the
    third case are missing.  Nothing fails before the loop; all three cases
    are run; [verify] returns the two errors joined, in order, holds the
    result of the first case and writes no summary. *)
Lemma failure_iff_infrastructure_error_witness :
  let w := Sim.twoMissingOut in
  let tmpDir := ".aoj-verify/tmp0" in
  let w1 := Sim.setDirs [".aoj-verify"; "cache"; tmpDir] w in
  let run := verifyRun Sim.os "cache" "main.go" in
  let missing := fun path =>
    ErrWrap "failed to compare files: " (Sim.noEnt "open" path) "" in
  os_MkdirTemp Sim.os ".aoj-verify" "tmp" w = (inl tmpDir, w1) /\
  cmd_Run Sim.os (goBuild (filepath_Join tmpDir "main") "main.go") w1
  = ((None, ""), w1) /\
  walkable (os_Lstat Sim.os "cache" w1) = true /\
  (exists multiErr,
      verify Sim.os "cache" "main.go" w
      = Some (ErrWrap "failed to run case: " multiErr "") /\
      joined multiErr = [missing "cache/case2.out"; missing "cache/case3.out"]) /\
  runResults (valueOf run w) = [newRunResult "cache/case1" accepted 2000000] /\
  List.length (filter isCaseRun (callsOf run w)) = 3%nat /\
  existsb isSummary (callsOf run w) = false.
Proof.
  intros w tmpDir w1 run missing.
  assert (Hmk : os_MkdirTemp Sim.os ".aoj-verify" "tmp" w = (inl tmpDir, w1))
    by reflexivity.
  assert (Hbuild : cmd_Run Sim.os (goBuild (filepath_Join tmpDir "main") "main.go") w1
                   = ((None, ""), w1)) by reflexivity.
  assert (Hwalk : walkable (os_Lstat Sim.os "cache" w1) = true) by reflexivity.
  assert (Herrs : errorsOf
                    (map fst
                       (iterations Sim.os tmpDir (filepath_Join tmpDir "main")
                          (slices_Sort (inputsOf (os_Lstat Sim.os "cache" w1))) w1))
                  = [missing "cache/case2.out"; missing "cache/case3.out"])
    by (vm_compute; reflexivity).
  assert (Hresults : runResults (valueOf run w)
                     = [newRunResult "cache/case1" accepted 2000000])
    by (vm_compute; reflexivity).
  assert (Hruns : List.length (filter isCaseRun (callsOf run w)) = 3%nat)
    by (vm_compute; reflexivity).
  assert (Hsummary : existsb isSummary (callsOf run w) = false)
    by (vm_compute; reflexivity).
  split; [exact Hmk|]. split; [exact Hbuild|]. split; [exact Hwalk|].
  split; [|split; [exact Hresults|split; [exact Hruns | exact Hsummary]]].
  destruct (failure_iff_infrastructure_error Sim.os "cache" "main.go" w)
    as (_ & _ & Hloop & _).
  destruct (Hloop tmpDir w1 "" w1 Hmk Hbuild Hwalk) as (_ & _ & _ & Hfailed).
  destruct Hfailed as (multiErr & Hv & Hj & _).
  { rewrite Herrs. discriminate. }
  exists multiErr. split; [exact Hv|]. rewrite Hj. exact Herrs.
Defined.

(* ================================================================== *)
(** ** Before the run loop *)

(** C3.  When the temporary directory is made and the build fails,
    [verify] returns an error whose text ends with what the toolchain wrote
    to its standard error, it holds no result, and its calls are the three
    listed: the walk and the run loop are not reached and the solution is
    never started. *)
Theorem build_failure_aborts (os : OS) (cacheDir buildFilename : string)
    (w : World os) (tmpDir : string) (w1 : World os)
    (err : error) (stderr : string) (w2 : World os) :
  os_MkdirTemp os ".aoj-verify" "tmp" w = (inl tmpDir, w1) ->
  cmd_Run os (goBuild (filepath_Join tmpDir "main") buildFilename) w1
  = ((Some err, stderr), w2) ->
  let run := verifyRun os cacheDir buildFilename in
  (exists e,
      verify os cacheDir buildFilename w = Some e /\
      Error e = ("failed to build go file: " ++ Error err ++ String "010" stderr)%string)
  /\ runResults (valueOf run w) = []
  /\ callsOf run w
     = [CMkdirTemp ".aoj-verify" "tmp" (inl tmpDir);
        CRun (goBuild (filepath_Join tmpDir "main") buildFilename) (Some err);
        CRemoveAll tmpDir]
  /\ existsb isCaseRun (callsOf run w) = false.
Proof.
  intros Hmk Hbuild run. subst run.
  assert (Hrun : verifyRun os cacheDir buildFilename w
                 = ((mkOutcome
                       (Some (ErrWrap "failed to build go file: " err (String "010" stderr)))
                       [],
                     [CMkdirTemp ".aoj-verify" "tmp" (inl tmpDir);
                      CRun (goBuild (filepath_Join tmpDir "main") buildFilename) (Some err);
                      CRemoveAll tmpDir]),
                    os_RemoveAll os tmpDir w2)).
  { unfold verifyRun, defer, bind, MkdirTemp, RemoveAll, call1, call0.
    rewrite Hmk. unfold verifyIn, bind, Run. rewrite Hbuild. reflexivity. }
  unfold verify, valueOf, callsOf. rewrite Hrun. cbn [fst snd returned runResults].
  split; [eexists; split; reflexivity|]. repeat split.
Qed.

(** On the simulated machine with a solution that does not compile. *)
Lemma build_failure_aborts_witness :
  let w := Sim.brokenBuild in
  let tmpDir := ".aoj-verify/tmp0" in
  let run := verifyRun Sim.os "cache" "main.go" in
  os_MkdirTemp Sim.os ".aoj-verify" "tmp" w
  = (inl tmpDir, Sim.setDirs [".aoj-verify"; "cache"; tmpDir] w) /\
  (exists e,
      verify Sim.os "cache" "main.go" w = Some e /\
      Error e = ("failed to build go file: " ++ "exit status 1"
                 ++ String "010" "./main.go:3:1: syntax error")%string)
  /\ runResults (valueOf run w) = []
  /\ existsb isCaseRun (callsOf run w) = false.
Proof.
  intros w tmpDir run.
  assert (Hmk : os_MkdirTemp Sim.os ".aoj-verify" "tmp" w
                = (inl tmpDir, Sim.setDirs [".aoj-verify"; "cache"; tmpDir] w))
    by reflexivity.
  split; [exact Hmk|].
  destruct (build_failure_aborts Sim.os "cache" "main.go" w tmpDir _
              Sim.exitStatus1 "./main.go:3:1: syntax error" _ Hmk eq_refl)
    as (He & Hr & _ & Hn).
  split; [exact He|]. split; [exact Hr | exact Hn].
Defined.

(** C9.  [verify] asks [os.MkdirTemp] for a directory below the relative
    path [.aoj-verify].  When that directory is missing, [verify] returns
    the error of that call, wrapped, and the call is the only one it makes:
    nothing is built, nothing is run, and nothing creates the directory,
    which is still missing afterwards. *)
Theorem missing_parent_directory (os : OS) (cacheDir buildFilename : string)
    (w : World os) :
  MkdirTemp_makes_no_parent os ->
  dirExists os ".aoj-verify" w = false ->
  let run := verifyRun os cacheDir buildFilename in
  (exists e,
      verify os cacheDir buildFilename w
      = Some (ErrWrap "failed to temporally directory: " e "") /\
      callsOf run w = [CMkdirTemp ".aoj-verify" "tmp" (inr e)])
  /\ runResults (valueOf run w) = []
  /\ dirExists os ".aoj-verify" (worldAfter run w) = false.
Proof.
  intros Hlaw Hmissing run. subst run.
  destruct (Hlaw ".aoj-verify" "tmp" w) as (e & w' & Hmk & Hstill);
    [discriminate | exact Hmissing |].
  assert (Hrun : verifyRun os cacheDir buildFilename w
                 = ((mkOutcome (Some (ErrWrap "failed to temporally directory: " e "")) [],
                     [CMkdirTemp ".aoj-verify" "tmp" (inr e)]), w')).
  { unfold verifyRun, bind, MkdirTemp, call1. rewrite Hmk. reflexivity. }
  unfold verify, valueOf, callsOf, worldAfter. rewrite Hrun.
  cbn [fst snd returned runResults].
  split; [exists e; split; reflexivity|]. split; [reflexivity | exact Hstill].
Qed.

(** The simulated machine makes directories the way [os.Mkdir] does. *)
Lemma Sim_makes_no_parent : MkdirTemp_makes_no_parent Sim.os.
Proof.
  intros dir pattern w _ H. cbn [os_MkdirTemp dirExists Sim.os] in *.
  unfold Sim.mkdirTemp. rewrite H.
  eexists; eexists; split; [reflexivity | exact H].
Qed.

(** On the simulated machine without the directory [.aoj-verify]. *)
Lemma missing_parent_directory_witness :
  let w := Sim.noParent in
  let run := verifyRun Sim.os "cache" "main.go" in
  MkdirTemp_makes_no_parent Sim.os /\
  dirExists Sim.os ".aoj-verify" w = false /\
  (exists e,
      verify Sim.os "cache" "main.go" w
      = Some (ErrWrap "failed to temporally directory: " e "") /\
      callsOf run w = [CMkdirTemp ".aoj-verify" "tmp" (inr e)])
  /\ runResults (valueOf run w) = []
  /\ dirExists Sim.os ".aoj-verify" (worldAfter run w) = false.
Proof.
  intros w run.
  split; [exact Sim_makes_no_parent|]. split; [reflexivity|].
  exact (missing_parent_directory Sim.os "cache" "main.go" w
           Sim_makes_no_parent eq_refl).
Defined.

(* ================================================================== *)
(** ** Discovery and the order of the run loop *)

(** C7.  When the temporary directory is made, the build succeeds and the
    walk of the cache directory meets no error, the run loop goes over
    [inFilepaths]: exactly the entries below the cache directory that are
    not directories and whose path ends in [.in], in ascending byte-wise
    lexicographic order of the whole path.  The calls of [verify] after the
    walk are the calls of one iteration for each of these paths, in that
    order, every iteration starting in the world the one before left,
    opening its own input file first and running nothing but the binary on
    the file it opened; after them [verify] only writes the summary, if it
    does, and removes the temporary directory.  The results it holds are
    those of these iterations, in the same order.  Any other arrangement of
    the same input paths on disk gives the same list. *)
Theorem discovery_sorted_inputs (os : OS) (cacheDir buildFilename : string)
    (w : World os) (tmpDir : string) (w1 : World os) (stderr : string)
    (w2 : World os) (d : DirEntry) :
  os_MkdirTemp os ".aoj-verify" "tmp" w = (inl tmpDir, w1) ->
  cmd_Run os (goBuild (filepath_Join tmpDir "main") buildFilename) w1
  = ((None, stderr), w2) ->
  os_Lstat os cacheDir w2 = Root d ->
  readable d = true ->
  let inFilepaths := slices_Sort (filter isInput (filesOf d)) in
  let its := iterations os tmpDir (filepath_Join tmpDir "main") inFilepaths w2 in
  let run := verifyRun os cacheDir buildFilename in
  (forall p, In p inFilepaths <->
             In p (filesOf d) /\ strings_HasSuffix p ".in" = true)
  /\ Permutation (filter isInput (filesOf d)) inFilepaths
  /\ StronglySorted str_le inFilepaths
  /\ (exists rest,
         callsOf run w
         = [CMkdirTemp ".aoj-verify" "tmp" (inl tmpDir);
            CRun (goBuild (filepath_Join tmpDir "main") buildFilename) None;
            CWalkDir cacheDir (Root d)]
           ++ List.concat (map snd its) ++ rest
         /\ (rest = [CRemoveAll tmpDir] \/
             exists attrs, rest = [CLog "summary" attrs; CRemoveAll tmpDir]))
  /\ Forall2 (fun inFilepath it =>
                exists res rest,
                  snd it = COpen inFilepath res :: rest /\
                  forall cmd err,
                    In (CRun cmd err) rest ->
                    exists inFile answerFile,
                      res = inl inFile /\
                      cmd = caseRun (filepath_Join tmpDir "main") inFile answerFile)
             inFilepaths its
  /\ runResults (valueOf run w) = recordedOf (map fst its)
  /\ (forall d',
         Permutation (filter isInput (filesOf d')) (filter isInput (filesOf d)) ->
         slices_Sort (filter isInput (filesOf d')) = inFilepaths).
Proof.
  intros Hmk Hbuild Hstat Hread inFilepaths its run.
  assert (Hperm : Permutation (filter isInput (filesOf d)) inFilepaths)
    by apply slices_Sort_perm.
  split.
  { intros p. split.
    - intros Hin. apply (filter_In isInput).
      eapply Permutation_in; [symmetry; exact Hperm | exact Hin].
    - intros Hin. eapply Permutation_in; [exact Hperm|]. now apply (filter_In isInput). }
  split; [exact Hperm|]. split; [apply slices_Sort_sorted|].
  assert (Hwalk : walkable (os_Lstat os cacheDir w2) = true)
    by (rewrite Hstat; exact Hread).
  destruct (verifyRun_iterations os cacheDir buildFilename w tmpDir w1 stderr w2
              Hmk Hbuild Hwalk) as (Hv & Hc).
  rewrite Hstat in Hv, Hc. cbn [inputsOf] in Hv, Hc.
  fold inFilepaths in Hv, Hc. fold its in Hv, Hc. fold run in Hv, Hc.
  split; [|split; [|split]].
  - rewrite Hc. destruct (joinEach None (errorsOf (map fst its))).
    + exists [CRemoveAll tmpDir]. split; [reflexivity | now left].
    + eexists. split; [reflexivity|]. right. eexists. reflexivity.
  - pose proof (iterations_shape os tmpDir (filepath_Join tmpDir "main") inFilepaths w2)
      as Hshape.
    fold its in Hshape. eapply Forall2_impl; [|exact Hshape].
    intros p it Hs. eapply case_starts; exact Hs.
  - now rewrite Hv.
  - intros d' Hp. now apply slices_Sort_order_free.
Qed.

(** On the simulated machine the walk meets the six files out of order;
    the loop takes the three input files in order, and the first call of
    each iteration opens its input file. *)
Lemma discovery_sorted_inputs_witness :
  let w := Sim.threeCases in
  let tmpDir := ".aoj-verify/tmp0" in
  let w1 := Sim.setDirs [".aoj-verify"; "cache"; tmpDir] w in
  let d := Dir "cache" None
               [NonDir "cache/case3.out"; NonDir "cache/case3.in";
                NonDir "cache/case1.in"; NonDir "cache/case1.out";
                NonDir "cache/case2.out"; NonDir "cache/case2.in"] in
  let inFilepaths := ["cache/case1.in"; "cache/case2.in"; "cache/case3.in"] in
  let its := iterations Sim.os tmpDir (filepath_Join tmpDir "main") inFilepaths w1 in
  os_MkdirTemp Sim.os ".aoj-verify" "tmp" w = (inl tmpDir, w1) /\
  cmd_Run Sim.os (goBuild (filepath_Join tmpDir "main") "main.go") w1
  = ((None, ""), w1) /\
  os_Lstat Sim.os "cache" w1 = Root d /\
  readable d = true /\
  slices_Sort (filter isInput (filesOf d)) = inFilepaths /\
  map (fun it => hd_error (snd it)) its
  = [Some (COpen "cache/case1.in" (inl 0%nat));
     Some (COpen "cache/case2.in" (inl 4%nat));
     Some (COpen "cache/case3.in" (inl 8%nat))] /\
  map (fun r => testcaseName r)
      (runResults (valueOf (verifyRun Sim.os "cache" "main.go") w))
  = ["cache/case1"; "cache/case2"; "cache/case3"] /\
  exists rest,
    callsOf (verifyRun Sim.os "cache" "main.go") w
    = [CMkdirTemp ".aoj-verify" "tmp" (inl tmpDir);
       CRun (goBuild (filepath_Join tmpDir "main") "main.go") None;
       CWalkDir "cache" (Root d)]
      ++ List.concat (map snd its) ++ rest.
Proof.
  intros w tmpDir w1 d inFilepaths its.
  assert (Hmk : os_MkdirTemp Sim.os ".aoj-verify" "tmp" w = (inl tmpDir, w1))
    by reflexivity.
  assert (Hbuild : cmd_Run Sim.os (goBuild (filepath_Join tmpDir "main") "main.go") w1
                   = ((None, ""), w1)) by reflexivity.
  assert (Hstat : os_Lstat Sim.os "cache" w1 = Root d) by reflexivity.
  assert (Hread : readable d = true) by reflexivity.
  assert (Hsort : slices_Sort (filter isInput (filesOf d)) = inFilepaths)
    by reflexivity.
  assert (Hfirst : map (fun it => hd_error (snd it)) its
                   = [Some (COpen "cache/case1.in" (inl 0%nat));
                      Some (COpen "cache/case2.in" (inl 4%nat));
                      Some (COpen "cache/case3.in" (inl 8%nat))])
    by (vm_compute; reflexivity).
  assert (Hnames : map (fun r => testcaseName r)
                       (runResults (valueOf (verifyRun Sim.os "cache" "main.go") w))
                   = ["cache/case1"; "cache/case2"; "cache/case3"])
    by (vm_compute; reflexivity).
  repeat (split; [assumption|]).
  destruct (discovery_sorted_inputs Sim.os "cache" "main.go" w tmpDir w1 "" w1 d
              Hmk Hbuild Hstat Hread) as (_ & _ & _ & (rest & Hcalls & _) & _).
  rewrite Hsort in Hcalls. exists rest. exact Hcalls.
Defined.

(* ================================================================== *)
(** ** The name of a test case *)

Section Names.
Variable os : OS.

Lemma case_logged (tmpDir binaryFilepath inFilepath : string) (r : runResult)
    (calls : list call) :
  CaseShape tmpDir binaryFilepath inFilepath (Recorded r) calls ->
  exists msg, In (caseRecord msg (testcaseName r) (execTime r)) calls.
Proof.
  inversion 1; subst; eexists; cbn [testcaseName execTime].
  - do 6 right. left. reflexivity.
  - do 14 right. left. reflexivity.
Qed.

(** Every result of the loop has its record among the calls of the loop. *)
Lemma eachCase_logged (tmpDir binaryFilepath : string) (inFilepaths : list string) :
  forall w r,
    In r (recordedOf (valueOf (eachCase os tmpDir binaryFilepath inFilepaths) w)) ->
    exists msg,
      In (caseRecord msg (testcaseName r) (execTime r))
         (callsOf (eachCase os tmpDir binaryFilepath inFilepaths) w).
Proof.
  induction inFilepaths as [|p ps IH]; intros w r; cbn [eachCase]; run_simpl.
  - intros [].
  - rewrite app_nil_r.
    pose proof (runCase_shape os tmpDir binaryFilepath p w) as Hs.
    destruct (valueOf (runCase os tmpDir binaryFilepath p) w) as [e|r0];
      cbn [recordedOf].
    + intros Hin. destruct (IH _ _ Hin) as (msg & Hmsg).
      exists msg. apply in_or_app. now right.
    + intros [<-|Hin].
      * destruct (case_logged _ _ _ _ _ Hs) as (msg & Hmsg).
        exists msg. apply in_or_app. now left.
      * destruct (IH _ _ Hin) as (msg & Hmsg).
        exists msg. apply in_or_app. now right.
Qed.

End Names.

(** C4, as the specification has it, fails on the simulated machine: the
    input files are found below [cache], the base names of their paths
    without the suffix are [case1], [case2] and [case3], and the names in the
    results keep the directory. *)
Lemma testcase_name_keeps_directory_counterexample :
  let out := valueOf (verifyRun Sim.os "cache" "main.go") Sim.threeCases in
  let inFilepaths := ["cache/case1.in"; "cache/case2.in"; "cache/case3.in"] in
  slices_Sort (inputsOf (Sim.found Sim.threeCases)) = inFilepaths /\
  map spec_stem inFilepaths = ["case1"; "case2"; "case3"] /\
  map testcaseName (runResults out) = ["cache/case1"; "cache/case2"; "cache/case3"] /\
  map testcaseName (runResults out) <> map spec_stem inFilepaths.
Proof.
  intros out inFilepaths.
  assert (Hn : map testcaseName (runResults out)
               = ["cache/case1"; "cache/case2"; "cache/case3"])
    by (vm_compute; reflexivity).
  split; [reflexivity|]. split; [reflexivity|]. split; [exact Hn|].
  rewrite Hn. discriminate.
Qed.

(** C4, amended.  The name in a result is the whole path of an input file
    found by the walk, directory included, without its [.in] suffix; the
    record logged for the case carries the same name. *)
Theorem testcase_name_is_path_without_suffix (os : OS) (cacheDir buildFilename : string)
    (w : World os) (r : runResult) :
  In r (runResults (valueOf (verifyRun os cacheDir buildFilename) w)) ->
  exists found inFilepath msg,
    In (CWalkDir cacheDir found) (callsOf (verifyRun os cacheDir buildFilename) w) /\
    In inFilepath (inputsOf found) /\
    inFilepath = (testcaseName r ++ ".in")%string /\
    testcaseName r = strings_TrimSuffix inFilepath ".in" /\
    In (caseRecord msg (testcaseName r) (execTime r))
       (callsOf (verifyRun os cacheDir buildFilename) w).
Proof.
  pose proof (verifyRun_shape os cacheDir buildFilename w) as Hs.
  assert (Hkey : forall tmpDir found (w' : World os) calls tail,
             let each := eachCase os tmpDir (filepath_Join tmpDir "main")
                                  (slices_Sort (inputsOf found)) in
             calls = CMkdirTemp ".aoj-verify" "tmp" (inl tmpDir) ::
                     CRun (goBuild (filepath_Join tmpDir "main") buildFilename) None ::
                     CWalkDir cacheDir found :: callsOf each w' ++ tail ->
             In r (recordedOf (valueOf each w')) ->
             exists found inFilepath msg,
               In (CWalkDir cacheDir found) calls /\
               In inFilepath (inputsOf found) /\
               inFilepath = (testcaseName r ++ ".in")%string /\
               testcaseName r = strings_TrimSuffix inFilepath ".in" /\
               In (caseRecord msg (testcaseName r) (execTime r)) calls).
  { intros tmpDir found w' calls tail each -> Hin.
    destruct (eachCase_recorded os _ _ _ _ _ Hin) as [(p & Hp & Hname) _].
    destruct (eachCase_logged os _ _ _ _ _ Hin) as (msg & Hmsg).
    assert (Hinput : In p (inputsOf found))
      by (eapply Permutation_in; [symmetry; apply slices_Sort_perm | exact Hp]).
    assert (Hsuffix : strings_HasSuffix p ".in" = true).
    { destruct found as [e|d]; [destruct Hinput|].
      cbn [inputsOf] in Hinput. now apply filter_In in Hinput. }
    exists found, p, msg. split; [do 2 right; now left|]. split; [exact Hinput|].
    split; [rewrite Hname; now apply HasSuffix_split|]. split; [exact Hname|].
    do 3 right. apply in_or_app. now left. }
  inversion Hs as [err Ho Hc | tmpDir err stderr Ho Hc | tmpDir found err Hw Ho Hc
                   | tmpDir found w' multiErr each Hw He Hj Ho Hc
                   | tmpDir found w' each Hw He Ho Hc];
    cbn [runResults]; try (intros []).
  - intros Hin. subst each. eapply Hkey; [reflexivity | exact Hin].
  - intros Hin. subst each. eapply Hkey; [reflexivity | exact Hin].
Qed.

(** The second result of the simulated machine. *)
Lemma testcase_name_is_path_without_suffix_witness :
  let run := verifyRun Sim.os "cache" "main.go" in
  let r := newRunResult "cache/case2" wrongAnswer 3000000 in
  In r (runResults (valueOf run Sim.threeCases)) /\
  exists found inFilepath msg,
    In (CWalkDir "cache" found) (callsOf run Sim.threeCases) /\
    In inFilepath (inputsOf found) /\
    inFilepath = (testcaseName r ++ ".in")%string /\
    testcaseName r = strings_TrimSuffix inFilepath ".in" /\
    In (caseRecord msg (testcaseName r) (execTime r)) (callsOf run Sim.threeCases).
Proof.
  intros run r.
  assert (Hin : In r (runResults (valueOf run Sim.threeCases)))
    by (vm_compute; right; left; reflexivity).
  split; [exact Hin|].
  exact (testcase_name_is_path_without_suffix Sim.os "cache" "main.go"
           Sim.threeCases r Hin).
Defined.

(* ================================================================== *)
(** ** A test case whose file operations fail *)

Section FailedCase.
Variable os : OS.
Variables tmpDir binaryFilepath : string.

Lemma recordedOf_app (outs1 outs2 : list caseOutcome) :
  recordedOf (outs1 ++ outs2) = recordedOf outs1 ++ recordedOf outs2.
Proof.
  induction outs1 as [|[e|r] outs1 IH]; simpl; [reflexivity | exact IH | now rewrite IH].
Qed.

Lemma errorsOf_app (outs1 outs2 : list caseOutcome) :
  errorsOf (outs1 ++ outs2) = errorsOf outs1 ++ errorsOf outs2.
Proof.
  induction outs1 as [|[e|r] outs1 IH]; simpl; [reflexivity | now rewrite IH | exact IH].
Qed.

(** The loop from nil and the empty slice, in terms of its iterations. *)
Lemma runLoop_fresh (inFilepaths : list string) (w : World os) :
  let loop := runLoop os tmpDir binaryFilepath inFilepaths None [] in
  let each := eachCase os tmpDir binaryFilepath inFilepaths in
  snd (valueOf loop w) = recordedOf (valueOf each w)
  /\ joined_all (fst (valueOf loop w)) = errorsOf (valueOf each w)
  /\ callsOf loop w = callsOf each w
  /\ worldAfter loop w = worldAfter each w.
Proof.
  intros loop each. subst loop each.
  destruct (runLoop_eachCase os tmpDir binaryFilepath inFilepaths None [] w)
    as (Hv & Hc & Hw).
  rewrite Hv, Hc, Hw. cbn [fst snd app]. repeat split.
  now rewrite joinEach_joined by apply eachCase_errors_joined.
Qed.

End FailedCase.

(** C10.  Take any place in the list of input files: the files before it,
    the file [inFilepath], the files after it.  When a file operation of the
    iteration for [inFilepath] fails (the input file is not opened, the
    answer file is not created, a file to compare is not opened or not
    read), the iteration ends with an error that is joined to [multiErr] and
    records no result: the results of the loop are those of the files before
    followed by those of the files after.  The files after are all gone
    through, from the world the failed iteration leaves, and [multiErr] is
    not nil when the loop ends. *)
Theorem failed_case_records_nothing (os : OS) (tmpDir binaryFilepath : string)
    (before : list string) (inFilepath : string) (after : list string)
    (w : World os) :
  let loopBefore := runLoop os tmpDir binaryFilepath before None [] in
  let w1 := worldAfter loopBefore w in
  let this := runCase os tmpDir binaryFilepath inFilepath in
  let w2 := worldAfter this w1 in
  let loopAfter := runLoop os tmpDir binaryFilepath after None [] in
  let whole := runLoop os tmpDir binaryFilepath (before ++ inFilepath :: after) None [] in
  existsb ioFailed (callsOf this w1) = true ->
  snd (valueOf whole w) = snd (valueOf loopBefore w) ++ snd (valueOf loopAfter w2)
  /\ callsOf whole w = callsOf loopBefore w ++ callsOf this w1 ++ callsOf loopAfter w2
  /\ (exists e, valueOf this w1 = InfraErr e /\
                In e (joined_all (fst (valueOf whole w))))
  /\ fst (valueOf whole w) <> None.
Proof.
  intros loopBefore w1 this w2 loopAfter whole Hfail.
  destruct (runLoop_fresh os tmpDir binaryFilepath before w) as (Hr1 & _ & Hc1 & Hw1).
  destruct (runLoop_fresh os tmpDir binaryFilepath after w2) as (Hr2 & _ & Hc2 & _).
  destruct (runLoop_fresh os tmpDir binaryFilepath (before ++ inFilepath :: after) w)
    as (Hr & He & Hc & _).
  fold loopBefore in Hr1, Hc1, Hw1. fold loopAfter in Hr2, Hc2. fold whole in Hr, He, Hc.
  destruct (eachCase_app os tmpDir binaryFilepath before (inFilepath :: after) w)
    as (Hv & Hcalls & _).
  rewrite <- Hw1 in Hv, Hcalls. fold w1 in Hv, Hcalls.
  assert (Hthis : exists e, valueOf this w1 = InfraErr e).
  { pose proof (case_ioFailed _ _ _ _ _ (runCase_shape os tmpDir binaryFilepath inFilepath w1))
      as Hio.
    fold this in Hio. rewrite Hfail in Hio.
    destruct (valueOf this w1) as [e|r]; [eauto | discriminate]. }
  destruct Hthis as (e & Hthis).
  assert (Hcons : valueOf (eachCase os tmpDir binaryFilepath (inFilepath :: after)) w1
                  = InfraErr e :: valueOf (eachCase os tmpDir binaryFilepath after) w2
                  /\ callsOf (eachCase os tmpDir binaryFilepath (inFilepath :: after)) w1
                     = callsOf this w1 ++ callsOf (eachCase os tmpDir binaryFilepath after) w2).
  { cbn [eachCase]. run_simpl. fold this. fold w2. now rewrite Hthis, app_nil_r. }
  destruct Hcons as (Hcv & Hcc).
  rewrite Hcv in Hv. rewrite Hcc in Hcalls.
  assert (Hin : In e (joined_all (fst (valueOf whole w)))).
  { rewrite He, Hv, errorsOf_app. apply in_or_app. right. now left. }
  split; [rewrite Hr, Hv, recordedOf_app, Hr1, Hr2; reflexivity|].
  split; [rewrite Hc, Hcalls, Hc1, Hc2; reflexivity|].
  split; [exists e; split; [exact Hthis | exact Hin]|].
  intros Hnil. rewrite Hnil in Hin. destruct Hin.
Qed.

(** On the simulated machine the expected output of the second case is
    missing: the first and the third case are judged, the second leaves no
    result. *)
Lemma failed_case_records_nothing_witness :
  let tmpDir := ".aoj-verify/tmp0" in
  let bin := ".aoj-verify/tmp0/main" in
  let w := Sim.missingOut in
  let w1 := worldAfter (runLoop Sim.os tmpDir bin ["cache/case1.in"] None []) w in
  let whole :=
    runLoop Sim.os tmpDir bin (["cache/case1.in"] ++ "cache/case2.in" :: ["cache/case3.in"])
            None [] in
  existsb ioFailed (callsOf (runCase Sim.os tmpDir bin "cache/case2.in") w1) = true /\
  map testcaseName (snd (valueOf whole w)) = ["cache/case1"; "cache/case3"] /\
  fst (valueOf whole w) <> None.
Proof.
  intros tmpDir bin w w1 whole.
  assert (Hfail : existsb ioFailed
                    (callsOf (runCase Sim.os tmpDir bin "cache/case2.in") w1) = true)
    by (vm_compute; reflexivity).
  split; [exact Hfail|]. split; [vm_compute; reflexivity|].
  destruct (failed_case_records_nothing Sim.os tmpDir bin
              ["cache/case1.in"] "cache/case2.in" ["cache/case3.in"] w Hfail)
    as (_ & _ & _ & Hnone).
  exact Hnone.
Defined.

(* ================================================================== *)
(** ** Runs of the whole engine on the simulated machine *)

(** A build that succeeds and three cases: one answered right, one wrong,
    one on which the solution fails. *)
Example three_cases_run :
  let run := verifyRun Sim.os "cache" "main.go" in
  verify Sim.os "cache" "main.go" Sim.threeCases = None /\
  map status (runResults (valueOf run Sim.threeCases))
  = [accepted; wrongAnswer; runtimeError] /\
  counts (summarize (runResults (valueOf run Sim.threeCases))) = (1, 1, 0, 1) /\
  In (CLog "summary"
        [("slowest time", ADuration 3000000); ("slowest case", AString "cache/case2");
         ("AC count", AInt 1); ("WA count", AInt 1); ("TLE count", AInt 0);
         ("RE count", AInt 1)])
     (callsOf run Sim.threeCases).
Proof.
  intros run.
  split; [vm_compute; reflexivity|].
  split; [vm_compute; reflexivity|].
  split; [vm_compute; reflexivity|].
  vm_compute. repeat (first [left; reflexivity | right]).
Qed.

(** An empty cache directory: no result, every count zero, no slowest
    case. *)
Example empty_cache_run :
  let run := verifyRun Sim.os "cache" "main.go" in
  valueOf run Sim.emptyCache = mkOutcome None [] /\
  callsOf run Sim.emptyCache
  = [CMkdirTemp ".aoj-verify" "tmp" (inl ".aoj-verify/tmp0");
     CRun (goBuild ".aoj-verify/tmp0/main" "main.go") None;
     CWalkDir "cache" (Root (Dir "cache" None []));
     CLog "summary"
       [("slowest time", ADuration 0); ("slowest case", AString "");
        ("AC count", AInt 0); ("WA count", AInt 0); ("TLE count", AInt 0);
        ("RE count", AInt 0)];
     CRemoveAll ".aoj-verify/tmp0"].
Proof. split; vm_compute; reflexivity. Qed.

(* ================================================================== *)
(** * More of the engine *)

(** Split a membership in a list that is written out into its cases, and
    drop the cases that name another call. *)
Ltac in_cases H :=
  cbn [In app] in H;
  repeat (destruct H as [H|H]; [try discriminate H|]);
  try contradiction.

(* ================================================================== *)
(** ** [filesAreEqual] on its own *)

Section Comparing.
Variable os : OS.

Lemma compare_balanced (path1 path2 : string) (res : bool * goerr) (calls : list call) :
  CompareShape path1 path2 res calls -> closed calls = rev (opened calls).
Proof. inversion 1; reflexivity. Qed.

(** X1.  [filesAreEqual] closes every file it opened, the one opened last
    first, whichever way it returns: when the second file cannot be opened
    or a file cannot be read, the files opened so far are closed all the
    same. *)
Theorem filesAreEqual_closes_what_it_opened (path1 path2 : string) (w : World os) :
  closed (callsOf (filesAreEqual os path1 path2) w)
  = rev (opened (callsOf (filesAreEqual os path1 path2) w)).
Proof.
  eapply compare_balanced. apply filesAreEqual_shape.
Qed.

(** X2.  What [filesAreEqual] returns.  It returns an error exactly when one
    of its four file operations failed, and then the error is the one of
    that operation, not wrapped, and the boolean is [false].  When it
    returns nil it has read both files in full, and the boolean is [true]
    exactly when the bytes read are the same. *)
Theorem filesAreEqual_result (path1 path2 : string) (w : World os) :
  let res := valueOf (filesAreEqual os path1 path2) w in
  let calls := callsOf (filesAreEqual os path1 path2) w in
  (snd res = None <-> existsb ioFailed calls = false)
  /\ (forall err,
         snd res = Some err ->
         fst res = false /\
         (In (COpen path1 (inr err)) calls \/ In (COpen path2 (inr err)) calls \/
          exists f, In (CCopy f (inr err)) calls))
  /\ (snd res = None ->
      exists f1 f2 b1 b2,
        calls = [COpen path1 (inl f1); COpen path2 (inl f2);
                 CCopy f1 (inl b1); CCopy f2 (inl b2); CClose f2; CClose f1]
        /\ (fst res = true <-> b1 = b2)).
Proof.
  intros res calls. subst res calls.
  pose proof (filesAreEqual_shape os path1 path2 w) as Hs.
  inversion Hs as [err Hr Hc | f1 err Hr Hc | f1 f2 err Hr Hc
                   | f1 f2 b1 err Hr Hc | f1 f2 b1 b2 Hr Hc];
    cbn [fst snd existsb ioFailed orb].
  - split; [split; discriminate|]. split; [|discriminate].
    intros e [= <-]. split; [reflexivity|]. left. now left.
  - split; [split; discriminate|]. split; [|discriminate].
    intros e [= <-]. split; [reflexivity|]. right. left. right. now left.
  - split; [split; discriminate|]. split; [|discriminate].
    intros e [= <-]. split; [reflexivity|]. right. right. exists f1. do 2 right. now left.
  - split; [split; discriminate|]. split; [|discriminate].
    intros e [= <-]. split; [reflexivity|]. right. right. exists f2. do 3 right. now left.
  - split; [split; reflexivity|]. split; [discriminate|].
    intros _. exists f1, f2, b1, b2. split; [reflexivity | apply bytes_Equal_spec].
Qed.

End Comparing.

(* ================================================================== *)
(** ** The files of one iteration *)

Section Handles.
Variable os : OS.
Variables tmpDir binaryFilepath inFilepath : string.

(** X3.  The files an iteration of the run loop leaves open.  When the run
    of the solution returns nil, every file the iteration opened or created
    is closed by its end, also when the comparison then fails.  When the run
    returns an error, the iteration closes nothing and leaves the input file
    and the answer file open; when the answer file cannot be created, it
    leaves the input file open. *)
Theorem runCase_open_files (w : World os) :
  let calls := callsOf (runCase os tmpDir binaryFilepath inFilepath) w in
  (forall cmd, In (CRun cmd None) calls -> Permutation (opened calls) (closed calls))
  /\ (forall cmd e,
         In (CRun cmd (Some e)) calls ->
         closed calls = [] /\
         exists inFile answerFile,
           opened calls = [inFile; answerFile] /\
           cmd = caseRun binaryFilepath inFile answerFile)
  /\ (forall path e,
         In (CCreate path (inr e)) calls ->
         closed calls = [] /\ exists inFile, opened calls = [inFile]).
Proof.
  intros calls. subst calls.
  pose proof (runCase_shape os tmpDir binaryFilepath inFilepath w) as Hs.
  inversion Hs as [err Ho Hc | inFile text err Ho Hc | inFile text answerFile t0 e t1 base el Ho Hc
                   | inFile text answerFile t0 t1 equal err cmpCalls base ans Hcmp Ho Hc
                   | inFile text answerFile t0 t1 f1 f2 b1 b2 base ans el equal Ho Hc].
  - repeat split; intros; match goal with H : In _ _ |- _ => in_cases H end.
  - split; [intros cmd H; in_cases H|]. split; [intros cmd e H; in_cases H|].
    intros path e H. split; [reflexivity | exists inFile; reflexivity].
  - split; [intros cmd H; in_cases H|]. split.
    + intros cmd e' H. in_cases H. injection H as <- _.
      split; [reflexivity | exists inFile, answerFile; split; reflexivity].
    + intros path e' H; in_cases H.
  - pose proof (compare_balanced _ _ _ _ Hcmp) as Hbal.
    split.
    + intros cmd _. cbn [opened closed]. rewrite Hbal.
      do 2 constructor. apply Permutation_rev.
    + split.
      * intros cmd e H. in_cases H. inversion Hcmp; subst; in_cases H.
      * intros path e H. in_cases H. inversion Hcmp; subst; in_cases H.
  - split.
    + intros cmd _. cbn [opened closed caseRecord].
      do 2 constructor. apply perm_swap.
    + split.
      * intros cmd e H. unfold caseRecord in H. in_cases H.
      * intros path e H. unfold caseRecord in H. in_cases H.
Qed.

End Handles.

(** On the simulated machine the solution fails on the third case: both
    files of that iteration stay open. *)
Lemma runCase_open_files_witness :
  let calls := callsOf (runCase Sim.os "tmp" "tmp/main" "cache/case3.in") Sim.threeCases in
  In (CRun (caseRun "tmp/main" 0%nat 1%nat) (Some Sim.exitStatus1)) calls /\
  closed calls = [] /\ opened calls = [0%nat; 1%nat].
Proof.
  intros calls.
  assert (Hin : In (CRun (caseRun "tmp/main" 0%nat 1%nat) (Some Sim.exitStatus1)) calls)
    by (vm_compute; do 4 right; left; reflexivity).
  split; [exact Hin|].
  destruct (runCase_open_files Sim.os "tmp" "tmp/main" "cache/case3.in" Sim.threeCases)
    as (_ & Hleak & _).
  destruct (Hleak _ _ Hin) as (Hclosed & _).
  split; [exact Hclosed | vm_compute; reflexivity].
Defined.

(* ================================================================== *)
(** ** The results and the log of [verify] *)

Section ResultsAndLog.
Variable os : OS.

Lemma eachCase_names (tmpDir binaryFilepath : string) (inFilepaths : list string) :
  forall w,
    errorsOf (valueOf (eachCase os tmpDir binaryFilepath inFilepaths) w) = [] ->
    map testcaseName (recordedOf (valueOf (eachCase os tmpDir binaryFilepath inFilepaths) w))
    = map (fun p => strings_TrimSuffix p ".in") inFilepaths.
Proof.
  induction inFilepaths as [|p ps IH]; intros w; cbn [eachCase]; run_simpl.
  - reflexivity.
  - pose proof (runCase_shape os tmpDir binaryFilepath p w) as Hs.
    destruct (valueOf (runCase os tmpDir binaryFilepath p) w) as [e|r];
      cbn [errorsOf recordedOf map]; [discriminate|].
    intros He. destruct (case_recorded _ _ _ _ _ Hs) as [Hn _].
    now rewrite Hn, IH.
Qed.

Lemma compare_no_record (path1 path2 : string) (res : bool * goerr) (calls : list call) :
  CompareShape path1 path2 res calls -> filter isCaseRecord calls = [].
Proof. inversion 1; reflexivity. Qed.

Lemma case_records (tmpDir binaryFilepath inFilepath : string) (o : caseOutcome)
    (calls : list call) :
  CaseShape tmpDir binaryFilepath inFilepath o calls ->
  filter isCaseRecord calls = map recordOf (recordedOf [o]).
Proof.
  inversion 1; subst; try reflexivity.
  - cbn. eapply compare_no_record; eassumption.
  - repeat match goal with x := _ |- _ => subst x end.
    destruct (bytes_Equal b1 b2); reflexivity.
Qed.

Lemma eachCase_records (tmpDir binaryFilepath : string) (inFilepaths : list string) :
  forall w,
    filter isCaseRecord (callsOf (eachCase os tmpDir binaryFilepath inFilepaths) w)
    = map recordOf (recordedOf (valueOf (eachCase os tmpDir binaryFilepath inFilepaths) w)).
Proof.
  induction inFilepaths as [|p ps IH]; intros w; cbn [eachCase]; run_simpl.
  - reflexivity.
  - rewrite app_nil_r, filter_app, IH.
    rewrite (case_records _ _ _ _ _ (runCase_shape os tmpDir binaryFilepath p w)).
    destruct (valueOf (runCase os tmpDir binaryFilepath p) w); reflexivity.
Qed.

(** X4.  When [verify] returns nil it holds one result for every input
    file the walk found, in the ascending order of the paths: the names of
    the results are the sorted paths without their [.in] suffix. *)
Theorem one_result_per_input (cacheDir buildFilename : string) (w : World os) :
  verify os cacheDir buildFilename w = None ->
  exists found,
    In (CWalkDir cacheDir found) (callsOf (verifyRun os cacheDir buildFilename) w) /\
    map testcaseName (runResults (valueOf (verifyRun os cacheDir buildFilename) w))
    = map (fun p => strings_TrimSuffix p ".in") (slices_Sort (inputsOf found)).
Proof.
  unfold verify. fold (valueOf (verifyRun os cacheDir buildFilename) w).
  pose proof (verifyRun_shape os cacheDir buildFilename w) as Hs.
  inversion Hs as [err Ho Hc | tmpDir err stderr Ho Hc | tmpDir found err Hw Ho Hc
                   | tmpDir found w' multiErr each Hw He Hj Ho Hc
                   | tmpDir found w' each Hw He Ho Hc];
    cbn [returned runResults]; try discriminate.
  intros _. exists found. split; [do 2 right; now left|].
  subst each. now apply eachCase_names.
Qed.

(** X5.  The log of [verify] has one record per result, in the order of the
    results, under the message of the verdict ([AC], [WA] or [RE]) and with
    the name and the duration of the result; this holds also when [verify]
    returns an error. *)
Theorem one_record_per_result (cacheDir buildFilename : string) (w : World os) :
  filter isCaseRecord (callsOf (verifyRun os cacheDir buildFilename) w)
  = map recordOf (runResults (valueOf (verifyRun os cacheDir buildFilename) w)).
Proof.
  pose proof (verifyRun_shape os cacheDir buildFilename w) as Hs.
  inversion Hs as [err Ho Hc | tmpDir err stderr Ho Hc | tmpDir found err Hw Ho Hc
                   | tmpDir found w' multiErr each Hw He Hj Ho Hc
                   | tmpDir found w' each Hw He Ho Hc];
    cbn [runResults]; try reflexivity.
  - subst each. cbn [filter isCaseRecord]. rewrite filter_app, eachCase_records.
    cbn [filter isCaseRecord]. now rewrite app_nil_r.
  - subst each. cbn [filter isCaseRecord]. rewrite filter_app, eachCase_records.
    cbn. now rewrite app_nil_r.
Qed.

End ResultsAndLog.

(** On the simulated machine with three cases. *)
Lemma one_result_per_input_witness :
  let run := verifyRun Sim.os "cache" "main.go" in
  verify Sim.os "cache" "main.go" Sim.threeCases = None /\
  exists found,
    In (CWalkDir "cache" found) (callsOf run Sim.threeCases) /\
    map testcaseName (runResults (valueOf run Sim.threeCases))
    = map (fun p => strings_TrimSuffix p ".in") (slices_Sort (inputsOf found)).
Proof.
  intros run.
  assert (Hnil : verify Sim.os "cache" "main.go" Sim.threeCases = None)
    by (vm_compute; reflexivity).
  split; [exact Hnil|].
  exact (one_result_per_input Sim.os "cache" "main.go" Sim.threeCases Hnil).
Defined.

(* ================================================================== *)
(** ** The temporary directory and the commands *)

Section TmpDir.
Variable os : OS.

Lemma compare_no_RemoveAll (path1 path2 : string) (res : bool * goerr) (calls : list call) :
  CompareShape path1 path2 res calls -> existsb isRemoveAll calls = false.
Proof. inversion 1; reflexivity. Qed.

Lemma case_no_RemoveAll (tmpDir binaryFilepath inFilepath : string) (o : caseOutcome)
    (calls : list call) :
  CaseShape tmpDir binaryFilepath inFilepath o calls -> existsb isRemoveAll calls = false.
Proof.
  inversion 1; subst; try reflexivity.
  cbn. eapply compare_no_RemoveAll; eassumption.
Qed.

Lemma eachCase_no_RemoveAll (tmpDir binaryFilepath : string) (inFilepaths : list string)
    (w : World os) :
  existsb isRemoveAll (callsOf (eachCase os tmpDir binaryFilepath inFilepaths) w) = false.
Proof.
  apply eachCase_calls. intros p w'. eapply case_no_RemoveAll. apply runCase_shape.
Qed.

(** X6.  The temporary directory is removed on every return.  Either
    [os.MkdirTemp] failed and it is the only call, or the calls of [verify]
    start with the making of the directory and end with its removal, which
    is the only removal: after a failed build, a failed walk, a failed test
    case and a written summary alike. *)
Theorem temporary_directory_removed (cacheDir buildFilename : string) (w : World os) :
  let calls := callsOf (verifyRun os cacheDir buildFilename) w in
  (exists e, calls = [CMkdirTemp ".aoj-verify" "tmp" (inr e)])
  \/ (exists tmpDir between,
         calls = CMkdirTemp ".aoj-verify" "tmp" (inl tmpDir) :: between
                 ++ [CRemoveAll tmpDir]
         /\ existsb isRemoveAll between = false).
Proof.
  intros calls. subst calls.
  pose proof (verifyRun_shape os cacheDir buildFilename w) as Hs.
  inversion Hs as [err Ho Hc | tmpDir err stderr Ho Hc | tmpDir found err Hw Ho Hc
                   | tmpDir found w' multiErr each Hw He Hj Ho Hc
                   | tmpDir found w' each Hw He Ho Hc].
  - left. now exists err.
  - right. exists tmpDir. eexists [_]. split; reflexivity.
  - right. exists tmpDir. eexists [_; _]. split; reflexivity.
  - right. exists tmpDir. eexists (_ :: _ :: callsOf each w'). split; [reflexivity|].
    cbn [existsb isRemoveAll orb]. subst each. apply eachCase_no_RemoveAll.
  - right. exists tmpDir.
    eexists (_ :: _ :: callsOf each w' ++ [_]). split.
    + cbn [app]. now rewrite <- app_assoc.
    + cbn [existsb isRemoveAll orb]. rewrite existsb_app. subst each.
      now rewrite eachCase_no_RemoveAll.
Qed.

Lemma compare_no_run (path1 path2 : string) (res : bool * goerr) (calls : list call)
    (cmd : Cmd) (err : goerr) :
  CompareShape path1 path2 res calls -> ~ In (CRun cmd err) calls.
Proof. intros Hs; inversion Hs; intros Hin; in_cases Hin. Qed.

Lemma case_runs (tmpDir binaryFilepath inFilepath : string) (o : caseOutcome)
    (calls : list call) (cmd : Cmd) (err : goerr) :
  CaseShape tmpDir binaryFilepath inFilepath o calls ->
  In (CRun cmd err) calls ->
  exists inFile answerFile, cmd = caseRun binaryFilepath inFile answerFile.
Proof.
  inversion 1; subst; intros Hin; unfold caseRecord in Hin.
  - in_cases Hin.
  - in_cases Hin.
  - in_cases Hin. injection Hin as <- _. eauto.
  - cbn [In] in Hin.
    repeat (destruct Hin as [Hin|Hin]; [try discriminate Hin|]).
    + injection Hin as <- _. eauto.
    + exfalso. eapply compare_no_run; eassumption.
  - in_cases Hin. injection Hin as <- _. eauto.
Qed.

Lemma eachCase_runs (tmpDir binaryFilepath : string) (inFilepaths : list string)
    (cmd : Cmd) (err : goerr) :
  forall w,
    In (CRun cmd err) (callsOf (eachCase os tmpDir binaryFilepath inFilepaths) w) ->
    exists inFile answerFile, cmd = caseRun binaryFilepath inFile answerFile.
Proof.
  induction inFilepaths as [|p ps IH]; intros w; cbn [eachCase]; run_simpl.
  - intros [].
  - rewrite app_nil_r. intros Hin. apply in_app_or in Hin as [Hin|Hin].
    + eapply case_runs; [apply runCase_shape | exact Hin].
    + eapply IH. exact Hin.
Qed.

(** X7.  Every command [verify] runs is either the build, which writes the
    binary to [main] inside the temporary directory, or a run of that very
    binary without arguments, with a file as standard input and a file as
    standard output.  Nothing else is executed. *)
Theorem only_the_built_binary_runs (cacheDir buildFilename : string) (w : World os)
    (cmd : Cmd) (err : goerr) :
  In (CRun cmd err) (callsOf (verifyRun os cacheDir buildFilename) w) ->
  exists tmpDir,
    In (CMkdirTemp ".aoj-verify" "tmp" (inl tmpDir))
       (callsOf (verifyRun os cacheDir buildFilename) w) /\
    (cmd = goBuild (filepath_Join tmpDir "main") buildFilename \/
     exists inFile answerFile,
       cmd = caseRun (filepath_Join tmpDir "main") inFile answerFile).
Proof.
  pose proof (verifyRun_shape os cacheDir buildFilename w) as Hs.
  inversion Hs as [err' Ho Hc | tmpDir err' stderr Ho Hc | tmpDir found err' Hw Ho Hc
                   | tmpDir found w' multiErr each Hw He Hj Ho Hc
                   | tmpDir found w' each Hw He Ho Hc]; intros Hin.
  - in_cases Hin.
  - exists tmpDir. split; [now left|]. in_cases Hin. injection Hin as <- _. now left.
  - exists tmpDir. split; [now left|]. in_cases Hin. injection Hin as <- _. now left.
  - exists tmpDir. split; [now left|].
    cbn [In] in Hin. destruct Hin as [Hin|[Hin|[Hin|Hin]]]; try discriminate Hin.
    + injection Hin as <- _. now left.
    + apply in_app_or in Hin as [Hin|Hin]; [|in_cases Hin].
      right. subst each. eapply eachCase_runs. exact Hin.
  - exists tmpDir. split; [now left|].
    cbn [In] in Hin. destruct Hin as [Hin|[Hin|[Hin|Hin]]]; try discriminate Hin.
    + injection Hin as <- _. now left.
    + apply in_app_or in Hin as [Hin|Hin]; [|in_cases Hin].
      right. subst each. eapply eachCase_runs. exact Hin.
Qed.

End TmpDir.

(** On the simulated machine the second case is run with the binary of the
    build. *)
Lemma only_the_built_binary_runs_witness :
  let calls := callsOf (verifyRun Sim.os "cache" "main.go") Sim.threeCases in
  let cmd := caseRun ".aoj-verify/tmp0/main" 4%nat 5%nat in
  In (CRun cmd None) calls /\
  exists tmpDir,
    In (CMkdirTemp ".aoj-verify" "tmp" (inl tmpDir)) calls /\
    (cmd = goBuild (filepath_Join tmpDir "main") "main.go" \/
     exists inFile answerFile,
       cmd = caseRun (filepath_Join tmpDir "main") inFile answerFile).
Proof.
  intros calls cmd.
  assert (Hin : In (CRun cmd None) calls)
    by (vm_compute; do 22 right; left; reflexivity).
  split; [exact Hin|].
  exact (only_the_built_binary_runs Sim.os "cache" "main.go" Sim.threeCases cmd None Hin).
Defined.

(* ================================================================== *)
(** ** A walk that fails *)

Section WalkFailure.
Variable os : OS.

(** The walk returns the error of the first directory it cannot read. *)
Lemma walkDir_firstReadErr (d : DirEntry) :
  forall acc, fst (walkDir walkFn d acc) = firstReadErr d.
Proof.
  induction d as [path | path readErr entries IH] using DirEntry_nested_ind; intros acc.
  - cbn [walkDir]. rewrite walkFn_file. reflexivity.
  - cbn [walkDir firstReadErr]. rewrite walkFn_dir.
    destruct readErr as [e|]; [reflexivity|].
    revert acc. induction IH as [|d ds Hd _ IHds]; intros acc; [reflexivity|].
    cbn [walkEntries]. specialize (Hd acc).
    destruct (walkDir walkFn d acc) as [[e|] acc']; cbn [fst] in Hd; rewrite <- Hd.
    + reflexivity.
    + apply IHds.
Qed.

Lemma WalkDir_firstWalkErr (root : string) (r : WalkRoot) :
  fst (filepath_WalkDir walkFn root r []) = firstWalkErr r.
Proof. destruct r as [e|d]; [reflexivity | apply walkDir_firstReadErr]. Qed.

(** X8.  When the temporary directory is made and the build succeeds but
    the walk of the cache directory fails (the directory cannot be examined,
    or a directory below it cannot be read), [verify] returns the error of
    the first failure in the order of the walk, wrapped; it holds no result,
    starts the solution on no test case, also not on the input files met
    before the failure, and removes the temporary directory. *)
Theorem walk_failure_aborts (cacheDir buildFilename : string)
    (w : World os) (tmpDir : string) (w1 : World os) (stderr : string) (w2 : World os) :
  os_MkdirTemp os ".aoj-verify" "tmp" w = (inl tmpDir, w1) ->
  cmd_Run os (goBuild (filepath_Join tmpDir "main") buildFilename) w1
  = ((None, stderr), w2) ->
  walkable (os_Lstat os cacheDir w2) = false ->
  let run := verifyRun os cacheDir buildFilename in
  exists e,
    firstWalkErr (os_Lstat os cacheDir w2) = Some e
    /\ verify os cacheDir buildFilename w = Some (ErrWrap "failed to walk dir: " e "")
    /\ runResults (valueOf run w) = []
    /\ callsOf run w
       = [CMkdirTemp ".aoj-verify" "tmp" (inl tmpDir);
          CRun (goBuild (filepath_Join tmpDir "main") buildFilename) None;
          CWalkDir cacheDir (os_Lstat os cacheDir w2);
          CRemoveAll tmpDir].
Proof.
  intros Hmk Hbuild Hwalk run. subst run.
  destruct (WalkDir_not_walkable cacheDir _ Hwalk) as (e & acc & Hw).
  pose proof (WalkDir_firstWalkErr cacheDir (os_Lstat os cacheDir w2)) as Hfirst.
  rewrite Hw in Hfirst. cbn [fst] in Hfirst.
  exists e. split; [now symmetry|].
  assert (Hrun : verifyRun os cacheDir buildFilename w
                 = ((mkOutcome (Some (ErrWrap "failed to walk dir: " e "")) [],
                     [CMkdirTemp ".aoj-verify" "tmp" (inl tmpDir);
                      CRun (goBuild (filepath_Join tmpDir "main") buildFilename) None;
                      CWalkDir cacheDir (os_Lstat os cacheDir w2);
                      CRemoveAll tmpDir]),
                    os_RemoveAll os tmpDir w2)).
  { unfold verifyRun, defer, bind, MkdirTemp, RemoveAll, call1, call0.
    rewrite Hmk. unfold verifyIn, bind, Run. rewrite Hbuild. cbn [fst snd].
    unfold Lstat. rewrite Hw. reflexivity. }
  unfold verify, valueOf, callsOf. rewrite Hrun. repeat split.
Qed.

End WalkFailure.

(** On a simulated machine where the second directory below the cache
    cannot be read: the input file met before it is not run. *)
Lemma walk_failure_aborts_witness :
  let denied := ErrNew "open cache/b: permission denied" in
  let tree := Root (Dir "cache" None
                        [Dir "cache/a" None [NonDir "cache/a/1.in"];
                         Dir "cache/b" (Some denied) [];
                         Dir "cache/c" (Some (ErrNew "open cache/c: permission denied")) []]) in
  let w := Sim.mkWorld [".aoj-verify"; "cache"] [] [] tree true "" Sim.echo true 0 0 in
  let tmpDir := ".aoj-verify/tmp0" in
  let w1 := Sim.setDirs [".aoj-verify"; "cache"; tmpDir] w in
  walkable (os_Lstat Sim.os "cache" w1) = false /\
  verify Sim.os "cache" "main.go" w = Some (ErrWrap "failed to walk dir: " denied "") /\
  existsb isCaseRun (callsOf (verifyRun Sim.os "cache" "main.go") w) = false.
Proof.
  intros denied tree w tmpDir w1.
  assert (Hmk : os_MkdirTemp Sim.os ".aoj-verify" "tmp" w = (inl tmpDir, w1))
    by reflexivity.
  assert (Hbuild : cmd_Run Sim.os (goBuild (filepath_Join tmpDir "main") "main.go") w1
                   = ((None, ""), w1)) by reflexivity.
  assert (Hwalk : walkable (os_Lstat Sim.os "cache" w1) = false) by reflexivity.
  split; [exact Hwalk|].
  destruct (walk_failure_aborts Sim.os "cache" "main.go" w tmpDir w1 "" w1
              Hmk Hbuild Hwalk) as (e & Hfirst & Hv & _ & Hc).
  vm_compute in Hfirst. injection Hfirst as <-.
  split; [exact Hv|]. rewrite Hc. reflexivity.
Defined.

(* ================================================================== *)
(** ** More on the summary *)

Section SummaryFacts.

Lemma slowStep_fst (rs : list runResult) :
  forall t n, 0 <= t -> fst (fold_left slowStep rs (t, n)) = Z.max t (longest rs).
Proof.
  induction rs as [|v rs IH]; intros t n Ht; cbn [fold_left longest fold_right].
  - cbn [fst]. lia.
  - change (slowStep (t, n) v)
      with (if t <? execTime v then (execTime v, testcaseName v) else (t, n)).
    fold (longest rs).
    destruct (Z.ltb_spec t (execTime v)); rewrite IH by lia; lia.
Qed.

Lemma longest_bounds (rs : list runResult) :
  0 <= longest rs /\ Forall (fun r => execTime r <= longest rs) rs.
Proof.
  induction rs as [|v rs [IH0 IH]]; cbn [longest fold_right].
  - split; [lia | constructor].
  - fold (longest rs). split; [lia|]. constructor; [lia|].
    eapply Forall_impl; [|exact IH]. simpl. intros; lia.
Qed.

Lemma longest_perm (rs rs' : list runResult) :
  Permutation rs rs' -> longest rs = longest rs'.
Proof.
  unfold longest. induction 1; cbn [fold_right]; lia.
Qed.

Lemma countOf_perm (st : runStatus) (rs rs' : list runResult) :
  Permutation rs rs' -> countOf st rs = countOf st rs'.
Proof.
  unfold countOf. induction 1; simpl; try lia.
  - destruct (statusEqb (status x) st); simpl; lia.
  - destruct (statusEqb (status x) st), (statusEqb (status y) st); simpl; lia.
Qed.

Lemma slowestTime_longest (rs : list runResult) :
  slowestTime (summarize rs) = longest rs.
Proof.
  pose proof (slowestOf_fold rs summary0) as Hfold.
  fold (summarize rs) in Hfold. change (slowestOf summary0) with (0, "") in Hfold.
  change (slowestTime (summarize rs)) with (fst (slowestOf (summarize rs))).
  rewrite Hfold, slowStep_fst by lia. destruct (longest_bounds rs). lia.
Qed.

(** X9.  The slowest time of the summary is the greatest of zero and the
    durations of the results: it is never negative and no result took
    longer.  When no result took more than zero, the summary names no case
    at all; otherwise it names a result that took the slowest time. *)
Theorem slowest_time_is_longest (rs : list runResult) :
  let s := summarize rs in
  slowestTime s = longest rs
  /\ 0 <= slowestTime s
  /\ Forall (fun r => execTime r <= slowestTime s) rs
  /\ (Forall (fun r => execTime r <= 0) rs ->
      slowestTime s = 0 /\ slowestTestcaseName s = "")
  /\ ((exists r, In r rs /\ 0 < execTime r) ->
      exists r, In r rs /\ execTime r = slowestTime s /\
                testcaseName r = slowestTestcaseName s).
Proof.
  intros s. subst s.
  pose proof (slowestOf_fold rs summary0) as Hfold.
  fold (summarize rs) in Hfold. change (slowestOf summary0) with (0, "") in Hfold.
  pose proof (slowestTime_longest rs) as Htime.
  destruct (longest_bounds rs) as [H0 Hall].
  split; [exact Htime|]. rewrite Htime. split; [exact H0|]. split; [exact Hall|].
  split.
  - intros Hle.
    destruct (slowStep_fold rs 0 "") as [[_ Heq] | (l1 & r & l2 & Hrs & Hr & _)].
    + rewrite Heq in Hfold. unfold slowestOf in Hfold. injection Hfold as Ht Hn.
      rewrite <- Htime. auto.
    + rewrite Forall_forall in Hle. specialize (Hle r).
      rewrite Hrs in Hle. specialize (Hle (in_elt r l1 l2)). lia.
  - intros (x & Hin & Hpos).
    destruct (slowStep_fold rs 0 "") as [[Hle _] | (l1 & r & l2 & Hrs & _ & _ & _ & Heq)].
    + rewrite Forall_forall in Hle. specialize (Hle x Hin). lia.
    + exists r. rewrite Heq in Hfold. unfold slowestOf in Hfold.
      injection Hfold as Ht Hn. rewrite <- Htime.
      split; [rewrite Hrs; apply in_elt | auto].
Qed.

(** X10.  The four counters and the slowest time of the summary do not
    depend on the order of the results, wrap-around included; only the name
    of the slowest case does. *)
Theorem summary_order_free (rs rs' : list runResult) :
  Permutation rs rs' ->
  counts (summarize rs) = counts (summarize rs') /\
  slowestTime (summarize rs) = slowestTime (summarize rs').
Proof.
  intros Hp. split.
  - destruct (fold_counts rs summary0) as (Hac & Hwa & Htle & Hre).
    destruct (fold_counts rs' summary0) as (Hac' & Hwa' & Htle' & Hre').
    unfold counts, summarize.
    rewrite Hac, Hwa, Htle, Hre, Hac', Hwa', Htle', Hre'.
    now rewrite !(countOf_perm _ rs rs' Hp).
  - rewrite !slowestTime_longest. now apply longest_perm.
Qed.

(** Two orders of the same results: the counters and the slowest time
    agree, the names of the slowest case do not. *)
Lemma summary_order_free_witness :
  let a := newRunResult "a" accepted 8 in
  let b := newRunResult "b" wrongAnswer 8 in
  Permutation [a; b] [b; a] /\
  counts (summarize [a; b]) = counts (summarize [b; a]) /\
  slowestTime (summarize [a; b]) = slowestTime (summarize [b; a]) /\
  slowestTestcaseName (summarize [a; b]) <> slowestTestcaseName (summarize [b; a]).
Proof.
  intros a b.
  assert (Hp : Permutation [a; b] [b; a]) by apply perm_swap.
  split; [exact Hp|].
  destruct (summary_order_free [a; b] [b; a] Hp) as (Hc & Ht).
  split; [exact Hc|]. split; [exact Ht | discriminate].
Defined.

End SummaryFacts.

(* ================================================================== *)
(** * The annotation and the problem *)

Section Prefixes.

Lemma HasPrefix_app (p s : string) : strings_HasPrefix (p ++ s) p = true.
Proof.
  unfold strings_HasPrefix. rewrite length_app, substring_app_head, String.eqb_refl.
  rewrite andb_true_r. apply Nat.leb_le. lia.
Qed.

Lemma sliceFrom_app (p s : string) : sliceFrom (String.length p) (p ++ s) = s.
Proof.
  unfold sliceFrom. rewrite length_app.
  replace (String.length p + String.length s - String.length p)%nat
    with (String.length s) by lia.
  apply substring_app_tail.
Qed.

Lemma HasPrefix_split (s p : string) :
  strings_HasPrefix s p = true -> s = (p ++ sliceFrom (String.length p) s)%string.
Proof.
  unfold strings_HasPrefix, sliceFrom. intros H.
  apply andb_true_iff in H as [Hlen Heq].
  apply Nat.leb_le in Hlen. apply String.eqb_eq in Heq.
  rewrite (substring_split s (String.length p)) at 1 by lia. now rewrite Heq.
Qed.

(** What [.*] takes and what it leaves. *)
Lemma untilNewline_split (s : string) :
  hasByte "010" (untilNewline s) = false /\
  exists after,
    s = (untilNewline s ++ after)%string /\
    (after = "" \/ exists rest, after = String "010" rest).
Proof.
  induction s as [|c s (IHn & after & IHs & IHa)]; simpl.
  - split; [reflexivity|]. exists "". auto.
  - destruct (Ascii.eqb_spec c "010") as [->|Hc]; simpl.
    + split; [reflexivity|]. exists (String "010" s). split; [reflexivity|]. right. eauto.
    + split.
      * destruct (Ascii.eqb_spec c "010"); [contradiction | exact IHn].
      * exists after. split; [now rewrite <- IHs | exact IHa].
Qed.

Lemma untilNewline_app (url tail : string) :
  hasByte "010" url = false ->
  tail = "" \/ (exists rest, tail = String "010" rest) ->
  untilNewline (url ++ tail) = url.
Proof.
  intros Hurl Htail. induction url as [|c url IH]; simpl in *.
  - destruct Htail as [->|(rest & ->)]; reflexivity.
  - apply orb_false_iff in Hurl as [Hc Hurl]. rewrite Hc. now rewrite IH.
Qed.

End Prefixes.

Section Annotations.

Lemma literal_not_empty (before after : string) :
  (before ++ problemLiteral ++ after)%string <> "".
Proof. destruct before; discriminate. Qed.

(** The search stops at the leftmost place where the literal stands. *)
Lemma FindStringSubmatch_spec (s : string) :
  match annotationRegexp_FindStringSubmatch s with
  | Some matches =>
      exists before rest,
        s = (before ++ problemLiteral ++ rest)%string /\
        matches = [(problemLiteral ++ untilNewline rest)%string; untilNewline rest] /\
        (forall before' rest',
            s = (before' ++ problemLiteral ++ rest')%string ->
            (String.length before <= String.length before')%nat)
  | None => forall before rest, s <> (before ++ problemLiteral ++ rest)%string
  end.
Proof.
  induction s as [|c s IH].
  - cbn. intros before rest H. symmetry in H. now apply literal_not_empty in H.
  - cbn [annotationRegexp_FindStringSubmatch].
    destruct (strings_HasPrefix (String c s) problemLiteral) eqn:Hp.
    + exists "", (sliceFrom (String.length problemLiteral) (String c s)).
      split; [now apply HasPrefix_split|]. split; [reflexivity|].
      intros; simpl; lia.
    + destruct (annotationRegexp_FindStringSubmatch s) as [matches|].
      * destruct IH as (before & rest & Hs & Hm & Hleft).
        exists (String c before), rest. split; [simpl; now rewrite Hs|].
        split; [exact Hm|].
        intros [|c' before'] rest' H.
        -- cbn [append] in H. rewrite H, HasPrefix_app in Hp. discriminate.
        -- simpl in H. injection H as _ H. simpl. apply Hleft in H. lia.
      * intros [|c' before] rest H.
        -- cbn [append] in H. rewrite H, HasPrefix_app in Hp. discriminate.
        -- simpl in H. injection H as _ H. now apply IH in H.
Qed.

(** X11.  [readAnnotationComment] succeeds exactly when the text
    [// verification-helper: PROBLEM ] stands somewhere in the comment.
    The URL it returns is what follows the leftmost such place, up to the
    end of the line: it holds no newline, and whatever comes before the
    place is ignored.  Otherwise the error quotes the whole comment. *)
Theorem readAnnotationComment_result (comment : string) :
  match readAnnotationComment comment with
  | inl a =>
      exists before after,
        comment = (before ++ problemLiteral ++ ProblemURL a ++ after)%string /\
        hasByte "010" (ProblemURL a) = false /\
        (after = "" \/ exists rest, after = String "010" rest) /\
        (forall before' rest',
            comment = (before' ++ problemLiteral ++ rest')%string ->
            (String.length before <= String.length before')%nat)
  | inr err =>
      err = ErrNew (notMatchMessage comment) /\
      forall before rest, comment <> (before ++ problemLiteral ++ rest)%string
  end.
Proof.
  unfold readAnnotationComment.
  pose proof (FindStringSubmatch_spec comment) as Hs.
  destruct (annotationRegexp_FindStringSubmatch comment) as [matches|].
  - destruct Hs as (before & rest & Hc & -> & Hleft). cbn.
    destruct (untilNewline_split rest) as (Hn & after & Hr & Ha).
    exists before, after. split; [now rewrite <- Hr|]. auto.
  - split; [reflexivity | exact Hs].
Qed.

(** X12.  A line that starts with [// verification-helper: PROBLEM ] gives
    back the text between that start and the end of the line: the URL
    written on the line, when it holds no newline, whether the line ends the
    file or ends in a newline. *)
Theorem readAnnotationComment_line (url tail : string) :
  hasByte "010" url = false ->
  tail = "" \/ (exists rest, tail = String "010" rest) ->
  readAnnotationComment (problemLiteral ++ url ++ tail) = inl (mkAnnotation url).
Proof.
  intros Hurl Htail. unfold readAnnotationComment.
  assert (Hfind : annotationRegexp_FindStringSubmatch (problemLiteral ++ url ++ tail)
                  = Some [(problemLiteral ++ url)%string; url]).
  { assert (Hp : strings_HasPrefix (problemLiteral ++ url ++ tail) problemLiteral = true)
      by apply HasPrefix_app.
    assert (Hu : untilNewline
                   (sliceFrom (String.length problemLiteral)
                              (problemLiteral ++ url ++ tail)) = url)
      by (rewrite sliceFrom_app; now apply untilNewline_app).
    destruct (problemLiteral ++ url ++ tail)%string eqn:Hs;
      cbn [annotationRegexp_FindStringSubmatch]; rewrite Hp, Hu; reflexivity. }
  rewrite Hfind. reflexivity.
Qed.

(** A line of a file with Windows line ends: the carriage return stays in
    the URL. *)
Lemma readAnnotationComment_line_witness :
  let url := ("https://onlinejudge.u-aizu.ac.jp/courses/lesson/1/ALDS1/14/ALDS1_14_A"
              ++ String "013" "")%string in
  hasByte "010" url = false /\
  readAnnotationComment (problemLiteral ++ url ++ String "010" "") = inl (mkAnnotation url).
Proof.
  intros url.
  assert (H : hasByte "010" url = false) by reflexivity.
  split; [exact H|].
  apply (readAnnotationComment_line url (String "010" "") H).
  right. now exists "".
Defined.

Lemma firstAnnotation_skips (filename : string) (before : list string)
    (rest : list string) :
  Forall (fun l => isAnnotationComment l = false) before ->
  firstAnnotation filename (before ++ rest) = firstAnnotation filename rest.
Proof.
  induction 1 as [|l before Hl _ IH]; [reflexivity|].
  cbn [app firstAnnotation]. now rewrite Hl.
Qed.

(** X13.  [readAnnotationInFile] looks at the first line of the file that
    starts with [// verification-helper: ] and at no other: the lines before
    it are skipped, and what [readAnnotationComment] makes of that line is
    the answer (its error wrapped), whatever the lines after it hold.  A
    file without such a line, the empty file included, gives the error that
    no annotation was found, and a file that cannot be read gives the error
    of the read, wrapped. *)
Theorem readAnnotationInFile_first_annotation (filename bodyStr : string) :
  (forall before line after,
      strings_Lines bodyStr = before ++ line :: after ->
      Forall (fun l => isAnnotationComment l = false) before ->
      isAnnotationComment line = true ->
      readAnnotationInFile filename (inl bodyStr)
      = match readAnnotationComment line with
        | inl a => inl a
        | inr err => inr (ErrWrap "failed to read annotation comment: " err "")
        end)
  /\ (Forall (fun l => isAnnotationComment l = false) (strings_Lines bodyStr) ->
      readAnnotationInFile filename (inl bodyStr)
      = inr (ErrNew ("annotation comment is not found. filename: " ++ filename)))
  /\ (forall err,
         readAnnotationInFile filename (inr err)
         = inr (ErrWrap "failed to read file: " err "")).
Proof.
  unfold readAnnotationInFile. split; [|split].
  - intros before line after -> Hbefore Hline.
    rewrite (firstAnnotation_skips filename before (line :: after) Hbefore).
    cbn [firstAnnotation]. rewrite Hline. cbn [negb].
    destruct (readAnnotationComment line); reflexivity.
  - intros Hall.
    rewrite <- (app_nil_r (strings_Lines bodyStr)).
    now rewrite (firstAnnotation_skips filename _ [] Hall).
  - reflexivity.
Qed.

End Annotations.

(** A file whose first annotation line names no problem: the valid line
    after it is not looked at. *)
Lemma readAnnotationInFile_first_annotation_witness :
  let nl := String "010" "" in
  let first := ("// verification-helper: IGNORE" ++ nl)%string in
  let second := ("// verification-helper: PROBLEM https://judge.u-aizu.ac.jp/x" ++ nl)%string in
  let bodyStr := ("package main" ++ nl ++ first ++ second)%string in
  strings_Lines bodyStr = [("package main" ++ nl)%string] ++ first :: [second] /\
  readAnnotationInFile "main.go" (inl bodyStr)
  = inr (ErrWrap "failed to read annotation comment: "
                 (ErrNew (notMatchMessage first)) "").
Proof.
  intros nl first second bodyStr.
  assert (Hlines : strings_Lines bodyStr
                   = [("package main" ++ nl)%string] ++ first :: [second])
    by reflexivity.
  split; [exact Hlines|].
  destruct (readAnnotationInFile_first_annotation "main.go" bodyStr) as (Hfirst & _).
  rewrite (Hfirst _ first _ Hlines); [reflexivity | | reflexivity].
  constructor; [reflexivity | constructor].
Defined.

Section Problems.

Lemma splitSlash_last (s : string) :
  exists front id,
    splitSlash s = front ++ [id] /\
    hasByte "/" id = false /\
    ((front = [] /\ s = id) \/
     (front <> [] /\ exists dir, s = (dir ++ "/" ++ id)%string)).
Proof.
  induction s as [|c s (front & id & Hsplit & Hid & Hs)].
  - exists [], "". cbn. auto.
  - cbn [splitSlash]. rewrite Hsplit.
    destruct (Ascii.eqb_spec c "/") as [->|Hc].
    + destruct front as [|piece front]; cbn [app].
      * exists [""], id. split; [reflexivity|]. split; [exact Hid|].
        right. split; [discriminate|].
        destruct Hs as [[_ ->] | [Hf _]]; [now exists "" | contradiction].
      * exists ("" :: piece :: front), id. split; [reflexivity|]. split; [exact Hid|].
        right. split; [discriminate|].
        destruct Hs as [[Hf _] | [_ (dir & ->)]]; [discriminate|].
        now exists (String "/" dir).
    + destruct front as [|piece front]; cbn [app].
      * exists [], (String c id). split; [reflexivity|]. split.
        -- cbn. destruct (Ascii.eqb_spec c "/"); [contradiction | exact Hid].
        -- left. destruct Hs as [[_ ->] | [Hf _]]; [auto | contradiction].
      * exists (String c piece :: front), id. split; [reflexivity|]. split; [exact Hid|].
        right. split; [discriminate|].
        destruct Hs as [[Hf _] | [_ (dir & ->)]]; [discriminate|].
        now exists (String c dir).
Qed.

(** X14.  [extractProblemID] reads the problem off a parsed URL by its
    host.  For [onlinejudge.u-aizu.ac.jp] it is the part of the path after
    the last slash (the whole path when it has none, the empty string when
    the path ends in a slash), and the index into the segments is never out
    of range.  For [judge.u-aizu.ac.jp] it is the first value of the query
    key [id], or the empty string, without an error, when the key is
    missing.  Every other host is an error that quotes the URL. *)
Theorem extractProblemID_by_host (url_Parse : string -> URL + error)
    (problemURL : string) (u : URL) :
  url_Parse problemURL = inl u ->
  (Host u = "onlinejudge.u-aizu.ac.jp" ->
   exists id,
     extractProblemID url_Parse problemURL = Some (inl id) /\
     hasByte "/" id = false /\
     (Path u = id \/ exists dir, Path u = (dir ++ "/" ++ id)%string))
  /\ (Host u = "judge.u-aizu.ac.jp" ->
      extractProblemID url_Parse problemURL = Some (inl (Values_Get (Query u) "id")) /\
      (Query u "id" = [] -> extractProblemID url_Parse problemURL = Some (inl "")))
  /\ (Host u <> "onlinejudge.u-aizu.ac.jp" -> Host u <> "judge.u-aizu.ac.jp" ->
      extractProblemID url_Parse problemURL
      = Some (inr (ErrNew ("unsupported url. url: " ++ problemURL)))).
Proof.
  intros Hparse. unfold extractProblemID. rewrite Hparse. split; [|split].
  - intros ->.
    change (String.eqb "onlinejudge.u-aizu.ac.jp" "judge.u-aizu.ac.jp") with false.
    rewrite String.eqb_refl. cbv iota zeta.
    destruct (splitSlash_last (Path u)) as (front & id & Hsplit & Hid & Hpath).
    exists id. rewrite Hsplit, List.length_app. cbn [List.length].
    replace (List.length front + 1 - 1)%nat with (List.length front) by lia.
    rewrite nth_error_app2, Nat.sub_diag by lia. cbn [nth_error].
    split; [reflexivity|]. split; [exact Hid|].
    destruct Hpath as [[_ H]|[_ H]]; auto.
  - intros ->. rewrite String.eqb_refl. split; [reflexivity|].
    intros Hq. unfold Values_Get. now rewrite Hq.
  - intros H1 H2. apply String.eqb_neq in H1, H2. now rewrite H1, H2.
Qed.

End Problems.

(** The URL of the comment in the source, parsed. *)
Lemma extractProblemID_by_host_witness :
  let problemURL := "https://onlinejudge.u-aizu.ac.jp/courses/lesson/1/ALDS1/14/ALDS1_14_A" in
  let u := mkURL "onlinejudge.u-aizu.ac.jp" "/courses/lesson/1/ALDS1/14/ALDS1_14_A"
                 (fun _ => []) in
  let url_Parse := fun _ : string => @inl URL error u in
  url_Parse problemURL = inl u /\
  extractProblemID url_Parse problemURL = Some (inl "ALDS1_14_A") /\
  exists id,
    extractProblemID url_Parse problemURL = Some (inl id) /\
    hasByte "/" id = false /\
    (Path u = id \/ exists dir, Path u = (dir ++ "/" ++ id)%string).
Proof.
  intros problemURL u url_Parse.
  split; [reflexivity|]. split; [reflexivity|].
  destruct (extractProblemID_by_host url_Parse problemURL u eq_refl) as (Honline & _).
  exact (Honline eq_refl).
Defined.

(* ================================================================== *)
(** * The download of the test cases *)

Section RunningN.
Variable os : OS.

Lemma valueN_bindN {A B} (m : Main os A) (k : A -> Main os B) (w : World os) :
  valueN (bindN m k) w = valueN (k (valueN m w)) (afterN m w).
Proof.
  unfold valueN, afterN, bindN. destruct (m w) as [[a t1] w1]. simpl.
  now destruct (k a w1) as [[b t2] w2].
Qed.

Lemma callsN_bindN {A B} (m : Main os A) (k : A -> Main os B) (w : World os) :
  callsN (bindN m k) w = callsN m w ++ callsN (k (valueN m w)) (afterN m w).
Proof.
  unfold callsN, valueN, afterN, bindN. destruct (m w) as [[a t1] w1]. simpl.
  now destruct (k a w1) as [[b t2] w2].
Qed.

Lemma afterN_bindN {A B} (m : Main os A) (k : A -> Main os B) (w : World os) :
  afterN (bindN m k) w = afterN (k (valueN m w)) (afterN m w).
Proof.
  unfold valueN, afterN, bindN. destruct (m w) as [[a t1] w1]. simpl.
  now destruct (k a w1) as [[b t2] w2].
Qed.

Lemma valueN_retN {A} (a : A) (w : World os) : valueN (@retN os A a) w = a.
Proof. reflexivity. Qed.

Lemma callsN_retN {A} (a : A) (w : World os) : callsN (@retN os A a) w = [].
Proof. reflexivity. Qed.

Lemma afterN_retN {A} (a : A) (w : World os) : afterN (@retN os A a) w = w.
Proof. reflexivity. Qed.

Lemma callsN_callN {A} (op : World os -> A * World os) (c : A -> ncall) (w : World os) :
  callsN (callN os op c) w = [c (valueN (callN os op c) w)].
Proof. unfold callsN, valueN, callN. now destruct (op w). Qed.

Lemma callsN_callN0 (op : World os -> World os) (c : ncall) (w : World os) :
  callsN (callN0 os op c) w = [c].
Proof. reflexivity. Qed.

Lemma valueN_lift {A} (m : M os A) (w : World os) : valueN (lift m) w = valueOf m w.
Proof. unfold valueN, valueOf, lift. now destruct (m w) as [[a t] w1]. Qed.

Lemma callsN_lift {A} (m : M os A) (w : World os) :
  callsN (lift m) w = map NEngine (callsOf m w).
Proof. unfold callsN, callsOf, lift. now destruct (m w) as [[a t] w1]. Qed.

Lemma afterN_lift {A} (m : M os A) (w : World os) : afterN (lift m) w = worldAfter m w.
Proof. unfold afterN, worldAfter, lift. now destruct (m w) as [[a t] w1]. Qed.

End RunningN.

Create Rewrite HintDb runN.

#[local] Hint Rewrite
  @valueN_bindN @callsN_bindN @afterN_bindN
  @valueN_retN @callsN_retN @afterN_retN
  @callsN_callN0 @valueN_lift @callsN_lift @afterN_lift
  @callsOf_call0 @callsOf_Info : runN.

Ltac runN_simpl :=
  unfold deferN, ReadFile, Get, ReadAll, BodyClose, Stat, MkdirAll, CopyString, Sleep,
    Create, Close;
  repeat (autorewrite with runN; rewrite ?callsN_callN, ?callsOf_call1);
  cbn [app map fst snd].

Section FetchShapes.
Variable os : OS.
Variable net : Net os.

Lemma fetch_shape (apiURL dir filename : string) (w : World os) :
  FetchShape net apiURL dir filename
    (valueN (fetchTestcaseAndSaveToFile os net apiURL dir filename) w)
    (callsN (fetchTestcaseAndSaveToFile os net apiURL dir filename) w).
Proof.
  unfold fetchTestcaseAndSaveToFile, existsFileOrDir. runN_simpl.
  destruct (valueN (callN os (http_Get net apiURL) (NGet apiURL)) w) as [resp|err];
    runN_simpl; [|constructor].
  generalize (afterN (callN os (http_Get net apiURL) (NGet apiURL)) w). intros w1.
  destruct (valueN (callN os (io_ReadAll net resp) (NReadAll resp)) w1) as [body|err];
    runN_simpl; [|constructor].
  generalize (afterN (callN os (io_ReadAll net resp) (NReadAll resp)) w1). intros w2.
  destruct (json_Unmarshal_testcase net body) as [tc|err] eqn:Hjson;
    runN_simpl; [|now constructor].
  destruct (valueN (callN os (os_Stat net dir) (NStat dir)) w2) as [statErr|];
    generalize (afterN (callN os (os_Stat net dir) (NStat dir)) w2); intros w3;
    cbn [negb]; runN_simpl.
  - destruct (valueN (callN os (os_MkdirAll net dir) (NMkdirAll dir)) w3) as [err|];
      generalize (afterN (callN os (os_MkdirAll net dir) (NMkdirAll dir)) w3); intros w4;
      runN_simpl; [now apply (FetchMkdirFails net apiURL dir filename resp body tc)|].
    match goal with |- context [valueOf (call1 os (os_Create os ?p) ?c) w4] =>
      destruct (valueOf (call1 os (os_Create os p) c) w4) as [inFile|err];
      generalize (worldAfter (call1 os (os_Create os p) c) w4) end; intros w5; runN_simpl.
    + match goal with |- context [valueN (callN os (io_CopyString net inFile ?d) ?c) w5] =>
        generalize (valueN (callN os (io_CopyString net inFile d) c) w5);
        generalize (afterN (callN os (io_CopyString net inFile d) c) w5) end.
      intros w6 written1.
      match goal with |- context [valueOf (call1 os (os_Create os ?p) ?c) w6] =>
        destruct (valueOf (call1 os (os_Create os p) c) w6) as [outFile|err];
        generalize (worldAfter (call1 os (os_Create os p) c) w6) end; intros w7; runN_simpl.
      * match goal with |- context [valueN (callN os (io_CopyString net outFile ?d) ?c) w7] =>
          generalize (valueN (callN os (io_CopyString net outFile d) c) w7) end.
        intros written2.
        apply (FetchSaved net apiURL dir filename resp body tc
                 [NStat dir (Some statErr); NMkdirAll dir None]); [exact Hjson | constructor].
      * apply (FetchCreateOutFails net apiURL dir filename resp body tc
                 [NStat dir (Some statErr); NMkdirAll dir None]); [exact Hjson | constructor].
    + apply (FetchCreateInFails net apiURL dir filename resp body tc
               [NStat dir (Some statErr); NMkdirAll dir None]); [exact Hjson | constructor].
  - match goal with |- context [valueOf (call1 os (os_Create os ?p) ?c) w3] =>
      destruct (valueOf (call1 os (os_Create os p) c) w3) as [inFile|err];
      generalize (worldAfter (call1 os (os_Create os p) c) w3) end; intros w5; runN_simpl.
    + match goal with |- context [valueN (callN os (io_CopyString net inFile ?d) ?c) w5] =>
        generalize (valueN (callN os (io_CopyString net inFile d) c) w5);
        generalize (afterN (callN os (io_CopyString net inFile d) c) w5) end.
      intros w6 written1.
      match goal with |- context [valueOf (call1 os (os_Create os ?p) ?c) w6] =>
        destruct (valueOf (call1 os (os_Create os p) c) w6) as [outFile|err];
        generalize (worldAfter (call1 os (os_Create os p) c) w6) end; intros w7; runN_simpl.
      * match goal with |- context [valueN (callN os (io_CopyString net outFile ?d) ?c) w7] =>
          generalize (valueN (callN os (io_CopyString net outFile d) c) w7) end.
        intros written2.
        apply (FetchSaved net apiURL dir filename resp body tc [NStat dir None]);
          [exact Hjson | constructor].
      * apply (FetchCreateOutFails net apiURL dir filename resp body tc [NStat dir None]);
          [exact Hjson | constructor].
    + apply (FetchCreateInFails net apiURL dir filename resp body tc [NStat dir None]);
        [exact Hjson | constructor].
Qed.

End FetchShapes.

Section FetchFacts.
Variable os : OS.
Variable net : Net os.

Lemma ready_not_engine (dir : string) (ready : list ncall) (c : call) :
  DirReady dir ready -> ~ In (NEngine c) ready.
Proof. intros Hr Hin. inversion Hr; subst; in_cases Hin. Qed.

Lemma ready_not_failed (dir : string) (ready : list ncall) :
  DirReady dir ready -> existsb fetchFailed ready = false.
Proof. inversion 1; reflexivity. Qed.

(** X15.  [fetchTestcaseAndSaveToFile] reports no write error.  It returns
    nil exactly when the [.out] file was created; whether the input and the
    output were then written to the two files does not matter, since what
    [io.Copy] returns is dropped.  An error it returns comes from the
    request, the reading of the response, the decoding of the body, the
    making of the directory or the creation of one of the two files. *)
Theorem fetch_reports_no_write_error (apiURL dir filename : string) (w : World os) :
  let res := valueN (fetchTestcaseAndSaveToFile os net apiURL dir filename) w in
  let calls := callsN (fetchTestcaseAndSaveToFile os net apiURL dir filename) w in
  let outPath := filepath_Join dir (filename ++ ".out")%string in
  (res = None <-> exists outFile, In (NEngine (CCreate outPath (inl outFile))) calls)
  /\ (res = None -> existsb fetchFailed calls = false)
  /\ (forall e, res = Some e ->
      existsb fetchFailed calls = true \/
      exists resp body err,
        In (NReadAll resp (inl body)) calls /\
        json_Unmarshal_testcase net body = inr err).
Proof.
  intros res calls outPath. subst res calls outPath.
  pose proof (fetch_shape os net apiURL dir filename w) as Hs.
  inversion Hs as [err Hr Hc | resp err Hr Hc | resp body err Hj Hr Hc
                   | resp body tc statErr err Hj Hr Hc
                   | resp body tc ready err Hj Hready Hr Hc
                   | resp body tc ready inFile written err Hj Hready Hr Hc
                   | resp body tc ready inFile written1 outFile written2 Hj Hready Hr Hc].
  - split; [split; [discriminate | intros (f & H); in_cases H]|].
    split; [discriminate|]. intros e _. now left.
  - split; [split; [discriminate | intros (f & H); in_cases H]|].
    split; [discriminate|]. intros e _. now left.
  - split; [split; [discriminate | intros (f & H); in_cases H]|].
    split; [discriminate|]. intros e _. right. exists resp, body, err.
    split; [right; now left | exact Hj].
  - split; [split; [discriminate | intros (f & H); in_cases H]|].
    split; [discriminate|]. intros e _. now left.
  - split; [split; [discriminate|]|].
    { intros (f & H). cbn [In] in H. destruct H as [H|[H|H]]; try discriminate H.
      apply in_app_or in H as [H|H]; [now apply (ready_not_engine _ _ _ Hready) in H|].
      in_cases H. }
    split; [discriminate|]. intros e _. left.
    cbn [existsb fetchFailed orb]. rewrite existsb_app. cbn. now rewrite orb_true_r.
  - split; [split; [discriminate|]|].
    { intros (f & H). cbn [In] in H. destruct H as [H|[H|H]]; try discriminate H.
      apply in_app_or in H as [H|H]; [now apply (ready_not_engine _ _ _ Hready) in H|].
      cbn [In] in H. destruct H as [H|[H|[H|[H|[H|[]]]]]]; try discriminate H.
      injection H as H _. now apply in_not_out in H. }
    split; [discriminate|]. intros e _. left.
    cbn [existsb fetchFailed orb]. rewrite existsb_app. cbn. now rewrite orb_true_r.
  - split; [split; [intros _ | reflexivity]|].
    { exists outFile. do 2 right. apply in_or_app. right. do 2 right. now left. }
    split; [|discriminate]. intros _.
    cbn [existsb fetchFailed orb]. rewrite existsb_app, (ready_not_failed _ _ Hready).
    reflexivity.
Qed.

(** X16.  [fetchTestcaseAndSaveToFile] gives back what it took: the body of
    every response it got is closed, and every file it created is closed,
    the one created last first, on each of its returns. *)
Theorem fetch_releases (apiURL dir filename : string) (w : World os) :
  let calls := callsN (fetchTestcaseAndSaveToFile os net apiURL dir filename) w in
  bodiesClosed calls = bodiesGot calls /\
  closed (engineCalls calls) = rev (opened (engineCalls calls)).
Proof.
  intros calls. subst calls.
  pose proof (fetch_shape os net apiURL dir filename w) as Hs.
  inversion Hs as [err Hr Hc | resp err Hr Hc | resp body err Hj Hr Hc
                   | resp body tc statErr err Hj Hr Hc
                   | resp body tc ready err Hj Hready Hr Hc
                   | resp body tc ready inFile written err Hj Hready Hr Hc
                   | resp body tc ready inFile written1 outFile written2 Hj Hready Hr Hc];
    try (split; reflexivity);
    inversion Hready; subst; split; reflexivity.
Qed.

End FetchFacts.

(** On the simulated network with a full disk, for a test case whose name
    has a [..] element: the two files are created at the cleaned paths,
    neither write succeeds, and the download is reported as done. *)
Lemma fetch_reports_no_write_error_witness :
  let net := SimNet.net SimNet.oneCase false (fun _ => inr (ErrNew "")) None in
  let fetch := fetchTestcaseAndSaveToFile Sim.os net
                 "https://judgedat.u-aizu.ac.jp/testcases/P/1" "cache" "sub/../1" in
  filepath_Join "cache" ("sub/../1" ++ ".out") = "cache/1.out" /\
  existsb writeFailed (callsN fetch SimNet.fresh) = true /\
  In (NEngine (CCreate "cache/1.in" (inl 1%nat))) (callsN fetch SimNet.fresh) /\
  In (NEngine (CCreate "cache/1.out" (inl 2%nat))) (callsN fetch SimNet.fresh) /\
  valueN fetch SimNet.fresh = None.
Proof.
  intros net fetch.
  assert (Hin : In (NEngine (CCreate "cache/1.in" (inl 1%nat))) (callsN fetch SimNet.fresh))
    by (vm_compute; do 4 right; left; reflexivity).
  assert (Hout : In (NEngine (CCreate "cache/1.out" (inl 2%nat))) (callsN fetch SimNet.fresh))
    by (vm_compute; do 6 right; left; reflexivity).
  split; [reflexivity|]. split; [vm_compute; reflexivity|].
  split; [exact Hin|]. split; [exact Hout|].
  destruct (fetch_reports_no_write_error Sim.os net
              "https://judgedat.u-aizu.ac.jp/testcases/P/1" "cache" "sub/../1" SimNet.fresh)
    as ([_ Hnil] & _).
  apply Hnil. exists 2%nat. exact Hout.
Defined.

(* ================================================================== *)
(** ** The download loop *)

Section DownloadLoop.
Variable os : OS.
Variable net : Net os.
Variables problemID cacheDir : string.

Lemma download_shape (h : header) (w : World os) :
  DownloadShape net problemID cacheDir h
    (valueN (downloadOne os net problemID cacheDir h) w)
    (callsN (downloadOne os net problemID cacheDir h) w).
Proof.
  unfold downloadOne, isTestcaseCached, existsFileOrDir. runN_simpl.
  match goal with |- context [valueN (callN os (os_Stat net ?p) ?c) w] =>
    destruct (valueN (callN os (os_Stat net p) c) w) as [statErr|];
    generalize (afterN (callN os (os_Stat net p) c) w) end; intros w1; runN_simpl.
  - apply DownloadFetched. apply fetch_shape.
  - constructor.
Qed.

Lemma fetch_sleeps (apiURL dir filename : string) (err : goerr) (calls : list ncall) :
  FetchShape net apiURL dir filename err calls ->
  filter isSleep calls = [] /\ List.length (filter isGet calls) = 1%nat.
Proof.
  inversion 1; subst; try (split; reflexivity);
    match goal with H : DirReady _ _ |- _ => inversion H; subst end; split; reflexivity.
Qed.

Lemma download_sleeps (h : header) (err : goerr) (calls : list ncall) :
  DownloadShape net problemID cacheDir h err calls ->
  filter isSleep calls
  = repeat (NSleep threeSeconds) (List.length (filter isGet calls)).
Proof.
  inversion 1 as [|statErr err' fetchCalls Hf]; subst; [reflexivity|].
  destruct (fetch_sleeps _ _ _ _ _ Hf) as [Hs Hg].
  cbn [filter isSleep isGet]. rewrite !filter_app, Hs, List.length_app, Hg. reflexivity.
Qed.

Lemma valueN_callN {A} (op : World os -> A * World os) (c : A -> ncall) (w : World os) :
  valueN (callN os op c) w = fst (op w).
Proof. unfold valueN, callN. now destruct (op w). Qed.

Lemma afterN_callN {A} (op : World os -> A * World os) (c : A -> ncall) (w : World os) :
  afterN (callN os op c) w = snd (op w).
Proof. unfold afterN, callN. now destruct (op w). Qed.

Lemma afterN_callN0 (op : World os -> World os) (c : ncall) (w : World os) :
  afterN (callN0 os op c) w = op w.
Proof. reflexivity. Qed.

(** The calls of a download start with the request and hold no other
    request and no sleep. *)
Lemma fetch_starts (apiURL dir filename : string) (err : goerr) (calls : list ncall) :
  FetchShape net apiURL dir filename err calls ->
  exists res rest,
    calls = NGet apiURL res :: rest /\
    existsb isGet rest = false /\ existsb isSleep rest = false.
Proof.
  inversion 1; subst; eexists; eexists; (split; [reflexivity|]);
    try (split; reflexivity);
    match goal with H : DirReady _ _ |- _ => inversion H; subst end;
    split; reflexivity.
Qed.

(** Calls that are neither requests nor sleeps do not count. *)
Lemma sleptAfterEach_skip (pending : bool) (calls rest : list ncall) :
  existsb isGet calls = false -> existsb isSleep calls = false ->
  sleptAfterEach pending (calls ++ rest) = sleptAfterEach pending rest.
Proof.
  induction calls as [|c calls IH]; intros Hg Hs; [reflexivity|].
  cbn [existsb] in Hg, Hs.
  apply orb_false_iff in Hg as [Hg1 Hg2]. apply orb_false_iff in Hs as [Hs1 Hs2].
  destruct c; cbn [app sleptAfterEach]; try discriminate; now apply IH.
Qed.

Lemma download_slept (h : header) (err : goerr) (calls rest : list ncall) :
  DownloadShape net problemID cacheDir h err calls ->
  sleptAfterEach false (calls ++ rest) = sleptAfterEach false rest.
Proof.
  inversion 1 as [|statErr err' fetchCalls Hf]; subst; [reflexivity|].
  destruct (fetch_starts _ _ _ _ _ Hf) as (res & more & -> & Hg & Hs).
  cbn [app sleptAfterEach negb andb]. rewrite <- !app_assoc.
  rewrite (sleptAfterEach_skip true more _ Hg Hs).
  cbn [app sleptAfterEach andb]. now rewrite Z.eqb_refl.
Qed.

(** X17.  The download loop sleeps three seconds after every request for a
    test case, whether the download failed or not, and at no other time.
    In the calls of the loop every request is followed by a sleep of three
    seconds before the next request and before the end, and every sleep
    follows a request that no sleep has followed yet; so the sleeps are as
    many as the requests.  One iteration looks for the [.in] file of its
    test case, at the cleaned path.  When the file is there the iteration
    is over with that one look: no request, no sleep, no look at the [.out]
    file.  When it is not, the iteration makes the calls of the download,
    which start with the request and hold no sleep, then sleeps, and hands
    on what the download returned. *)
Theorem download_sleeps_after_each_request (headers : list (option header))
    (multiErr : goerr) (w : World os) :
  let calls := callsN (downloadEach os net problemID cacheDir headers multiErr) w in
  sleptAfterEach false calls = true
  /\ filter isSleep calls = repeat (NSleep threeSeconds) (List.length (filter isGet calls))
  /\ (forall (h : header) (w' : World os),
        let inPath := filepath_Join cacheDir (header_Name h ++ ".in")%string in
        let apiURL := testcaseURL problemID (header_Serial h) in
        let stat := os_Stat net inPath w' in
        let one := downloadOne os net problemID cacheDir h in
        let fetch := fetchTestcaseAndSaveToFile os net apiURL cacheDir (header_Name h) in
        match fst stat with
        | None =>
            callsN one w' = [NStat inPath None]
            /\ valueN one w' = None
            /\ afterN one w' = snd stat
        | Some statErr =>
            callsN one w'
            = NStat inPath (Some statErr) :: callsN fetch (snd stat)
              ++ [NSleep threeSeconds]
            /\ valueN one w' = valueN fetch (snd stat)
            /\ afterN one w' = time_Sleep net threeSeconds (afterN fetch (snd stat))
            /\ exists res rest,
                 callsN fetch (snd stat) = NGet apiURL res :: rest /\
                 existsb isGet rest = false /\ existsb isSleep rest = false
        end).
Proof.
  intros calls. subst calls. split; [|split].
  - revert multiErr w. induction headers as [|[h|] rest IH]; intros multiErr w;
      cbn [downloadEach]; runN_simpl; try reflexivity.
    rewrite (download_slept _ _ _ _ (download_shape h w)).
    destruct (valueN (downloadOne os net problemID cacheDir h) w); apply IH.
  - revert multiErr w. induction headers as [|[h|] rest IH]; intros multiErr w;
      cbn [downloadEach]; runN_simpl; try reflexivity.
    rewrite !filter_app, List.length_app, repeat_app.
    rewrite (download_sleeps _ _ _ (download_shape h w)). f_equal.
    destruct (valueN (downloadOne os net problemID cacheDir h) w); apply IH.
  - intros h w' inPath apiURL stat one fetch. subst one.
    unfold downloadOne, isTestcaseCached, existsFileOrDir. runN_simpl.
    rewrite !valueN_callN, ?afterN_callN. fold inPath. fold stat.
    destruct (fst stat) as [statErr|]; runN_simpl.
    + fold apiURL. fold fetch. rewrite afterN_callN0.
      split; [reflexivity|]. split; [reflexivity|]. split; [reflexivity|].
      eapply fetch_starts. apply fetch_shape.
    + repeat split.
Qed.

Lemma fetch_error_joined (apiURL dir filename : string) (e : error) (calls : list ncall) :
  FetchShape net apiURL dir filename (Some e) calls -> joined e = [e].
Proof. inversion 1; reflexivity. Qed.

Lemma download_error_joined (h : header) (e : error) (calls : list ncall) :
  DownloadShape net problemID cacheDir h (Some e) calls -> joined e = [e].
Proof. inversion 1; subst. eapply fetch_error_joined; eassumption. Qed.

(** The loop over [before ++ rest], when the loop over [before] meets no
    nil header. *)
Lemma downloadEach_app (before rest : list (option header)) :
  forall multiErr w m1,
    valueN (downloadEach os net problemID cacheDir before multiErr) w = LoopDone m1 ->
    let w1 := afterN (downloadEach os net problemID cacheDir before multiErr) w in
    valueN (downloadEach os net problemID cacheDir (before ++ rest) multiErr) w
    = valueN (downloadEach os net problemID cacheDir rest m1) w1
    /\ callsN (downloadEach os net problemID cacheDir (before ++ rest) multiErr) w
       = callsN (downloadEach os net problemID cacheDir before multiErr) w
         ++ callsN (downloadEach os net problemID cacheDir rest m1) w1.
Proof.
  induction before as [|[h|] before IH]; intros multiErr w m1;
    cbn [app downloadEach]; runN_simpl.
  - intros [= <-]. auto.
  - destruct (valueN (downloadOne os net problemID cacheDir h) w) as [e|];
      intros Hv; destruct (IH _ _ _ Hv) as (Hval & Hcalls);
      rewrite Hval, Hcalls, app_assoc; auto.
  - discriminate.
Qed.

(** Errors once joined stay in [multiErr]. *)
Lemma downloadEach_keeps (headers : list (option header)) :
  forall multiErr w m,
    valueN (downloadEach os net problemID cacheDir headers multiErr) w = LoopDone m ->
    incl (joined_all multiErr) (joined_all m).
Proof.
  induction headers as [|[h|] rest IH]; intros multiErr w m;
    cbn [downloadEach]; runN_simpl.
  - intros [= <-]. apply incl_refl.
  - destruct (valueN (downloadOne os net problemID cacheDir h) w) as [e|]; intros Hv.
    + apply IH in Hv. intros x Hx. apply Hv.
      destruct multiErr as [e0|]; cbn in *; [apply in_or_app; now left | destruct Hx].
    + now apply IH in Hv.
  - discriminate.
Qed.

(** X18.  A test case that cannot be downloaded does not stop the loop.
    When the download for a header fails, its error is joined to [multiErr]
    and the loop goes on with the headers after it, from the world the
    failed download leaves; when the loop ends, [multiErr] is not nil and
    holds that error. *)
Theorem failed_download_is_joined (before after : list (option header)) (h : header)
    (w : World os) (m1 : goerr) (e : error) :
  let loopBefore := downloadEach os net problemID cacheDir before None in
  let w1 := afterN loopBefore w in
  let this := downloadOne os net problemID cacheDir h in
  let w2 := afterN this w1 in
  let loopAfter := downloadEach os net problemID cacheDir after (errors_Join m1 (Some e)) in
  let whole := downloadEach os net problemID cacheDir (before ++ Some h :: after) None in
  valueN loopBefore w = LoopDone m1 ->
  valueN this w1 = Some e ->
  callsN whole w = callsN loopBefore w ++ callsN this w1 ++ callsN loopAfter w2
  /\ valueN whole w = valueN loopAfter w2
  /\ (forall m, valueN whole w = LoopDone m -> m <> None /\ In e (joined_all m)).
Proof.
  intros loopBefore w1 this w2 loopAfter whole Hbefore Hthis.
  destruct (downloadEach_app before (Some h :: after) None w m1 Hbefore) as (Hv & Hc).
  fold whole loopBefore w1 in Hv, Hc.
  assert (Hstep : valueN (downloadEach os net problemID cacheDir (Some h :: after) m1) w1
                  = valueN loopAfter w2
                  /\ callsN (downloadEach os net problemID cacheDir (Some h :: after) m1) w1
                     = callsN this w1 ++ callsN loopAfter w2).
  { cbn [downloadEach]. runN_simpl. fold this. rewrite Hthis. fold w2. auto. }
  destruct Hstep as (Hsv & Hsc). rewrite Hsv in Hv. rewrite Hsc in Hc.
  split; [exact Hc|]. split; [exact Hv|].
  intros m Hm. rewrite Hv in Hm.
  pose proof (downloadEach_keeps after _ _ _ Hm) as Hincl.
  assert (Hin : In e (joined_all m)).
  { apply Hincl.
    pose proof (download_shape h w1) as Hs. fold this in Hs. rewrite Hthis in Hs.
    apply download_error_joined in Hs.
    destruct m1 as [e1|]; cbn; rewrite Hs; [apply in_or_app; right|]; now left. }
  split; [|exact Hin]. intros ->. destruct Hin.
Qed.

End DownloadLoop.

(** On the simulated network the server has the first test case only, and
    the name of the first test case has a [..] element: the loop looks for
    the cleaned path, and each of the two requests, the one that succeeds
    and the one that fails, is followed by its sleep. *)
Lemma download_sleeps_after_each_request_witness :
  let net := SimNet.net SimNet.oneCase true (fun _ => inr (ErrNew "")) None in
  let h1 := mkHeader 1 "sub/../1" 2 2 0 in
  let h2 := mkHeader 2 "2" 2 2 0 in
  let calls := callsN (downloadEach Sim.os net "P" "cache" [Some h1; Some h2] None)
                      SimNet.fresh in
  hd_error calls = Some (NStat "cache/1.in" (Some (Sim.noEnt "stat" "cache/1.in"))) /\
  filter (fun c => isGet c || isSleep c) calls
  = [NGet "https://judgedat.u-aizu.ac.jp/testcases/P/1" (inl 0%nat);
     NSleep threeSeconds;
     NGet "https://judgedat.u-aizu.ac.jp/testcases/P/2"
          (inr (ErrNew "dial tcp: connection refused"));
     NSleep threeSeconds] /\
  sleptAfterEach false calls = true.
Proof.
  intros net h1 h2 calls.
  split; [vm_compute; reflexivity|]. split; [vm_compute; reflexivity|].
  destruct (download_sleeps_after_each_request Sim.os net "P" "cache"
              [Some h1; Some h2] None SimNet.fresh) as (Hslept & _).
  exact Hslept.
Defined.

(** On the simulated network the server has the first test case only: the
    second fails, the first and the third are looked for all the same. *)
Lemma failed_download_is_joined_witness :
  let net := SimNet.net SimNet.oneCase true (fun _ => inr (ErrNew "")) None in
  let h1 := mkHeader 1 "1" 2 2 0 in
  let h2 := mkHeader 2 "2" 2 2 0 in
  let h3 := mkHeader 3 "3" 2 2 0 in
  let w := SimNet.fresh in
  let w1 := afterN (downloadEach Sim.os net "P" "cache" [Some h1] None) w in
  let whole := downloadEach Sim.os net "P" "cache" ([Some h1] ++ Some h2 :: [Some h3]) None in
  valueN (downloadEach Sim.os net "P" "cache" [Some h1] None) w = LoopDone None /\
  (exists e, valueN (downloadOne Sim.os net "P" "cache" h2) w1 = Some e) /\
  List.length (filter isGet (callsN whole w)) = 3%nat /\
  (forall m, valueN whole w = LoopDone m -> m <> None).
Proof.
  intros net h1 h2 h3 w w1 whole.
  assert (Hbefore : valueN (downloadEach Sim.os net "P" "cache" [Some h1] None) w
                    = LoopDone None) by (vm_compute; reflexivity).
  assert (Hthis : valueN (downloadOne Sim.os net "P" "cache" h2) w1
                  = Some (ErrWrap "failed to fetch testcases: "
                                  (ErrNew "dial tcp: connection refused") ""))
    by (vm_compute; reflexivity).
  split; [exact Hbefore|]. split; [eexists; exact Hthis|].
  split; [vm_compute; reflexivity|].
  destruct (failed_download_is_joined Sim.os net "P" "cache" [Some h1] [Some h3] h2
              w None _ Hbefore Hthis) as (_ & _ & Hm).
  intros m Hv. now destruct (Hm m Hv).
Defined.

(* ================================================================== *)
(** ** [main] *)

Section Main.
Variable os : OS.
Variable net : Net os.

Lemma main_shape (args : list string) (w : World os) :
  MainShape net args (valueN (main os net args) w) (callsN (main os net args) w).
Proof.
  unfold main. destruct (nth_error args 1) as [filename|] eqn:Harg;
    [|now constructor].
  runN_simpl.
  generalize (valueN (callN os (os_ReadFile net filename) (NReadFile filename)) w).
  generalize (afterN (callN os (os_ReadFile net filename) (NReadFile filename)) w).
  intros w1 read.
  destruct (readAnnotationInFile filename read) as [annotation|err]; runN_simpl;
    [|now apply (MainNoProblem net args filename)].
  destruct (extractProblemID (url_Parse net) (ProblemURL annotation))
    as [[problemID|err]|]; runN_simpl;
    try (now apply (MainNoProblem net args filename)).
  destruct (valueN (fetchProblemTestcasesHeader os net problemID) w1)
    as [[response|]|err] eqn:Hhdr; runN_simpl; rewrite ?app_nil_r;
    try (now apply (MainNoHeader net args filename)).
  generalize (afterN (fetchProblemTestcasesHeader os net problemID) w1). intros w2.
  destruct (valueN (downloadEach os net problemID
                      (constructCacheDirPath os net (ProblemURL annotation))
                      (Headers response) None) w2) as [[multiErr|]|] eqn:Hloop;
    runN_simpl; rewrite ?app_nil_r;
    try (now apply (MainDownloadFails net args filename)).
  match goal with |- context [valueOf (verifyRun os ?c ?f) ?w3] =>
    pose proof (MainVerified net args filename read problemID c (Headers response)
                  (Some response) w1 w2 w3 Harg Hhdr Hloop) as Hv;
    destruct (returned (valueOf (verifyRun os c f) w3)) end;
    runN_simpl; rewrite ?app_nil_r; exact Hv.
Qed.

Lemma header_calls (problemID : string) (w : World os) :
  engineCalls (callsN (fetchProblemTestcasesHeader os net problemID) w) = []
  /\ (forall response,
         valueN (fetchProblemTestcasesHeader os net problemID) w = inl response ->
         existsb fetchFailed (callsN (fetchProblemTestcasesHeader os net problemID) w)
         = false).
Proof.
  unfold fetchProblemTestcasesHeader. runN_simpl.
  match goal with |- context [valueN (callN os (http_Get net ?u) ?c) w] =>
    destruct (valueN (callN os (http_Get net u) c) w) as [resp|err];
    generalize (afterN (callN os (http_Get net u) c) w) end; intros w1; runN_simpl;
    [|split; [reflexivity | discriminate]].
  destruct (valueN (callN os (io_ReadAll net resp) (NReadAll resp)) w1) as [body|err];
    runN_simpl; split; try reflexivity; try discriminate.
Qed.

Lemma engineCalls_app (l1 l2 : list ncall) :
  engineCalls (l1 ++ l2) = engineCalls l1 ++ engineCalls l2.
Proof.
  induction l1 as [|x l1 IH]; [reflexivity|].
  destruct x; simpl; rewrite ?IH; reflexivity.
Qed.

Lemma engineCalls_map (l : list call) : engineCalls (map NEngine l) = l.
Proof. induction l as [|c l IH]; simpl; [reflexivity | now rewrite IH]. Qed.

(** A property of the engine calls that fails on all of them fails on the
    list. *)
Lemma existsb_engine (P : call -> bool) (l : list ncall) :
  existsb (fun c => match c with NEngine c' => P c' | _ => false end) l
  = existsb P (engineCalls l).
Proof.
  induction l as [|x l IH]; [reflexivity|].
  destruct x; simpl; rewrite ?IH; reflexivity.
Qed.

Lemma fetch_engine_calls (apiURL dir filename : string) (err : goerr) (calls : list ncall) :
  FetchShape net apiURL dir filename err calls ->
  existsb startsVerify calls = false /\ existsb writesSummary calls = false /\
  (err = None -> existsb fetchFailed calls = false).
Proof.
  inversion 1; subst; try (repeat split; (reflexivity || discriminate));
    match goal with H : DirReady _ _ |- _ => inversion H; subst end;
    repeat split; (reflexivity || discriminate).
Qed.

Lemma download_engine_calls (problemID cacheDir : string) (h : header) (err : goerr)
    (calls : list ncall) :
  DownloadShape net problemID cacheDir h err calls ->
  existsb startsVerify calls = false /\ existsb writesSummary calls = false /\
  (err = None -> existsb fetchFailed calls = false).
Proof.
  inversion 1 as [|statErr err' fetchCalls Hf]; subst.
  - repeat split.
  - destruct (fetch_engine_calls _ _ _ _ _ Hf) as (Hv & Hs & Hn).
    cbn [existsb startsVerify writesSummary fetchFailed orb]. rewrite !existsb_app, Hv, Hs.
    repeat split. intros He. now rewrite (Hn He).
Qed.

Lemma loop_engine_calls (problemID cacheDir : string) (headers : list (option header)) :
  forall multiErr w,
    let calls := callsN (downloadEach os net problemID cacheDir headers multiErr) w in
    existsb startsVerify calls = false /\ existsb writesSummary calls = false /\
    (valueN (downloadEach os net problemID cacheDir headers multiErr) w = LoopDone None ->
     multiErr = None /\ existsb fetchFailed calls = false).
Proof.
  induction headers as [|[h|] rest IH]; intros multiErr w; cbn [downloadEach]; runN_simpl.
  - split; [reflexivity|]. split; [reflexivity|]. intros [= ->]. split; reflexivity.
  - destruct (download_engine_calls _ _ _ _ _ (download_shape os net problemID cacheDir h w))
      as (Hv & Hs & Hn).
    rewrite !existsb_app, Hv, Hs. cbn [orb].
    destruct (valueN (downloadOne os net problemID cacheDir h) w) as [e|].
    + destruct (IH (errors_Join multiErr (Some e))
                   (afterN (downloadOne os net problemID cacheDir h) w)) as (Hv' & Hs' & Hn').
      split; [exact Hv'|]. split; [exact Hs'|].
      intros Hdone. destruct (Hn' Hdone) as [Hj _]. destruct multiErr; discriminate.
    + destruct (IH multiErr (afterN (downloadOne os net problemID cacheDir h) w))
        as (Hv' & Hs' & Hn').
      split; [exact Hv'|]. split; [exact Hs'|].
      intros Hdone. destruct (Hn' Hdone) as [Hm Hf]. split; [exact Hm|].
      now rewrite (Hn eq_refl), Hf.
  - split; [reflexivity|]. split; [reflexivity|]. discriminate.
Qed.




(** [verify] writes the summary exactly when it returns nil. *)
Lemma verify_summary_iff (cacheDir buildFilename : string) (w : World os) :
  returned (valueOf (verifyRun os cacheDir buildFilename) w) = None
  <-> existsb isSummary (callsOf (verifyRun os cacheDir buildFilename) w) = true.
Proof.
  pose proof (verifyRun_shape os cacheDir buildFilename w) as Hs.
  inversion Hs as [err Ho Hc | tmpDir err stderr Ho Hc | tmpDir found err Hw Ho Hc
                   | tmpDir found w' multiErr each Hw He Hj Ho Hc
                   | tmpDir found w' each Hw He Ho Hc];
    cbn [returned]; try (split; discriminate).
  - cbn [existsb isSummary orb]. rewrite existsb_app. subst each.
    rewrite eachCase_no_summary. split; discriminate.
  - cbn [existsb isSummary orb]. rewrite existsb_app. cbn.
    rewrite orb_true_r. split; reflexivity.
Qed.



(** X20.  [main] returns, rather than ending the process in [log.Fatal] or
    in a panic, exactly when the summary of [verify] was written.  Without a
    file name on the command line it panics before any call. *)
Theorem main_returns_iff_summary (args : list string) (w : World os) :
  (valueN (main os net args) w = Returned
   <-> existsb writesSummary (callsN (main os net args) w) = true)
  /\ (nth_error args 1 = None ->
      valueN (main os net args) w = Panicked /\ callsN (main os net args) w = []).
Proof.
  pose proof (main_shape args w) as Hs.
  assert (Hhdr : forall problemID (w1 : World os),
             existsb writesSummary (callsN (fetchProblemTestcasesHeader os net problemID) w1)
             = false).
  { intros problemID w1. destruct (header_calls problemID w1) as [Hengine _].
    change writesSummary with
      (fun c => match c with NEngine c' => isSummary c' | _ => false end).
    now rewrite existsb_engine, Hengine. }
  inversion Hs as [Harg He Hl | filename read e Harg Hne He Hl
                   | filename read problemID w1 e Harg Hne He Hl
                   | filename read problemID cacheDir headers w1 w2 e Harg Hne He Hl
                   | filename read problemID cacheDir headers response w1 w2 w3
                       Harg Hhd Hloop He Hl].
  - split; [split; discriminate|]. auto.
  - split; [|congruence]. split; [intros Hr; contradiction | discriminate].
  - split; [|congruence]. split; [intros Hr; contradiction|].
    cbn [existsb writesSummary orb]. rewrite Hhdr. discriminate.
  - split; [|congruence]. split; [intros Hr; contradiction|].
    cbn [existsb writesSummary orb]. rewrite existsb_app, Hhdr.
    destruct (loop_engine_calls problemID cacheDir headers None w2) as (_ & Hsum & _).
    rewrite Hsum. discriminate.
  - split; [|congruence].
    cbn [existsb writesSummary orb]. rewrite !existsb_app, Hhdr.
    destruct (loop_engine_calls problemID cacheDir headers None w2) as (_ & Hsum & _).
    rewrite Hsum. cbn [orb].
    change writesSummary with
      (fun c => match c with NEngine c' => isSummary c' | _ => false end).
    rewrite existsb_engine, engineCalls_map, <- verify_summary_iff.
    destruct (returned (valueOf (verifyRun os cacheDir filename) w3));
      split; (reflexivity || discriminate).
Qed.

End Main.


(** The same run returns, and the summary is among its calls. *)
Lemma main_returns_iff_summary_witness :
  let run := main Sim.os SimNet.full ["aoj-verify"; "main.go"] in
  valueN run SimNet.solution = Returned /\
  existsb writesSummary (callsN run SimNet.solution) = true.
Proof.
  intros run.
  assert (Hret : valueN run SimNet.solution = Returned) by (vm_compute; reflexivity).
  split; [exact Hret|].
  destruct (main_returns_iff_summary Sim.os SimNet.full ["aoj-verify"; "main.go"]
              SimNet.solution) as ([Hsum _] & _).
  exact (Hsum Hret).
Defined.

(* ================================================================== *)
(** * The stopwatch *)

Section Stopwatches.
Variable os : OS.

Lemma saturate_range (z : Z) : Int64.min_int <= Int64.saturate z <= Int64.max_int.
Proof.
  unfold Int64.saturate, Int64.min_int, Int64.max_int.
  destruct (Z.ltb_spec z (- 2 ^ 63)); [lia|].
  destruct (Z.ltb_spec (2 ^ 63 - 1) z); lia.
Qed.

Lemma saturate_mono (a b : Z) : a <= b -> Int64.saturate a <= Int64.saturate b.
Proof.
  unfold Int64.saturate, Int64.min_int, Int64.max_int. intros H.
  destruct (Z.ltb_spec a (- 2 ^ 63)), (Z.ltb_spec b (- 2 ^ 63)); try lia;
    destruct (Z.ltb_spec (2 ^ 63 - 1) a); destruct (Z.ltb_spec (2 ^ 63 - 1) b); lia.
Qed.

(** X21.  A stopwatch that is started and then read twice reads the clock
    three times and measures both times from the start: [Elapsed] does not
    restart it.  Each reading is the difference of the clock readings, cut
    to the range of a [time.Duration]; it is not negative when the clock did
    not go back, and the second is not below the first when the clock did
    not go back between them.  An earlier start is forgotten at [Start], and
    after [Reset] the stopwatch reads the greatest duration whatever the
    clock says. *)
Theorem stopwatch_measures_from_start (sw : Stopwatch) (w : World os) :
  let timed :=
    bind (Stopwatch_Start os sw) (fun started =>
    bind (Stopwatch_Elapsed os started) (fun first =>
    bind (Stopwatch_Elapsed os started) (fun second =>
    ret (first, second)))) in
  (exists t0 t1 t2,
      callsOf timed w = [CNow t0; CNow t1; CNow t2] /\
      valueOf timed w = (Int64.saturate (t1 - t0), Int64.saturate (t2 - t0)) /\
      (t0 <= t1 -> 0 <= fst (valueOf timed w)) /\
      (t1 <= t2 -> fst (valueOf timed w) <= snd (valueOf timed w)))
  /\ valueOf (bind (Stopwatch_Reset os sw) (Stopwatch_Elapsed os)) w = Int64.max_int
  /\ callsOf (bind (Stopwatch_Reset os sw) (Stopwatch_Elapsed os)) w
     = [CNow (fst (time_Now os w))].
Proof.
  intros timed. subst timed. split.
  - unfold Stopwatch_Start, Stopwatch_Elapsed. run_simpl.
    generalize (valueOf (call1 os (time_Now os) CNow) w).
    generalize (worldAfter (call1 os (time_Now os) CNow) w). intros w1 t0.
    generalize (valueOf (call1 os (time_Now os) CNow) w1).
    generalize (worldAfter (call1 os (time_Now os) CNow) w1). intros w2 t1.
    generalize (valueOf (call1 os (time_Now os) CNow) w2). intros t2.
    exists t0, t1, t2. split; [reflexivity|]. split; [reflexivity|].
    cbn [fst snd]. split; intros H.
    + change 0 with (Int64.saturate 0). apply saturate_mono. lia.
    + apply saturate_mono. lia.
  - unfold Stopwatch_Reset, Stopwatch_Elapsed. run_simpl.
    rewrite valueOf_call1. split; reflexivity.
Qed.

End Stopwatches.
